(** * MicroSelectIA: the candidate/job matching engine

    A shallow embedding of [app/core/config.py], [app/schemas/matching.py],
    [app/services/ai_matcher.py] and [app/services/matching_engine.py],
    followed by the properties of the engine that are stated about it.

    Conventions of the embedding.
    - A Python float is the rational number it denotes ([Q]); [==] on
      floats is [Qeq].  The scores of the engine are computed with the
      exact operations of [Q].  Where the outcome of the code is decided
      by the rounding of a double, in the start-up check of the weights
      and in the truncation of the percentage, the operation is the IEEE
      754 one: the exact result rounded to the nearest double
      ([Py.round64], [Py.fadd], [Py.fsub], [Py.fmul]).
    - Python strings are byte strings ([string]), the UTF-8 encoding of
      the text.  [Py.lower] and [Py.strip] are [str.lower] and
      [str.strip] on ASCII text ([Py.isascii]); bytes outside ASCII are
      left as they are.
    - A Python [set] of strings is a [gset string]; turning it into a list
      is [elements].
    - Exceptions are the [Raise] results of the [res] monad; the calls of
      [SentenceTransformer.encode] are recorded as events by the [Eng]
      monad, so that "no call to the model" is a statement about the log.
    - The sentence-transformer model is outside the repository: the cosine
      similarity of the embeddings of two texts is the section variable
      [cos_sim].  Calls to the logger are left out. *)

From Stdlib Require Import QArith Qminmax Qabs Qround Qpower Lqa ZArith String Ascii List
  Permutation Sorted Lia.
From stdpp Require Import base gmap strings list pretty.

Open Scope string_scope.
Open Scope list_scope.

Abbreviation float := Q.

(** ** Python built-ins used by the service *)

Module Py.

Definition ltb (a b : float) : bool := negb (Qle_bool b a).
Definition leb (a b : float) : bool := Qle_bool a b.
Definition eqb (a b : float) : bool := Qeq_bool a b.

(** [min(a, b)] and [max(a, b)] keep the first argument unless the
    second is strictly better. *)
Definition min (a b : float) : float := if ltb b a then b else a.
Definition max (a b : float) : float := if ltb a b then b else a.

(** *** Double precision

    [round64 q] is the double nearest to [q] (IEEE 754 binary64: 53
    significant bits, least exponent -1074, round to nearest, ties to
    even).  The sum, difference and product of two finite doubles are the
    exact result rounded this way, as long as it does not overflow. *)

(** The nearest integer, the even one of two that are equally near. *)
Definition rne (q : Q) : Z :=
  let f := Qfloor q in
  match Qcompare (q - inject_Z f)%Q (1 # 2)%Q with
  | Lt => f
  | Gt => (f + 1)%Z
  | Eq => if Z.even f then f else (f + 1)%Z
  end.

Definition pow2 (e : Z) : Q := (2 ^ e)%Q.

(** The exponent of the leading bit: [2^b <= |q| < 2^(b+1)]. *)
Definition ilog2 (q : Q) : Z :=
  let k := (Z.log2 (Z.abs (Qnum q)) - Z.log2 (Zpos (Qden q)))%Z in
  if Qle_bool (pow2 k) (Qabs q) then k else (k - 1)%Z.

(** The exponent of the last of the 53 bits. *)
Definition ulp_exponent (q : Q) : Z := Z.max (ilog2 q - 52) (-1074).

Definition round64 (q : Q) : float :=
  if Qeq_bool q 0 then 0%Q
  else Qred (inject_Z (rne (q / pow2 (ulp_exponent q))) * pow2 (ulp_exponent q))%Q.

(** A decimal literal of the source denotes the nearest double. *)
Definition float_lit (q : Q) : float := round64 q.

Definition fadd (x y : float) : float := round64 (x + y)%Q.
Definition fsub (x y : float) : float := round64 (x - y)%Q.
Definition fmul (x y : float) : float := round64 (x * y)%Q.

(** [int(x)] truncates toward zero. *)
Definition int (x : float) : Z := Z.quot (Qnum x) (Zpos (Qden x)).

(** [len(a) / len(b)]: true division of two lengths. *)
Definition len_div (a b : nat) : float :=
  (inject_Z (Z.of_nat a) / inject_Z (Z.of_nat b))%Q.

(** [sum(xs)] and [numpy.mean(xs)]. *)
Definition sum (xs : list float) : float := fold_left Qplus xs 0%Q.
Definition mean (xs : list float) : float :=
  (sum xs / inject_Z (Z.of_nat (length xs)))%Q.

(** [str.isascii]: the text has ASCII characters only, that is, no byte
    of its encoding is above 127. *)
Fixpoint isascii (s : string) : bool :=
  match s with
  | EmptyString => true
  | String c t => (nat_of_ascii c <? 128)%nat && isascii t
  end.

(** [str.isspace] on one ASCII character: TAB..CR, FS..US and space. *)
Definition is_space (c : ascii) : bool :=
  let n := nat_of_ascii c in
  ((9 <=? n)%nat && (n <=? 13)%nat) || ((28 <=? n)%nat && (n <=? 32)%nat).

(** [str.lower] and [str.strip] on ASCII text: the letters A..Z are
    lower-cased and the ASCII white space is stripped.  Bytes above 127,
    which encode the characters outside ASCII, are left as they are, so on
    text with such characters ([isascii] false) the two functions may
    differ from the built-ins, which also lower-case letters such as
    accented capitals and strip white space such as the no-break space. *)
Definition lower_char (c : ascii) : ascii :=
  let n := nat_of_ascii c in
  if ((65 <=? n)%nat && (n <=? 90)%nat) then ascii_of_nat (n + 32) else c.

Fixpoint lower (s : string) : string :=
  match s with
  | EmptyString => EmptyString
  | String c t => String (lower_char c) (lower t)
  end.

Fixpoint lstrip (s : string) : string :=
  match s with
  | EmptyString => EmptyString
  | String c t => if is_space c then lstrip t else s
  end.

Fixpoint rstrip (s : string) : string :=
  match s with
  | EmptyString => EmptyString
  | String c t =>
      match rstrip t with
      | EmptyString => if is_space c then EmptyString else String c EmptyString
      | t' => String c t'
      end
  end.

Definition strip (s : string) : string := rstrip (lstrip s).

(** [needle in hay] on strings. *)
Fixpoint contains (needle hay : string) : bool :=
  String.prefix needle hay ||
  match hay with
  | EmptyString => false
  | String _ t => contains needle t
  end.

Definition join (sep : string) (xs : list string) : string :=
  String.concat sep xs.

(** Truthiness of an [Optional[str]]: [None] and the empty string are
    false. *)
Definition str_or_empty (o : option string) : string :=
  match o with Some s => s | None => EmptyString end.

Definition nonempty_str (s : string) : bool :=
  match s with EmptyString => false | _ => true end.

Definition truthy_str (o : option string) : bool :=
  nonempty_str (str_or_empty o).

Definition nonempty {A} (l : list A) : bool :=
  match l with [] => false | _ => true end.

(** [any(k in text for k in keywords)]. *)
Definition any_in (keywords : list string) (text : string) : bool :=
  existsb (fun k => contains k text) keywords.

(** [xs.sort(key=key, reverse=True)] and [sorted(xs, key=key,
    reverse=True)]: a stable sort into descending key order.  An element
    is placed in front of the first element whose key is not larger than
    its own, so elements with equal keys stay in their input order. *)
Section Sort.
Context {A : Type} (key : A -> float).

Fixpoint insert_desc (x : A) (l : list A) : list A :=
    match l with
    | [] => [x]
    | y :: l' => if ltb (key x) (key y) then y :: insert_desc x l' else x :: l
    end.

Definition sort_desc (l : list A) : list A := foldr insert_desc [] l.
End Sort.

(** [enumerate(xs, start)]. *)
Fixpoint enumerate {A} (start : nat) (xs : list A) : list (nat * A) :=
  match xs with
  | [] => []
  | x :: xs' => (start, x) :: enumerate (S start) xs'
  end.

(** [d[k] = d.get(k, 0) + 1] on a dictionary, which keeps its keys in
    insertion order. *)
Fixpoint bump (k : string) (d : list (string * Z)) : list (string * Z) :=
  match d with
  | [] => [(k, 1%Z)]
  | (k', n) :: d' =>
      if String.eqb k k' then (k', (n + 1)%Z) :: d' else (k', n) :: bump k d'
  end.

End Py.

(** ** Exceptions and model calls *)

Inductive error : Type :=
| AttributeError (attr : string)
| ValidationError (model : string)
| ValueError (msg : string).

Inductive res (A : Type) : Type :=
| Ok (a : A)
| Raise (e : error).
Arguments Ok {A} a.
Arguments Raise {A} e.

#[global] Instance res_ret : MRet res := fun A a => Ok a.
#[global] Instance res_bind : MBind res := fun A B f m =>
  match m with Ok a => f a | Raise e => Raise e end.

(** One call of [SentenceTransformer.encode] with the texts it was given. *)
Inductive event : Type :=
| Encode (texts : list string).

(** A computation of the service: the model calls it made, in order, and
    its result or the exception that ended it. *)
Definition Eng (A : Type) : Type := (list event * res A)%type.

#[global] Instance Eng_ret : MRet Eng := fun A a => ([], Ok a).
#[global] Instance Eng_bind : MBind Eng := fun A B f m =>
  match m with
  | (l, Ok a) => let '(l', r) := f a in (l ++ l', r)
  | (l, Raise e) => (l, Raise e)
  end.

Definition lift {A} (r : res A) : Eng A := ([], r).
Definition emit (e : event) : Eng unit := ([e], Ok tt).

(** [for x in xs: ys.append(f(x))], stopping at the first exception. *)
Fixpoint for_each {A B} (f : A -> Eng B) (xs : list A) : Eng (list B) :=
  match xs with
  | [] => mret []
  | x :: xs' => y ← f x; ys ← for_each f xs'; mret (y :: ys)
  end.


(** ** app/core/config.py *)

Module Config.
Local Open Scope Q_scope.

(** The matching fields of [class Settings]; the API, CORS, cache and
    logging fields are not read by the engine. *)
Record Settings : Type := {
  SKILLS_WEIGHT : float;
  EXPERIENCE_WEIGHT : float;
  SEMANTIC_WEIGHT : float;
  EDUCATION_WEIGHT : float;
  MIN_MATCH_SCORE : float;
  GOOD_MATCH_SCORE : float;
  EXCELLENT_MATCH_SCORE : float
}.

(** The defaults written in the class body: the doubles that the
    literals [0.40], [0.25], ... denote. *)
Definition defaults : Settings := {|
  SKILLS_WEIGHT := Py.float_lit (40 # 100);
  EXPERIENCE_WEIGHT := Py.float_lit (25 # 100);
  SEMANTIC_WEIGHT := Py.float_lit (25 # 100);
  EDUCATION_WEIGHT := Py.float_lit (10 # 100);
  MIN_MATCH_SCORE := Py.float_lit (30 # 100);
  GOOD_MATCH_SCORE := Py.float_lit (60 # 100);
  EXCELLENT_MATCH_SCORE := Py.float_lit (80 # 100)
|}.

(** The sum of the four weights as the code forms it: three additions of
    doubles, from left to right. *)
Definition weights_total (s : Settings) : float :=
  Py.fadd (Py.fadd (Py.fadd (SKILLS_WEIGHT s) (EXPERIENCE_WEIGHT s))
                   (SEMANTIC_WEIGHT s))
          (EDUCATION_WEIGHT s).

(** [abs(total - 1.0) < 0.01] on doubles: the difference is rounded, and
    [0.01] is the double nearest to one hundredth. *)
Definition validate_weights (s : Settings) : bool :=
  Py.ltb (Qabs (Py.fsub (weights_total s) 1)) (Py.float_lit (1 # 100)).

(** The body of the module: [settings = Settings()] followed by the
    start-up check.  [s] is the instance that [Settings()] built from the
    environment; importing the module yields it or raises. *)
Definition import_config (s : Settings) : res Settings :=
  if negb (validate_weights s)
  then Raise (ValueError "Weights must sum to 1.0")
  else Ok s.

(** The float attributes of a [Settings] instance, by name.  The class is
    configured with [extra = "ignore"], so an instance has the declared
    fields and no others. *)
Definition attributes (s : Settings) : gmap string float :=
  list_to_map
    [ ("SKILLS_WEIGHT", SKILLS_WEIGHT s);
      ("EXPERIENCE_WEIGHT", EXPERIENCE_WEIGHT s);
      ("SEMANTIC_WEIGHT", SEMANTIC_WEIGHT s);
      ("EDUCATION_WEIGHT", EDUCATION_WEIGHT s);
      ("MIN_MATCH_SCORE", MIN_MATCH_SCORE s);
      ("GOOD_MATCH_SCORE", GOOD_MATCH_SCORE s);
      ("EXCELLENT_MATCH_SCORE", EXCELLENT_MATCH_SCORE s) ].

End Config.

(** [obj.name] on a settings object: the value of the attribute, or
    [AttributeError]. *)
Definition getattr (obj : gmap string float) (name : string) : res float :=
  match obj !! name with
  | Some v => Ok v
  | None => Raise (AttributeError name)
  end.

(** ** app/schemas/matching.py *)

Module EducationSchema.
Record t : Type := {
  degree : string;
  institution : string;
  field : option string;
  start_year : option Z;
  end_year : option Z
}.
End EducationSchema.

Module ExperienceSchema.
Record t : Type := {
  company : string;
  position : string;
  description : option string;
  start_date : option string;
  end_date : option string;
  years : option float
}.
End ExperienceSchema.

Module CandidateSchema.
Record t : Type := {
  id : string;
  name : string;
  skills : list string;
  experience_years : float;
  experience : list ExperienceSchema.t;
  education : list EducationSchema.t;
  languages : list string;
  summary : option string;
  location : option string
}.

(** What the model's validation guarantees about the numbers of a
    candidate: [experience_years] is declared [ge=0]. *)
Definition valid (c : t) : Prop := (0 <= experience_years c)%Q.
End CandidateSchema.

Inductive JobType : Type := FULL_TIME | PART_TIME | CONTRACT | INTERNSHIP.

Module JobSchema.
Record t : Type := {
  id : string;
  title : string;
  description : string;
  skills : list string;
  requirements : list string;
  location : option string;
  type : JobType;
  salary_min : option Z;
  salary_max : option Z;
  min_experience_years : option float
}.
End JobSchema.

(** [Field(..., ge=0, le=1)]. *)
Definition in_unit (x : float) : bool := Py.leb 0 x && Py.leb x 1.

Module MatchBreakdown.
Record t : Type := {
  skills_match : float;
  experience_match : float;
  education_match : float;
  semantic_match : float;
  location_match : option float
}.

(** The constructor: pydantic checks the declared bounds of every field
    that is given and raises [ValidationError] when one fails. *)
Definition new (skills experience education semantic : float)
    (location : option float) : res t :=
  if in_unit skills && in_unit experience && in_unit education
     && in_unit semantic
     && match location with Some l => in_unit l | None => true end
  then Ok {| skills_match := skills; experience_match := experience;
             education_match := education; semantic_match := semantic;
             location_match := location |}
  else Raise (ValidationError "MatchBreakdown").
End MatchBreakdown.

Module SingleMatchResponse.
Record t : Type := {
  candidate_id : string;
  candidate_name : string;
  job_id : string;
  compatibility_score : float;
  match_percentage : Z;
  breakdown : MatchBreakdown.t;
  matched_skills : list string;
  missing_skills : list string;
  explanation : string;
  recommendations : list string;
  match_quality : string
}.

Definition new (cid cname jid : string) (score : float) (pct : Z)
    (b : MatchBreakdown.t) (matched missing : list string)
    (expl : string) (recs : list string) (quality : string) : res t :=
  if in_unit score && (0 <=? pct)%Z && (pct <=? 100)%Z
  then Ok {| candidate_id := cid; candidate_name := cname; job_id := jid;
             compatibility_score := score; match_percentage := pct;
             breakdown := b; matched_skills := matched;
             missing_skills := missing; explanation := expl;
             recommendations := recs; match_quality := quality |}
  else Raise (ValidationError "SingleMatchResponse").
End SingleMatchResponse.

Module RankedMatchResult.
Record t : Type := {
  candidate_id : string;
  candidate_name : string;
  compatibility_score : float;
  match_percentage : Z;
  rank : nat;
  breakdown : MatchBreakdown.t;
  matched_skills : list string;
  missing_skills : list string;
  explanation : string;
  recommendations : list string;
  match_quality : string
}.

Definition new (cid cname : string) (score : float) (pct : Z) (rk : nat)
    (b : MatchBreakdown.t) (matched missing : list string)
    (expl : string) (recs : list string) (quality : string) : res t :=
  if in_unit score && (0 <=? pct)%Z && (pct <=? 100)%Z && (1 <=? rk)%nat
  then Ok {| candidate_id := cid; candidate_name := cname;
             compatibility_score := score; match_percentage := pct;
             rank := rk; breakdown := b; matched_skills := matched;
             missing_skills := missing; explanation := expl;
             recommendations := recs; match_quality := quality |}
  else Raise (ValidationError "RankedMatchResult").
End RankedMatchResult.

(** [BatchMatchRequest.validate_candidates]: the ids of a batch are
    pairwise different. *)
Definition unique_ids (cs : list CandidateSchema.t) : Prop :=
  NoDup (map CandidateSchema.id cs).

(** ** app/services/ai_matcher.py and app/services/matching_engine.py *)

Section Service.
Local Open Scope Q_scope.

(** [cos_sim a b] is [cosine_similarity] of the model's embeddings of the
    texts [a] and [b]; [float_str] is Python's formatting of a float
    inside an f-string. *)
Variable cos_sim : string -> string -> float.
Variable float_str : float -> string.

(** The settings object held by the engine ([self.settings]), as the
    attributes it offers. *)
Variable settings : gmap string float.

(** [skill.lower().strip()]. *)
Definition normalize (skill : string) : string := Py.strip (Py.lower skill).

(** *** AIMatcherService *)

Definition calculate_similarity (text1 text2 : string) : Eng float :=
  _ ← emit (Encode [text1; text2]);
  mret (Py.max 0 (Py.min 1 (cos_sim text1 text2))).

(** [similarity_matrix[idx].max()] for a row over a non-empty list of
    candidate skills. *)
Definition row_max (job_skill first : string) (others : list string) : float :=
  fold_left (fun m c => Qmax m (cos_sim job_skill c)) others
            (cos_sim job_skill first).

(** The loop over the job skills: the accepted skills and their scores. *)
Fixpoint semantic_loop (first : string) (others job_skills : list string)
    : list string * list float :=
  match job_skills with
  | [] => ([], [])
  | job_skill :: rest =>
      let max_similarity := row_max job_skill first others in
      let '(matched_skills, match_scores) := semantic_loop first others rest in
      if Py.leb (7 # 10) max_similarity
      then (job_skill :: matched_skills, max_similarity :: match_scores)
      else (matched_skills, match_scores)
  end.

Definition match_skills_semantic (candidate_skills job_skills : list string)
    : Eng (float * list string) :=
  match map normalize candidate_skills, map normalize job_skills with
  | [], _ | _, [] => mret (0, [])
  | first :: others, job_skills' =>
      _ ← emit (Encode (first :: others));
      _ ← emit (Encode job_skills');
      let '(matched_skills, match_scores) :=
        semantic_loop first others job_skills' in
      let avg_score :=
        if Py.nonempty match_scores then Py.mean match_scores else 0 in
      mret (avg_score, matched_skills)
  end.

Definition match_text_semantic (candidate_text job_text : string) : Eng float :=
  if negb (Py.nonempty_str candidate_text) || negb (Py.nonempty_str job_text)
  then mret 0
  else calculate_similarity candidate_text job_text.

(** *** MatchingEngine *)

Definition skill_set (skills : list string) : gset string :=
  list_to_set (map normalize skills).

Definition calculate_skills_match (candidate : CandidateSchema.t)
    (job : JobSchema.t) : Eng (float * list string * list string) :=
  if negb (Py.nonempty (JobSchema.skills job)) then mret (1, [], [])
  else
    let candidate_skills := skill_set (CandidateSchema.skills candidate) in
    let job_skills := skill_set (JobSchema.skills job) in
    let matched_skills := elements (candidate_skills ∩ job_skills) in
    let missing_skills := elements (job_skills ∖ candidate_skills) in
    let exact_match_score :=
      if decide (job_skills = ∅) then 0
      else Py.len_div (length matched_skills) (size job_skills) in
    if Py.nonempty missing_skills
       && Py.nonempty (CandidateSchema.skills candidate)
    then
      '(semantic_score, semantic_matches) ←
        match_skills_semantic (CandidateSchema.skills candidate) missing_skills;
      let final_score :=
        exact_match_score * (7 # 10) + semantic_score * (3 # 10) in
      mret (Py.min 1 final_score,
            matched_skills ++ semantic_matches,
            filter (fun skill => skill ∉ semantic_matches) missing_skills)
    else
      mret (Py.min 1 exact_match_score, matched_skills, missing_skills).

Definition calculate_experience_match (candidate : CandidateSchema.t)
    (job : JobSchema.t) : float :=
  match JobSchema.min_experience_years job with
  | None => 1
  | Some required_exp =>
      if Py.eqb required_exp 0 then 1
      else
        let candidate_exp := CandidateSchema.experience_years candidate in
        if Py.leb required_exp candidate_exp then
          let excess := candidate_exp - required_exp in
          let bonus := Py.min (2 # 10) (excess / (required_exp * 2)) in
          Py.min 1 (1 + bonus)
        else
          let ratio := candidate_exp / required_exp in
          Py.max 0 ratio
  end.

Definition edu_keywords : list string :=
  [ "bachelor"; "master"; "phd"; "doctorate"; "degree";
    "licenciatura"; "maestría"; "doctorado"; "título" ].

Definition edu_text (edu : EducationSchema.t) : string :=
  EducationSchema.degree edu +:+ " in " +:+
  Py.str_or_empty (EducationSchema.field edu) +:+ " from " +:+
  EducationSchema.institution edu.

Definition calculate_education_match (candidate : CandidateSchema.t)
    (job : JobSchema.t) : Eng float :=
  if negb (Py.nonempty (CandidateSchema.education candidate))
     || negb (Py.nonempty (JobSchema.requirements job))
  then mret (5 # 10)
  else
    let job_reqs_text := Py.lower (Py.join " " (JobSchema.requirements job)) in
    let has_edu_requirement := Py.any_in edu_keywords job_reqs_text in
    if negb has_edu_requirement then mret 1
    else
      let education_texts := map edu_text (CandidateSchema.education candidate) in
      if negb (Py.nonempty education_texts) then mret (3 # 10)
      else
        let combined_edu := Py.join ". " education_texts in
        match_text_semantic combined_edu job_reqs_text.

Definition exp_text (exp : ExperienceSchema.t) : string :=
  ExperienceSchema.position exp +:+ " at " +:+ ExperienceSchema.company exp
  +:+ ". " +:+ Py.str_or_empty (ExperienceSchema.description exp).

Definition calculate_semantic_match (candidate : CandidateSchema.t)
    (job : JobSchema.t) : Eng float :=
  let summary_part :=
    if Py.truthy_str (CandidateSchema.summary candidate)
    then [Py.str_or_empty (CandidateSchema.summary candidate)] else [] in
  let candidate_parts :=
    summary_part ++ map exp_text (CandidateSchema.experience candidate) in
  let candidate_text := Py.join " " candidate_parts in
  let job_text :=
    JobSchema.title job +:+ ". " +:+ JobSchema.description job +:+ ". " +:+
    Py.join " " (JobSchema.requirements job) in
  if negb (Py.nonempty_str candidate_text) || negb (Py.nonempty_str job_text)
  then mret (5 # 10)
  else match_text_semantic candidate_text job_text.

Definition remote_keywords : list string :=
  [ "remote"; "remoto"; "anywhere"; "cualquier lugar" ].

Definition calculate_location_match (candidate : CandidateSchema.t)
    (job : JobSchema.t) : Eng float :=
  if negb (Py.truthy_str (JobSchema.location job)) then mret 1
  else if negb (Py.truthy_str (CandidateSchema.location candidate))
  then mret (5 # 10)
  else
    let candidate_loc :=
      Py.strip (Py.lower (Py.str_or_empty (CandidateSchema.location candidate))) in
    let job_loc :=
      Py.strip (Py.lower (Py.str_or_empty (JobSchema.location job))) in
    if Py.any_in remote_keywords job_loc then mret 1
    else if String.eqb candidate_loc job_loc then mret 1
    else if Py.contains candidate_loc job_loc || Py.contains job_loc candidate_loc
    then mret (8 # 10)
    else
      loc_similarity ← calculate_similarity candidate_loc job_loc;
      mret (loc_similarity * (6 # 10)).

(** The weighted sum before the location factor. *)
Definition weighted_sum (breakdown : MatchBreakdown.t)
    (w_skills w_experience w_education w_semantic : float) : float :=
  MatchBreakdown.skills_match breakdown * w_skills +
  MatchBreakdown.experience_match breakdown * w_experience +
  MatchBreakdown.education_match breakdown * w_education +
  MatchBreakdown.semantic_match breakdown * w_semantic.

Definition calculate_overall_score (breakdown : MatchBreakdown.t) : res float :=
  w_skills ← getattr settings "SKILLS_WEIGHT";
  w_experience ← getattr settings "EXPERIENCE_WEIGHT";
  w_education ← getattr settings "EDUCATION_WEIGHT";
  w_semantic ← getattr settings "SEMANTIC_WEIGHT";
  let score :=
    weighted_sum breakdown w_skills w_experience w_education w_semantic in
  match MatchBreakdown.location_match breakdown with
  | Some location =>
      let location_boost := location * (5 # 100) in
      mret (Py.min 1 (score + location_boost))
  | None => mret score
  end.

Definition determine_match_quality (score : float) : res string :=
  excellent ← getattr settings "EXCELLENT_MATCH_THRESHOLD";
  if Py.leb excellent score then mret "excellent"
  else
    good ← getattr settings "GOOD_MATCH_THRESHOLD";
    if Py.leb good score then mret "good"
    else
      minimum ← getattr settings "MIN_MATCH_THRESHOLD";
      if Py.leb minimum score then mret "medium"
      else mret "low".

(** [', '.join(skills[:n])] followed by [suffix] when the list is longer. *)
Definition listed (n : nat) (suffix : string) (skills : list string) : string :=
  Py.join ", " (take n skills)
  +:+ (if (n <? length skills)%nat then suffix else "").

Definition generate_explanation (candidate : CandidateSchema.t)
    (job : JobSchema.t) (breakdown : MatchBreakdown.t)
    (matched_skills missing_skills : list string) (overall_score : float)
    : res string :=
  quality ← determine_match_quality overall_score;
  let percentage := Py.int (Py.fmul overall_score 100) in
  let intro :=
    [ CandidateSchema.name candidate +:+ " tiene un " +:+ pretty percentage
      +:+ "% de compatibilidad con el puesto " +:+ JobSchema.title job +:+ "." ] in
  let matched_part :=
    if Py.nonempty matched_skills
    then [ "Habilidades coincidentes: " +:+ listed 5 " y más" matched_skills +:+ "." ]
    else [] in
  let missing_part :=
    if Py.nonempty missing_skills
    then [ "Habilidades por desarrollar: " +:+ listed 3 " y otras" missing_skills +:+ "." ]
    else [] in
  let experience_part :=
    if Py.leb (8 # 10) (MatchBreakdown.experience_match breakdown)
    then [ "La experiencia del candidato supera los requisitos." ]
    else if Py.leb (6 # 10) (MatchBreakdown.experience_match breakdown)
    then [ "La experiencia del candidato cumple con los requisitos." ]
    else [ "El candidato necesita más experiencia para este puesto." ] in
  let closing :=
    if String.eqb quality "excellent"
    then [ "Candidato altamente recomendado para entrevista." ]
    else if String.eqb quality "good"
    then [ "Candidato recomendado para considerar." ]
    else if String.eqb quality "medium"
    then [ "Candidato con potencial, requiere evaluación adicional." ]
    else [ "Candidato no cumple con los requisitos mínimos." ] in
  mret (Py.join " "
          (intro ++ matched_part ++ missing_part ++ experience_part ++ closing)).

(** Truthiness of [job.min_experience_years]: neither [None] nor zero. *)
Definition truthy_float (o : option float) : bool :=
  match o with Some x => negb (Py.eqb x 0) | None => false end.

Definition generate_recommendations (candidate : CandidateSchema.t)
    (job : JobSchema.t) (breakdown : MatchBreakdown.t)
    (missing_skills : list string) : list string :=
  let skills_part :=
    if Py.nonempty missing_skills
    then [ "Desarrollar habilidades en: " +:+ Py.join ", " (take 3 missing_skills) ]
    else [] in
  let experience_part :=
    if Py.ltb (MatchBreakdown.experience_match breakdown) (7 # 10)
       && truthy_float (JobSchema.min_experience_years job)
    then match JobSchema.min_experience_years job with
         | Some r => [ "Ganar más experiencia relevante (ideal: " +:+ float_str r
                       +:+ " años)" ]
         | None => []
         end
    else [] in
  let education_part :=
    if Py.ltb (MatchBreakdown.education_match breakdown) (6 # 10)
    then [ "Considerar certificaciones o formación adicional relacionada con el puesto" ]
    else [] in
  let semantic_part :=
    if Py.ltb (MatchBreakdown.semantic_match breakdown) (6 # 10)
    then [ "Actualizar perfil profesional para resaltar experiencia relevante al puesto" ]
    else [] in
  let recommendations :=
    skills_part ++ experience_part ++ education_part ++ semantic_part in
  if Py.nonempty recommendations then recommendations
  else [ "Perfil muy completo, mantener actualizado" ].

Definition match_single (candidate : CandidateSchema.t) (job : JobSchema.t)
    : Eng SingleMatchResponse.t :=
  '(skills_score, matched_skills, missing_skills) ←
    calculate_skills_match candidate job;
  let experience_score := calculate_experience_match candidate job in
  education_score ← calculate_education_match candidate job;
  semantic_score ← calculate_semantic_match candidate job;
  location_score ← calculate_location_match candidate job;
  breakdown ← lift (MatchBreakdown.new skills_score experience_score
                      education_score semantic_score (Some location_score));
  overall_score ← lift (calculate_overall_score breakdown);
  let match_percentage := Py.int (Py.fmul overall_score 100) in
  match_quality ← lift (determine_match_quality overall_score);
  explanation ← lift (generate_explanation candidate job breakdown
                        matched_skills missing_skills overall_score);
  let recommendations :=
    generate_recommendations candidate job breakdown missing_skills in
  lift (SingleMatchResponse.new
          (CandidateSchema.id candidate) (CandidateSchema.name candidate)
          (JobSchema.id job) overall_score match_percentage breakdown
          matched_skills missing_skills explanation recommendations
          match_quality).

Definition to_ranked (entry : nat * SingleMatchResponse.t)
    : res RankedMatchResult.t :=
  let '(rank, m) := entry in
  RankedMatchResult.new
    (SingleMatchResponse.candidate_id m) (SingleMatchResponse.candidate_name m)
    (SingleMatchResponse.compatibility_score m)
    (SingleMatchResponse.match_percentage m) rank
    (SingleMatchResponse.breakdown m) (SingleMatchResponse.matched_skills m)
    (SingleMatchResponse.missing_skills m) (SingleMatchResponse.explanation m)
    (SingleMatchResponse.recommendations m) (SingleMatchResponse.match_quality m).

Definition count_skills (all_matched_skills : list string) : list (string * Z) :=
  fold_left (fun skill_counts skill => Py.bump skill skill_counts)
            all_matched_skills [].

Definition top_skills_of (all_matched_skills : list string) : list string :=
  map fst (take 10 (Py.sort_desc (fun item => inject_Z (snd item))
                                 (count_skills all_matched_skills))).

Definition match_batch (candidates : list CandidateSchema.t) (job : JobSchema.t)
    : Eng (list RankedMatchResult.t * float * list string) :=
  matches ← for_each (fun candidate => match_single candidate job) candidates;
  let all_matched_skills :=
    concat (map SingleMatchResponse.matched_skills matches) in
  let matches := Py.sort_desc SingleMatchResponse.compatibility_score matches in
  ranked_results ← for_each (fun entry => lift (to_ranked entry))
                            (Py.enumerate 1 matches);
  let average_score :=
    if Py.nonempty matches
    then Py.sum (map SingleMatchResponse.compatibility_score matches)
         / inject_Z (Z.of_nat (length matches))
    else 0 in
  mret (ranked_results, average_score, top_skills_of all_matched_skills).

End Service.

(** ** The whole process

    [app/main.py] imports [app.core.config] first and the routes, which
    build the engine, after it.  A request is therefore served only by a
    process whose import of the configuration did not raise. *)

(** [POST /api/match/single] in a process started with the environment
    that yields the instance [s].  The engine obtains its settings object
    from [get_settings], which is imported from [app.core.config] but not
    defined there; it is a parameter here. *)
Definition serve_single (cos_sim : string -> string -> float)
    (float_str : float -> string)
    (get_settings : Config.Settings -> gmap string float)
    (s : Config.Settings)
    (candidate : CandidateSchema.t) (job : JobSchema.t)
    : Eng SingleMatchResponse.t :=
  settings ← lift (Config.import_config s);
  match_single cos_sim float_str (get_settings settings) candidate job.

(** ** The result of the semantic matcher in closed form

    What the loop of [match_skills_semantic] collects on a non-empty list
    of candidate skills: the row maxima of at least 0.7, and their mean. *)

Definition loop_best_similarity (cos_sim : string -> string -> float)
    (candidate_skills : list string) (job_skill : string) : float :=
  match map normalize candidate_skills with
  | [] => 0%Q
  | first :: others => row_max cos_sim (normalize job_skill) first others
  end.

Definition loop_accepted (cos_sim : string -> string -> float)
    (candidate_skills missing : list string) : list float :=
  List.filter (fun similarity => Py.leb (7 # 10) similarity)
              (map (loop_best_similarity cos_sim candidate_skills) missing).

Definition loop_semantic_score (cos_sim : string -> string -> float)
    (candidate_skills missing : list string) : float :=
  match loop_accepted cos_sim candidate_skills missing with
  | [] => 0%Q
  | accepted => Py.mean accepted
  end.

(** ** The semantic score of the skills matcher, in the words of the spec

    For each missing skill, the similarity to its best-matching candidate
    skill, that is, the largest of its similarities to the candidate's
    skills; the similarities of at least 0.7 are accepted; the semantic
    score is their average, and 0.0 when none is accepted.  None of these
    definitions refers to the code of the matcher. *)

(** The largest of the numbers [x], [xs]. *)
Fixpoint spec_largest (x : Q) (xs : list Q) : Q :=
  match xs with
  | [] => x
  | y :: ys => Qmax x (spec_largest y ys)
  end.

Definition spec_best_similarity (cos_sim : string -> string -> float)
    (candidate_skills : list string) (missing_skill : string) : Q :=
  match map (cos_sim missing_skill) candidate_skills with
  | [] => 0%Q
  | x :: xs => spec_largest x xs
  end.

Definition spec_accepted (cos_sim : string -> string -> float)
    (candidate_skills missing : list string) : list Q :=
  List.filter (fun similarity => Qle_bool (7 # 10) similarity)
              (map (spec_best_similarity cos_sim candidate_skills) missing).

Definition spec_average (xs : list Q) : Q :=
  (fold_right Qplus 0 xs / inject_Z (Z.of_nat (length xs)))%Q.

Definition spec_semantic_score (cos_sim : string -> string -> float)
    (candidate_skills missing : list string) : Q :=
  match spec_accepted cos_sim candidate_skills missing with
  | [] => 0%Q
  | accepted => spec_average accepted
  end.

(** ** Vocabulary of the statements *)

Definition unit_range (x : float) : Prop := (0 <= x <= 1)%Q.

(** The job asks for no experience or for a non-negative number of years.
    [JobSchema] itself puts no bound on the field. *)
Definition nonneg_requirement (job : JobSchema.t) : Prop :=
  match JobSchema.min_experience_years job with
  | Some r => (0 <= r)%Q
  | None => True
  end.

Definition nonneg_attribute (settings : gmap string float) (name : string) : Prop :=
  exists w, settings !! name = Some w /\ (0 <= w)%Q.

(** A settings object the engine can run on: it offers the four weights,
    none of them negative, and the three thresholds under the names that
    [determine_match_quality] reads. *)
Definition usable_settings (settings : gmap string float) : Prop :=
  nonneg_attribute settings "SKILLS_WEIGHT" /\
  nonneg_attribute settings "EXPERIENCE_WEIGHT" /\
  nonneg_attribute settings "EDUCATION_WEIGHT" /\
  nonneg_attribute settings "SEMANTIC_WEIGHT" /\
  is_Some (settings !! "EXCELLENT_MATCH_THRESHOLD") /\
  is_Some (settings !! "GOOD_MATCH_THRESHOLD") /\
  is_Some (settings !! "MIN_MATCH_THRESHOLD").

(** [x] occurs somewhere before [y] in [l]. *)
Definition before {A} (x y : A) (l : list A) : Prop :=
  exists l1 l2 l3, l = l1 ++ x :: l2 ++ y :: l3.

(** [b] may follow [a] in a list in descending order of [key]. *)
Definition desc {A} (key : A -> float) (a b : A) : Prop := (key b <= key a)%Q.

(** The ranked result [x] is the single match [m] with a rank added. *)
Definition ranks (m : SingleMatchResponse.t) (x : RankedMatchResult.t) : Prop :=
  RankedMatchResult.candidate_id x = SingleMatchResponse.candidate_id m /\
  RankedMatchResult.compatibility_score x
    = SingleMatchResponse.compatibility_score m.

(** [m] is the result of the single match of [candidate]. *)
Definition single_of (cos_sim : string -> string -> float)
    (float_str : float -> string) (settings : gmap string float)
    (job : JobSchema.t) (candidate : CandidateSchema.t)
    (m : SingleMatchResponse.t) : Prop :=
  exists l, match_single cos_sim float_str settings candidate job = (l, Ok m).

(** The bounds that [SingleMatchResponse] has checked. *)
Definition validated (m : SingleMatchResponse.t) : Prop :=
  unit_range (SingleMatchResponse.compatibility_score m) /\
  (0 <= SingleMatchResponse.match_percentage m <= 100)%Z.

(** ** Sample inputs

    Concrete candidates, jobs, a stand-in for the model and a settings
    object, on which the definitions above are run. *)

Definition candidate_of (id : string) (skills : list string) (years : float)
    (education : list EducationSchema.t) (location : option string)
    : CandidateSchema.t :=
  {| CandidateSchema.id := id; CandidateSchema.name := "Candidate " +:+ id;
     CandidateSchema.skills := skills;
     CandidateSchema.experience_years := years;
     CandidateSchema.experience := [];
     CandidateSchema.education := education;
     CandidateSchema.languages := [];
     CandidateSchema.summary := Some "Desarrollador full-stack";
     CandidateSchema.location := location |}.

Definition job_of (skills requirements : list string)
    (location : option string) (min_years : option float) : JobSchema.t :=
  {| JobSchema.id := "job-001"; JobSchema.title := "Desarrollador Full Stack";
     JobSchema.description := "Buscamos desarrollador con experiencia";
     JobSchema.skills := skills; JobSchema.requirements := requirements;
     JobSchema.location := location; JobSchema.type := FULL_TIME;
     JobSchema.salary_min := None; JobSchema.salary_max := None;
     JobSchema.min_experience_years := min_years |}.

(** A model that finds "postgresql" and "sql" alike (0.9), "postgresql"
    and "python" a little (0.2), equal texts the same (1.0) and all other
    texts unlike (0.0). *)
Definition graded_similarity (a b : string) : float :=
  if String.eqb a b then 1%Q
  else if (String.eqb a "postgresql" && String.eqb b "sql")
          || (String.eqb a "sql" && String.eqb b "postgresql") then (9 # 10)%Q
  else if (String.eqb a "postgresql" && String.eqb b "python")
          || (String.eqb a "python" && String.eqb b "postgresql") then (2 # 10)%Q
  else 0%Q.

(** A model that finds two texts alike only when they are equal. *)
Definition sample_similarity (a b : string) : float :=
  if String.eqb a b then 1%Q else 0%Q.

Definition sample_float_str (x : float) : string := pretty (Py.int x).

(** A settings object with the seven attributes the engine reads. *)
Definition sample_settings : gmap string float :=
  list_to_map
    [ ("SKILLS_WEIGHT", 40 # 100); ("EXPERIENCE_WEIGHT", 25 # 100);
      ("SEMANTIC_WEIGHT", 25 # 100); ("EDUCATION_WEIGHT", 10 # 100);
      ("MIN_MATCH_THRESHOLD", 30 # 100); ("GOOD_MATCH_THRESHOLD", 60 # 100);
      ("EXCELLENT_MATCH_THRESHOLD", 80 # 100) ]%Q.

(** A candidate without education records and a job that asks for a
    degree. *)
Definition no_education_candidate : CandidateSchema.t :=
  candidate_of "c-1" ["python"] 3%Q [] None.

Definition degree_job : JobSchema.t :=
  job_of ["python"] ["Bachelor degree required"] None None.

(** A candidate with one education record. *)
Definition graduate : CandidateSchema.t :=
  candidate_of "c-5" ["python"] 3%Q
    [ {| EducationSchema.degree := "BSc";
         EducationSchema.institution := "Universidad Nacional";
         EducationSchema.field := Some "Computer Science";
         EducationSchema.start_year := None;
         EducationSchema.end_year := None |} ] None.


Definition newcomer : CandidateSchema.t := candidate_of "c-2" [] 0%Q [] None.
Definition senior : CandidateSchema.t := candidate_of "c-3" [] 7%Q [] None.
Definition five_years_job : JobSchema.t := job_of [] [] None (Some 5%Q).
Definition ten_years_job : JobSchema.t := job_of [] [] None (Some 10%Q).

(** The example of the spec: skills python, react and sql against a job
    that requires python, react and postgresql. *)
Definition web_developer : CandidateSchema.t :=
  candidate_of "c-4" ["python"; "react"; "sql"] 5%Q [] None.

Definition web_job : JobSchema.t :=
  job_of ["python"; "react"; "postgresql"] [] None (Some 5%Q).

Definition frontend_job : JobSchema.t :=
  job_of ["python"; "react"] [] None None.

(** The batch of the spec's example: the first and the third candidate
    tie, the second scores lower. *)
Definition tied_batch : list CandidateSchema.t :=
  [ candidate_of "c-a" ["python"] 5%Q [] None;
    candidate_of "c-b" [] 5%Q [] None;
    candidate_of "c-c" ["python"] 1%Q [] None ].

Definition python_job : JobSchema.t := job_of ["python"] [] None None.

(** [SKILLS_WEIGHT=0.60] in the environment: weights that sum to 1.2. *)
Definition heavy_settings : Config.Settings :=
  {| Config.SKILLS_WEIGHT := Py.float_lit (60 # 100);
     Config.EXPERIENCE_WEIGHT := Py.float_lit (25 # 100);
     Config.SEMANTIC_WEIGHT := Py.float_lit (25 # 100);
     Config.EDUCATION_WEIGHT := Py.float_lit (10 # 100);
     Config.MIN_MATCH_SCORE := Py.float_lit (30 # 100);
     Config.GOOD_MATCH_SCORE := Py.float_lit (60 # 100);
     Config.EXCELLENT_MATCH_SCORE := Py.float_lit (80 # 100) |}.

(** Two settings at the edge of the tolerance.  The decimal weights of
    both sum to 0.99; the additions of their doubles give
    0.99 and 0.9900000000000001. *)
Definition edge_settings_rejected : Config.Settings :=
  {| Config.SKILLS_WEIGHT := Py.float_lit (40 # 100);
     Config.EXPERIENCE_WEIGHT := Py.float_lit (25 # 100);
     Config.SEMANTIC_WEIGHT := Py.float_lit (25 # 100);
     Config.EDUCATION_WEIGHT := Py.float_lit (9 # 100);
     Config.MIN_MATCH_SCORE := Py.float_lit (30 # 100);
     Config.GOOD_MATCH_SCORE := Py.float_lit (60 # 100);
     Config.EXCELLENT_MATCH_SCORE := Py.float_lit (80 # 100) |}.

Definition edge_settings_accepted : Config.Settings :=
  {| Config.SKILLS_WEIGHT := Py.float_lit (13 # 100);
     Config.EXPERIENCE_WEIGHT := Py.float_lit (46 # 100);
     Config.SEMANTIC_WEIGHT := Py.float_lit (25 # 100);
     Config.EDUCATION_WEIGHT := Py.float_lit (15 # 100);
     Config.MIN_MATCH_SCORE := Py.float_lit (30 # 100);
     Config.GOOD_MATCH_SCORE := Py.float_lit (60 # 100);
     Config.EXCELLENT_MATCH_SCORE := Py.float_lit (80 # 100) |}.

(** ** Further built-ins *)

Module PyStr.

(** [s.split(sep)] for a one-character separator, as its first piece and
    the pieces after it: the result of [split] is never empty. *)
Fixpoint split_pieces (sep : ascii) (s : string) : string * list string :=
  match s with
  | EmptyString => (EmptyString, [])
  | String c t =>
      let '(piece, pieces) := split_pieces sep t in
      if Ascii.eqb c sep then (EmptyString, piece :: pieces)
      else (String c piece, pieces)
  end.

Definition split (sep : ascii) (s : string) : list string :=
  let '(piece, pieces) := split_pieces sep s in piece :: pieces.

Definition is_upper (c : ascii) : bool :=
  let n := nat_of_ascii c in (65 <=? n)%nat && (n <=? 90)%nat.

Definition is_lower (c : ascii) : bool :=
  let n := nat_of_ascii c in (97 <=? n)%nat && (n <=? 122)%nat.

Definition is_cased (c : ascii) : bool := is_upper c || is_lower c.

Definition upper_char (c : ascii) : ascii :=
  if is_lower c then ascii_of_nat (nat_of_ascii c - 32) else c.

(** [s.title()]: a letter that follows a letter is lower-cased, any other
    letter is upper-cased, other characters are kept. *)
Fixpoint title_from (previous_is_cased : bool) (s : string) : string :=
  match s with
  | EmptyString => EmptyString
  | String c t =>
      String (if is_cased c
              then if previous_is_cased then Py.lower_char c else upper_char c
              else c)
             (title_from (is_cased c) t)
  end.

Definition title (s : string) : string := title_from false s.

(** [xs[:k]]: a negative [k] counts from the end. *)
Definition slice_to {A} (k : Z) (xs : list A) : list A :=
  if (0 <=? k)%Z then take (Z.to_nat k) xs
  else take (length xs - Z.to_nat (- k)) xs.

(** [c in s] for a character. *)
Fixpoint has_char (c : ascii) (s : string) : bool :=
  match s with
  | EmptyString => false
  | String d t => Ascii.eqb d c || has_char c t
  end.

(** [s.count(c)] for a character. *)
Fixpoint count_char (c : ascii) (s : string) : nat :=
  match s with
  | EmptyString => 0
  | String d t => (if Ascii.eqb d c then 1 else 0) + count_char c t
  end.

End PyStr.

(** ** The rest of app/schemas/matching.py *)

Definition to_camel (s : string) : string :=
  let '(first, rest) := PyStr.split_pieces "_" s in
  first +:+ String.concat "" (map PyStr.title rest).

(** The validator [normalize_skills] of [CandidateSchema] and [JobSchema]
    on a list of strings: [skill.strip().lower()]. *)
Definition normalize_skills (v : list string) : list string :=
  map (fun skill => Py.lower (Py.strip skill)) v.

Module SingleMatchRequest.
Record t : Type := {
  candidate : CandidateSchema.t;
  job : JobSchema.t
}.
End SingleMatchRequest.

Module BatchMatchRequest.
Record t : Type := {
  candidates : list CandidateSchema.t;
  job : JobSchema.t
}.

Definition validate_candidates (v : list CandidateSchema.t)
    : res (list CandidateSchema.t) :=
  let ids := map CandidateSchema.id v in
  if negb (length ids =? size (list_to_set ids : gset string))%nat
  then Raise (ValueError "Candidate IDs must be unique")
  else Ok v.

(** The constructor: [min_length=1] on the list, then the validator, whose
    [ValueError] pydantic reports as a [ValidationError]. *)
Definition new (candidates : list CandidateSchema.t) (job : JobSchema.t) : res t :=
  if (1 <=? length candidates)%nat then
    match validate_candidates candidates with
    | Ok v => Ok {| candidates := v; job := job |}
    | Raise _ => Raise (ValidationError "BatchMatchRequest")
    end
  else Raise (ValidationError "BatchMatchRequest").
End BatchMatchRequest.

Module BatchMatchResponse.
Record t : Type := {
  job_id : string;
  job_title : string;
  total_candidates : nat;
  matches : list RankedMatchResult.t;
  average_score : float;
  top_skills_matched : list string
}.

Definition new (jid jtitle : string) (total : nat)
    (ms : list RankedMatchResult.t) (average : float) (top : list string)
    : res t :=
  if in_unit average
  then Ok {| job_id := jid; job_title := jtitle; total_candidates := total;
             matches := ms; average_score := average;
             top_skills_matched := top |}
  else Raise (ValidationError "BatchMatchResponse").
End BatchMatchResponse.

Module ExplainMatchRequest.
Record t : Type := {
  candidate : CandidateSchema.t;
  job : JobSchema.t;
  include_suggestions : bool
}.
End ExplainMatchRequest.

Module ExplainMatchResponse.
Record t : Type := {
  candidate_id : string;
  job_id : string;
  compatibility_score : float;
  match_percentage : Z;
  breakdown : MatchBreakdown.t;
  detailed_analysis : list (string * string);
  strengths : list string;
  weaknesses : list string;
  suggestions : list string;
  decision_recommendation : string
}.
End ExplainMatchResponse.

(** ** The rest of app/core/config.py *)

(** The property [cors_origins_list], as a function of the field
    [CORS_ORIGINS]. *)
Definition cors_origins_list (CORS_ORIGINS : string) : list string :=
  map Py.strip (PyStr.split "," CORS_ORIGINS).

Definition default_CORS_ORIGINS : string :=
  "http://localhost:3000,http://localhost:8080,http://localhost:5173".

(** ** The rest of app/services/ai_matcher.py *)

Definition calculate_batch_similarity (cos_sim : string -> string -> float)
    (text : string) (texts : list string) : Eng (list float) :=
  if negb (Py.nonempty texts) then mret []
  else
    _ ← emit (Encode [text]);
    _ ← emit (Encode texts);
    mret (map (fun other => Py.max 0 (Py.min 1 (cos_sim text other))) texts).

Definition extract_key_phrases (text : string) (top_k : Z) : list string :=
  let sentences := PyStr.split "." text in
  let phrases := List.filter Py.nonempty_str (map Py.strip sentences) in
  PyStr.slice_to top_k phrases.

(** ** app/api/routes/matching.py *)

(** What a route hands to the framework: the body of the response, or an
    [HTTPException]. *)
Inductive http (A : Type) : Type :=
| Response (body : A)
| HTTPException (status_code : Z) (detail : string).
Arguments Response {A} body.
Arguments HTTPException {A} status_code detail.

Section Routes.

Variable cos_sim : string -> string -> float.
Variable float_str : float -> string.

(** [str(e)] of an exception and the [:.0f] format of a float. *)
Variable error_str : error -> string.
Variable fixed0_str : float -> string.

(** The settings object of the engine that [get_matching_engine] returns. *)
Variable settings : gmap string float.

Definition match_single_candidate (request : SingleMatchRequest.t)
    : list event * http SingleMatchResponse.t :=
  match match_single cos_sim float_str settings
          (SingleMatchRequest.candidate request) (SingleMatchRequest.job request)
  with
  | (log, Ok result) => (log, Response result)
  | (log, Raise e) =>
      (log, HTTPException 500 ("Error processing match: " +:+ error_str e))
  end.

Definition match_batch_candidates (request : BatchMatchRequest.t)
    : list event * http BatchMatchResponse.t :=
  let candidates := BatchMatchRequest.candidates request in
  let job := BatchMatchRequest.job request in
  if (100 <? length candidates)%nat
  then ([], HTTPException 400 "Maximum 100 candidates per batch request")
  else
    match match_batch cos_sim float_str settings candidates job with
    | (log, Ok (ranked_results, avg_score, top_skills)) =>
        match BatchMatchResponse.new (JobSchema.id job) (JobSchema.title job)
                (length candidates) ranked_results avg_score top_skills
        with
        | Ok response => (log, Response response)
        | Raise e =>
            (log, HTTPException 500
                    ("Error processing batch match: " +:+ error_str e))
        end
    | (log, Raise e) =>
        (log, HTTPException 500
                ("Error processing batch match: " +:+ error_str e))
    end.

Definition percent_str (x : float) : string := fixed0_str (Py.fmul x 100) +:+ "%".

Definition explain_strengths (match_result : SingleMatchResponse.t) : list string :=
  let breakdown := SingleMatchResponse.breakdown match_result in
  let matched := SingleMatchResponse.matched_skills match_result in
  let strengths :=
    (if Py.leb (7 # 10) (MatchBreakdown.skills_match breakdown)
     then [ "Excelente match de habilidades técnicas" ] else []) ++
    (if Py.leb (8 # 10) (MatchBreakdown.experience_match breakdown)
     then [ "Experiencia superior a los requisitos" ] else []) ++
    (if Py.leb (7 # 10) (MatchBreakdown.semantic_match breakdown)
     then [ "Alto alineamiento con la descripción del puesto" ] else []) ++
    (if (5 <? length matched)%nat
     then [ "Domina " +:+ pretty (length matched) +:+ " habilidades relevantes" ]
     else []) in
  if Py.nonempty strengths then strengths
  else [ "Perfil básico adecuado para evaluación" ].

Definition explain_weaknesses (match_result : SingleMatchResponse.t) : list string :=
  let breakdown := SingleMatchResponse.breakdown match_result in
  let missing := SingleMatchResponse.missing_skills match_result in
  let weaknesses :=
    (if Py.ltb (MatchBreakdown.skills_match breakdown) (5 # 10)
     then [ "Falta de habilidades técnicas clave" ] else []) ++
    (if Py.ltb (MatchBreakdown.experience_match breakdown) (6 # 10)
     then [ "Experiencia por debajo de los requisitos" ] else []) ++
    (if (5 <? length missing)%nat
     then [ "Le faltan " +:+ pretty (length missing) +:+ " habilidades requeridas" ]
     else []) ++
    (if Py.ltb (MatchBreakdown.education_match breakdown) (5 # 10)
     then [ "Formación académica no alineada con requisitos" ] else []) in
  if Py.nonempty weaknesses then weaknesses
  else [ "No se identificaron debilidades significativas" ].

Definition explain_decision (match_quality : string) : string :=
  if String.eqb match_quality "excellent"
  then "RECOMENDADO FUERTEMENTE - Agendar entrevista con prioridad alta"
  else if String.eqb match_quality "good"
  then "RECOMENDADO - Agendar entrevista"
  else if String.eqb match_quality "medium"
  then "CONSIDERAR - Evaluación adicional recomendada"
  else "NO RECOMENDADO - No cumple requisitos mínimos".

Definition explain_analysis (request : ExplainMatchRequest.t)
    (match_result : SingleMatchResponse.t) : list (string * string) :=
  let breakdown := SingleMatchResponse.breakdown match_result in
  let candidate := ExplainMatchRequest.candidate request in
  [ ("skills",
     "Coincidencia de habilidades: "
     +:+ percent_str (MatchBreakdown.skills_match breakdown) +:+ ". "
     +:+ "Habilidades coincidentes: "
     +:+ pretty (length (SingleMatchResponse.matched_skills match_result)) +:+ ". "
     +:+ "Habilidades faltantes: "
     +:+ pretty (length (SingleMatchResponse.missing_skills match_result)) +:+ ".");
    ("experience",
     "Coincidencia de experiencia: "
     +:+ percent_str (MatchBreakdown.experience_match breakdown) +:+ ". "
     +:+ "El candidato tiene "
     +:+ float_str (CandidateSchema.experience_years candidate)
     +:+ " años de experiencia.");
    ("education",
     "Coincidencia educativa: "
     +:+ percent_str (MatchBreakdown.education_match breakdown) +:+ ". "
     +:+ "Educación registrada: "
     +:+ pretty (length (CandidateSchema.education candidate)) +:+ " registros.");
    ("semantic",
     "Similitud semántica: "
     +:+ percent_str (MatchBreakdown.semantic_match breakdown) +:+ ". "
     +:+ "Análisis de compatibilidad entre el perfil del candidato y la descripción del trabajo.") ].

Definition explain_match (request : ExplainMatchRequest.t)
    : list event * http ExplainMatchResponse.t :=
  match match_single cos_sim float_str settings
          (ExplainMatchRequest.candidate request) (ExplainMatchRequest.job request)
  with
  | (log, Ok match_result) =>
      let suggestions :=
        if ExplainMatchRequest.include_suggestions request
        then SingleMatchResponse.recommendations match_result else [] in
      (log, Response
         {| ExplainMatchResponse.candidate_id :=
              CandidateSchema.id (ExplainMatchRequest.candidate request);
            ExplainMatchResponse.job_id :=
              JobSchema.id (ExplainMatchRequest.job request);
            ExplainMatchResponse.compatibility_score :=
              SingleMatchResponse.compatibility_score match_result;
            ExplainMatchResponse.match_percentage :=
              SingleMatchResponse.match_percentage match_result;
            ExplainMatchResponse.breakdown :=
              SingleMatchResponse.breakdown match_result;
            ExplainMatchResponse.detailed_analysis :=
              explain_analysis request match_result;
            ExplainMatchResponse.strengths := explain_strengths match_result;
            ExplainMatchResponse.weaknesses := explain_weaknesses match_result;
            ExplainMatchResponse.suggestions := suggestions;
            ExplainMatchResponse.decision_recommendation :=
              explain_decision (SingleMatchResponse.match_quality match_result) |})
  | (log, Raise e) =>
      (log, HTTPException 500 ("Error generating explanation: " +:+ error_str e))
  end.

End Routes.

(** ** Vocabulary of the further statements *)

(** The position of a quality tier, from "low" to "excellent". *)
Definition tier_rank (tier : string) : nat :=
  if String.eqb tier "excellent" then 3
  else if String.eqb tier "good" then 2
  else if String.eqb tier "medium" then 1
  else 0.

(** The number of times [skill] occurs in [skills]. *)
Definition occurrences (skill : string) (skills : list string) : nat :=
  length (List.filter (String.eqb skill) skills).


(** The count that a dictionary of counts holds for [skill]. *)
Fixpoint count_of (skill : string) (d : list (string * Z)) : option Z :=
  match d with
  | [] => None
  | (k, n) :: d' => if String.eqb skill k then Some n else count_of skill d'
  end.

(** All matched skills of a list of single matches, in order. *)
Definition all_matched (ms : list SingleMatchResponse.t) : list string :=
  concat (map SingleMatchResponse.matched_skills ms).

(** * Properties *)

(** ** Comparisons, [min] and [max] *)

Lemma leb_true (a b : float) : Py.leb a b = true <-> (a <= b)%Q.
Proof. unfold Py.leb. apply Qle_bool_iff. Qed.

Lemma leb_false (a b : float) : Py.leb a b = false <-> (b < a)%Q.
Proof.
  unfold Py.leb. split; intros H.
  - apply Qnot_le_lt. intros Hle. apply Qle_bool_iff in Hle. congruence.
  - destruct (Qle_bool a b) eqn:E; [|reflexivity].
    apply Qle_bool_iff in E. exfalso. apply (Qlt_not_le _ _ H E).
Qed.

Lemma ltb_true (a b : float) : Py.ltb a b = true <-> (a < b)%Q.
Proof.
  unfold Py.ltb. rewrite negb_true_iff. apply (leb_false b a).
Qed.

Lemma ltb_false (a b : float) : Py.ltb a b = false <-> (b <= a)%Q.
Proof.
  unfold Py.ltb. rewrite negb_false_iff. apply (leb_true b a).
Qed.

Lemma eqb_true (a b : float) : Py.eqb a b = true <-> (a == b)%Q.
Proof. unfold Py.eqb. apply Qeq_bool_iff. Qed.

Lemma eqb_false (a b : float) : Py.eqb a b = false <-> ~ (a == b)%Q.
Proof.
  unfold Py.eqb. split; intros H.
  - intros E. apply Qeq_bool_iff in E. congruence.
  - destruct (Qeq_bool a b) eqn:E; [|reflexivity].
    apply Qeq_bool_iff in E. contradiction.
Qed.

(** Turns every comparison in sight into the order fact it decides. *)
Ltac cmp_cases :=
  repeat match goal with
  | |- context [Py.ltb ?a ?b] =>
      let E := fresh "E" in
      destruct (Py.ltb a b) eqn:E;
      [apply ltb_true in E | apply ltb_false in E]
  | |- context [Py.leb ?a ?b] =>
      let E := fresh "E" in
      destruct (Py.leb a b) eqn:E;
      [apply leb_true in E | apply leb_false in E]
  | |- context [Py.eqb ?a ?b] =>
      let E := fresh "E" in
      destruct (Py.eqb a b) eqn:E;
      [apply eqb_true in E | apply eqb_false in E]
  end.

Lemma min_spec (a b : float) :
  ((b < a)%Q /\ Py.min a b = b) \/ ((a <= b)%Q /\ Py.min a b = a).
Proof. unfold Py.min. cmp_cases; auto. Qed.

Lemma max_spec (a b : float) :
  ((a < b)%Q /\ Py.max a b = b) \/ ((b <= a)%Q /\ Py.max a b = a).
Proof. unfold Py.max. cmp_cases; auto. Qed.

Lemma min_le_l (a b : float) : (Py.min a b <= a)%Q.
Proof. destruct (min_spec a b) as [[H ->]|[H ->]]; lra. Qed.

Lemma min_le_r (a b : float) : (Py.min a b <= b)%Q.
Proof. destruct (min_spec a b) as [[H ->]|[H ->]]; lra. Qed.

Lemma min_glb (a b c : float) : (c <= a)%Q -> (c <= b)%Q -> (c <= Py.min a b)%Q.
Proof. intros. destruct (min_spec a b) as [[H' ->]|[H' ->]]; lra. Qed.

Lemma max_ge_l (a b : float) : (a <= Py.max a b)%Q.
Proof. destruct (max_spec a b) as [[H ->]|[H ->]]; lra. Qed.

Lemma max_lub (a b c : float) : (a <= c)%Q -> (b <= c)%Q -> (Py.max a b <= c)%Q.
Proof. intros. destruct (max_spec a b) as [[H' ->]|[H' ->]]; lra. Qed.

Lemma in_unit_true (x : float) : in_unit x = true <-> (0 <= x <= 1)%Q.
Proof.
  unfold in_unit. rewrite andb_true_iff, !leb_true. tauto.
Qed.

(** ** Double precision *)

Section Doubles.
Local Open Scope Q_scope.

Lemma rne_cases (q : Q) : Py.rne q = Qfloor q \/ Py.rne q = (Qfloor q + 1)%Z.
Proof.
  unfold Py.rne. destruct (Qcompare _ _); [|auto|auto].
  destruct (Z.even _); auto.
Qed.

Lemma rne_half (q : Q) : Qabs (inject_Z (Py.rne q) - q) <= 1 # 2.
Proof.
  pose proof (Qfloor_le q) as Hl. pose proof (Qlt_floor q) as Hu.
  rewrite inject_Z_plus in Hu. change (inject_Z 1) with 1 in Hu.
  unfold Py.rne.
  destruct (Qcompare (q - inject_Z (Qfloor q)) (1 # 2)) eqn:E.
  - apply Qeq_alt in E.
    destruct (Z.even (Qfloor q)); [|rewrite inject_Z_plus; change (inject_Z 1) with 1];
      apply Qabs_Qle_condition; split; lra.
  - apply Qlt_alt in E. apply Qabs_Qle_condition; split; lra.
  - apply Qgt_alt in E. rewrite inject_Z_plus. change (inject_Z 1) with 1.
    apply Qabs_Qle_condition; split; lra.
Qed.

Lemma rne_le_Z (q : Q) (k : Z) : q <= inject_Z k -> (Py.rne q <= k)%Z.
Proof.
  intros H. pose proof (Qfloor_le q) as Hl.
  assert (Hf : (Qfloor q <= k)%Z).
  { rewrite Zle_Qle. lra. }
  destruct (Z.eq_dec (Qfloor q) k) as [Heq|Hne].
  - unfold Py.rne. rewrite Heq in *.
    destruct (Qcompare (q - inject_Z k) (1 # 2)) eqn:E.
    + apply Qeq_alt in E. lra.
    + lia.
    + apply Qgt_alt in E. lra.
  - destruct (rne_cases q) as [-> | ->]; lia.
Qed.

Lemma rne_ge_Z (q : Q) (k : Z) : inject_Z k <= q -> (k <= Py.rne q)%Z.
Proof.
  intros H. apply Qfloor_resp_le in H. rewrite Qfloor_Z in H.
  destruct (rne_cases q) as [-> | ->]; lia.
Qed.

Lemma pow2_pos (e : Z) : 0 < Py.pow2 e.
Proof. apply Qpower_0_lt. reflexivity. Qed.

Lemma pow2_plus (a b : Z) : Py.pow2 (a + b) == Py.pow2 a * Py.pow2 b.
Proof. apply Qpower_plus. discriminate. Qed.

Lemma pow2_le (a b : Z) : (a <= b)%Z -> Py.pow2 a <= Py.pow2 b.
Proof. intros H. apply Qpower_le_compat_l; [exact H | discriminate]. Qed.

Lemma pow2_lt_inv (a b : Z) : Py.pow2 a < Py.pow2 b -> (a < b)%Z.
Proof. intros H. eapply Qpower_lt_compat_l_inv; [exact H | reflexivity]. Qed.

Lemma pow2_Z (n : Z) : (0 <= n)%Z -> Py.pow2 n == inject_Z (2 ^ n).
Proof. intros H. unfold Py.pow2. rewrite Zpower_Qpower by exact H. reflexivity. Qed.

Lemma Qabs_num (q : Q) : Qabs q == inject_Z (Z.abs (Qnum q)) / inject_Z (Zpos (Qden q)).
Proof.
  destruct q as [n d]. cbn [Qnum Qden Qabs].
  unfold Qeq, Qdiv, Qmult, Qinv, inject_Z. cbn. lia.
Qed.

(** [Py.ilog2] is the exponent of the leading bit. *)
Lemma ilog2_spec (q : Q) :
  ~ q == 0 -> Py.pow2 (Py.ilog2 q) <= Qabs q /\ Qabs q < Py.pow2 (Py.ilog2 q + 1).
Proof.
  intros Hq. unfold Py.ilog2.
  set (n := Z.abs (Qnum q)). set (d := Zpos (Qden q)).
  assert (Hn : (0 < n)%Z).
  { unfold n. destruct q as [[|p|p] dd]; cbn; try lia.
    exfalso. apply Hq. reflexivity. }
  assert (Hd : (0 < d)%Z) by (unfold d; lia).
  pose proof (Z.log2_spec n Hn) as [Hn1 Hn2].
  pose proof (Z.log2_spec d Hd) as [Hd1 Hd2].
  pose proof (Z.log2_nonneg n) as Hln. pose proof (Z.log2_nonneg d) as Hld.
  set (a := Z.log2 n) in *. set (b := Z.log2 d) in *.
  assert (Ha : Py.pow2 a <= inject_Z n).
  { rewrite pow2_Z by exact Hln. rewrite <- Zle_Qle. exact Hn1. }
  assert (Ha' : inject_Z n < Py.pow2 (a + 1)).
  { rewrite pow2_Z by lia. rewrite <- Zlt_Qlt. unfold Z.succ in Hn2. exact Hn2. }
  assert (Hb : Py.pow2 b <= inject_Z d).
  { rewrite pow2_Z by exact Hld. rewrite <- Zle_Qle. exact Hd1. }
  assert (Hb' : inject_Z d < Py.pow2 (b + 1)).
  { rewrite pow2_Z by lia. rewrite <- Zlt_Qlt. unfold Z.succ in Hd2. exact Hd2. }
  assert (Hdq : 0 < inject_Z d) by (change 0 with (inject_Z 0); rewrite <- Zlt_Qlt; exact Hd).
  assert (Habs : Qabs q * inject_Z d == inject_Z n).
  { rewrite Qabs_num. fold n d. field. lra. }
  pose proof (pow2_pos (a - b)) as Hp1. pose proof (pow2_pos b) as Hp2.
  pose proof (pow2_pos (a - b - 1)) as Hp3.
  assert (E1 : Py.pow2 a == Py.pow2 (a - b) * Py.pow2 b).
  { rewrite <- pow2_plus. replace (a - b + b)%Z with a by lia. reflexivity. }
  assert (E2 : Py.pow2 (a + 1) == Py.pow2 (a - b + 1) * Py.pow2 b).
  { rewrite <- pow2_plus. replace (a - b + 1 + b)%Z with (a + 1)%Z by lia. reflexivity. }
  assert (E3 : Py.pow2 a == Py.pow2 (a - b - 1) * Py.pow2 (b + 1)).
  { rewrite <- pow2_plus. replace (a - b - 1 + (b + 1))%Z with a by lia. reflexivity. }
  pose proof (Qabs_nonneg q) as Hq0.
  destruct (Qle_bool (Py.pow2 (a - b)) (Qabs q)) eqn:E.
  - apply Qle_bool_iff in E. split; [exact E|].
    (* |q| * d = n < 2^(a+1) = 2^(a-b+1) * 2^b <= 2^(a-b+1) * d *)
    pose proof (pow2_pos (a - b + 1)) as Hp4.
    apply Qnot_le_lt. intros Hc.
    assert (Py.pow2 (a - b + 1) * Py.pow2 b <= Qabs q * inject_Z d) by nra.
    lra.
  - assert (E' : Qabs q < Py.pow2 (a - b)).
    { apply Qnot_le_lt. intros Hc. apply Qle_bool_iff in Hc. congruence. }
    replace (a - b - 1 + 1)%Z with (a - b)%Z by lia.
    split; [|exact E'].
    apply Qnot_lt_le. intros Hc.
    assert (Qabs q * inject_Z d < Py.pow2 (a - b - 1) * Py.pow2 (b + 1)) by nra.
    lra.
Qed.

Lemma ilog2_lt (q : Q) (t : Z) : ~ q == 0 -> Qabs q < Py.pow2 t -> (Py.ilog2 q < t)%Z.
Proof.
  intros Hq Ht. destruct (ilog2_spec q Hq) as [H1 _].
  apply pow2_lt_inv. lra.
Qed.

Lemma round64_0 (q : Q) : q == 0 -> Py.round64 q = 0.
Proof. intros H. unfold Py.round64. apply Qeq_bool_iff in H. rewrite H. reflexivity. Qed.

Lemma round64_unfold (q : Q) :
  ~ q == 0 ->
  Py.round64 q == inject_Z (Py.rne (q / Py.pow2 (Py.ulp_exponent q))) * Py.pow2 (Py.ulp_exponent q).
Proof.
  intros H. unfold Py.round64.
  destruct (Qeq_bool q 0) eqn:E; [apply Qeq_bool_iff in E; contradiction|].
  apply Qred_correct.
Qed.

(** The rounding error is at most half a unit in the last place. *)
Lemma round64_error (q : Q) :
  ~ q == 0 -> Qabs (Py.round64 q - q) <= Py.pow2 (Py.ulp_exponent q - 1).
Proof.
  intros Hq. rewrite (round64_unfold q Hq).
  set (e := Py.ulp_exponent q). pose proof (pow2_pos e) as He.
  pose proof (rne_half (q / Py.pow2 e)) as Hr.
  assert (E : Py.pow2 e == Py.pow2 (e - 1) * 2).
  { change 2 with (Py.pow2 1). rewrite <- pow2_plus.
    replace (e - 1 + 1)%Z with e by lia. reflexivity. }
  pose proof (pow2_pos (e - 1)) as He1.
  set (m := inject_Z (Py.rne (q / Py.pow2 e))) in *.
  apply Qabs_Qle_condition in Hr as [Hr1 Hr2].
  assert (Hqe : q == q / Py.pow2 e * Py.pow2 e) by (field; lra).
  set (x := q / Py.pow2 e) in *.
  apply Qabs_Qle_condition. split; nra.
Qed.

Lemma ulp_exponent_le (q : Q) (t : Z) :
  ~ q == 0 -> Qabs q < Py.pow2 t -> (-1021 <= t)%Z -> (Py.ulp_exponent q <= t - 53)%Z.
Proof.
  intros Hq Ht Hmin. pose proof (ilog2_lt q t Hq Ht). unfold Py.ulp_exponent. lia.
Qed.

Lemma round64_error_below (q : Q) (t : Z) :
  Qabs q < Py.pow2 t -> (-1021 <= t)%Z -> Qabs (Py.round64 q - q) <= Py.pow2 (t - 54).
Proof.
  intros Ht Hmin. destruct (Qeq_dec q 0) as [Hz|Hq].
  - rewrite (round64_0 q Hz). rewrite Hz.
    pose proof (pow2_pos (t - 54)). change (Qabs (0 - 0)) with 0. lra.
  - eapply Qle_trans; [apply round64_error; exact Hq|].
    apply pow2_le. pose proof (ulp_exponent_le q t Hq Ht Hmin). lia.
Qed.

(** Rounding does not cross an integer that is itself a double. *)
Lemma round64_le_Z (q : Q) (k : Z) (t : Z) :
  Qabs q < Py.pow2 t -> (-1021 <= t <= 53)%Z ->
  q <= inject_Z k -> Py.round64 q <= inject_Z k.
Proof.
  intros Ht Hrange Hk. destruct (Qeq_dec q 0) as [Hz|Hq].
  - rewrite (round64_0 q Hz). lra.
  - rewrite (round64_unfold q Hq).
    pose proof (ulp_exponent_le q t Hq Ht ltac:(lia)) as He.
    set (e := Py.ulp_exponent q) in *. pose proof (pow2_pos e) as Hp.
    assert (E : Py.pow2 e * inject_Z (2 ^ (- e)) == 1).
    { rewrite <- pow2_Z by lia. rewrite <- pow2_plus.
      replace (e + - e)%Z with 0%Z by lia. reflexivity. }
    assert (Hle : (Py.rne (q / Py.pow2 e) <= k * 2 ^ (- e))%Z).
    { apply rne_le_Z. rewrite inject_Z_mult.
      apply Qle_shift_div_r; [exact Hp|].
      set (w := inject_Z (2 ^ (- e))) in *. nra. }
    rewrite Zle_Qle, inject_Z_mult in Hle.
    set (w := inject_Z (2 ^ (- e))) in *.
    set (m := inject_Z (Py.rne (q / Py.pow2 e))) in *. nra.
Qed.

Lemma round64_ge_Z (q : Q) (k : Z) (t : Z) :
  Qabs q < Py.pow2 t -> (-1021 <= t <= 53)%Z ->
  inject_Z k <= q -> inject_Z k <= Py.round64 q.
Proof.
  intros Ht Hrange Hk. destruct (Qeq_dec q 0) as [Hz|Hq].
  - rewrite (round64_0 q Hz). lra.
  - rewrite (round64_unfold q Hq).
    pose proof (ulp_exponent_le q t Hq Ht ltac:(lia)) as He.
    set (e := Py.ulp_exponent q) in *. pose proof (pow2_pos e) as Hp.
    assert (E : Py.pow2 e * inject_Z (2 ^ (- e)) == 1).
    { rewrite <- pow2_Z by lia. rewrite <- pow2_plus.
      replace (e + - e)%Z with 0%Z by lia. reflexivity. }
    assert (Hle : (k * 2 ^ (- e) <= Py.rne (q / Py.pow2 e))%Z).
    { apply rne_ge_Z. rewrite inject_Z_mult.
      apply Qle_shift_div_l; [exact Hp|].
      set (w := inject_Z (2 ^ (- e))) in *. nra. }
    rewrite Zle_Qle, inject_Z_mult in Hle.
    set (w := inject_Z (2 ^ (- e))) in *.
    set (m := inject_Z (Py.rne (q / Py.pow2 e))) in *. nra.
Qed.

End Doubles.

(** ** The monads *)

Lemma res_bind_Ok {A B} (m : res A) (f : A -> res B) (b : B) :
  m ≫= f = Ok b -> exists a, m = Ok a /\ f a = Ok b.
Proof. destruct m as [a|e]; simpl; [eauto | discriminate]. Qed.

Lemma Eng_bind_Ok {A B} (m : Eng A) (f : A -> Eng B) (l : list event) (b : B) :
  m ≫= f = (l, Ok b) ->
  exists l1 a l2, m = (l1, Ok a) /\ f a = (l2, Ok b) /\ l = l1 ++ l2.
Proof.
  destruct m as [l1 [a|e]]; simpl; [|discriminate].
  destruct (f a) as [l2 r] eqn:E. intros [= <- ->]. eauto 6.
Qed.

Lemma lift_Ok {A} (r : res A) (l : list event) (a : A) :
  lift r = (l, Ok a) -> r = Ok a /\ l = [].
Proof. unfold lift. intros [= <- ->]. auto. Qed.

Lemma Eng_ret_Ok {A} (x : A) (l : list event) (a : A) :
  (mret x : Eng A) = (l, Ok a) -> x = a /\ l = [].
Proof. intros [= <- ->]. auto. Qed.

Lemma Eng_bind_run {A B} (m : Eng A) (f : A -> Eng B) (l1 l2 : list event)
    (a : A) (r : res B) :
  m = (l1, Ok a) -> f a = (l2, r) -> m ≫= f = (l1 ++ l2, r).
Proof. intros -> H. simpl. rewrite H. reflexivity. Qed.

Lemma lift_bind_run {A B} (x : res A) (f : A -> Eng B) (a : A) (y : Eng B) :
  x = Ok a -> f a = y -> lift x ≫= f = y.
Proof. intros -> <-. simpl. destruct (f a). reflexivity. Qed.

(** Splits a successful run of a sequence of steps into its steps. *)
Ltac eng_inv H :=
  repeat match type of H with
  | mbind _ _ = (_, Ok _) =>
      let l1 := fresh "l" in let a := fresh "a" in let l2 := fresh "l" in
      let H1 := fresh "Hstep" in let Hl := fresh "Hlog" in
      apply Eng_bind_Ok in H; destruct H as (l1 & a & l2 & H1 & H & Hl)
  end.

(** ** Quality tiers *)

(** A settings object that carries the three threshold attributes under
    the names the engine reads classifies a score by the tier rule. *)
Lemma determine_match_quality_tiers (settings : gmap string float)
    (excellent good minimum score : float) :
  settings !! "EXCELLENT_MATCH_THRESHOLD" = Some excellent ->
  settings !! "GOOD_MATCH_THRESHOLD" = Some good ->
  settings !! "MIN_MATCH_THRESHOLD" = Some minimum ->
  determine_match_quality settings score =
    Ok (if Py.leb excellent score then "excellent"
        else if Py.leb good score then "good"
        else if Py.leb minimum score then "medium"
        else "low").
Proof.
  intros He Hg Hm. unfold determine_match_quality, getattr.
  rewrite He. simpl. destruct (Py.leb excellent score); [reflexivity|].
  rewrite Hg. simpl. destruct (Py.leb good score); [reflexivity|].
  rewrite Hm. simpl. destruct (Py.leb minimum score); reflexivity.
Qed.

Lemma Settings_has_no_threshold (s : Config.Settings) :
  Config.attributes s !! "EXCELLENT_MATCH_THRESHOLD" = None.
Proof. reflexivity. Qed.

(** C1, as the code behaves: [Settings] declares its thresholds as
    [MIN_MATCH_SCORE], [GOOD_MATCH_SCORE] and [EXCELLENT_MATCH_SCORE], while
    [determine_match_quality] reads [EXCELLENT_MATCH_THRESHOLD] first.  On
    the attributes of any [Settings] instance the call raises
    [AttributeError] for every score, so no tier is returned. *)
Theorem determine_match_quality_on_Settings (s : Config.Settings) (score : float) :
  determine_match_quality (Config.attributes s) score =
    Raise (AttributeError "EXCELLENT_MATCH_THRESHOLD").
Proof.
  unfold determine_match_quality, getattr.
  rewrite Settings_has_no_threshold. reflexivity.
Qed.

(** ** Education *)

(** The first guard of [calculate_education_match] answers for every
    candidate without education records, so the later branch that returns
    0.3 for them is never reached. *)
Lemma education_empty_is_neutral (cos_sim : string -> string -> float)
    (candidate : CandidateSchema.t) (job : JobSchema.t) :
  CandidateSchema.education candidate = [] ->
  calculate_education_match cos_sim candidate job = ([], Ok (5 # 10)%Q).
Proof. intros H. unfold calculate_education_match. rewrite H. reflexivity. Qed.

(** C2, at the failing input: the job's requirement text contains the
    keyword "bachelor" and the candidate has no education records, and the
    education matcher answers 0.5, not 0.3. *)
Theorem education_requirement_without_education
    (cos_sim : string -> string -> float) :
  CandidateSchema.education no_education_candidate = [] /\
  Py.any_in edu_keywords
    (Py.lower (Py.join " " (JobSchema.requirements degree_job))) = true /\
  calculate_education_match cos_sim no_education_candidate degree_job
    = ([], Ok (5 # 10)%Q) /\
  ~ (5 # 10 == 3 # 10)%Q.
Proof.
  split; [reflexivity|]. split; [reflexivity|]. split.
  - apply education_empty_is_neutral. reflexivity.
  - intros H. discriminate H.
Qed.

(** ** Experience *)




(** ** Aggregation *)

Lemma getattr_Settings_weights (s : Config.Settings) :
  getattr (Config.attributes s) "SKILLS_WEIGHT" = Ok (Config.SKILLS_WEIGHT s) /\
  getattr (Config.attributes s) "EXPERIENCE_WEIGHT" = Ok (Config.EXPERIENCE_WEIGHT s) /\
  getattr (Config.attributes s) "EDUCATION_WEIGHT" = Ok (Config.EDUCATION_WEIGHT s) /\
  getattr (Config.attributes s) "SEMANTIC_WEIGHT" = Ok (Config.SEMANTIC_WEIGHT s).
Proof. repeat split; reflexivity. Qed.

(** C6: on the configured weights the aggregate is the weighted sum of the
    four sub-scores; with a location sub-score, [location * 0.05] is added
    and the total is cut at 1.0, so it never exceeds 1.0; without one the
    weighted sum is returned as it is. *)
Theorem calculate_overall_score_formula (s : Config.Settings)
    (breakdown : MatchBreakdown.t) :
  let weighted :=
    (MatchBreakdown.skills_match breakdown * Config.SKILLS_WEIGHT s +
     MatchBreakdown.experience_match breakdown * Config.EXPERIENCE_WEIGHT s +
     MatchBreakdown.education_match breakdown * Config.EDUCATION_WEIGHT s +
     MatchBreakdown.semantic_match breakdown * Config.SEMANTIC_WEIGHT s)%Q in
  match MatchBreakdown.location_match breakdown with
  | Some location =>
      calculate_overall_score (Config.attributes s) breakdown
        = Ok (Py.min 1 (weighted + location * (5 # 100)))%Q /\
      (Py.min 1 (weighted + location * (5 # 100)) <= 1)%Q
  | None =>
      calculate_overall_score (Config.attributes s) breakdown = Ok weighted
  end.
Proof.
  intros weighted. unfold calculate_overall_score.
  destruct (getattr_Settings_weights s) as (-> & -> & -> & ->). simpl.
  destruct (MatchBreakdown.location_match breakdown) as [location|].
  - split; [reflexivity | apply min_le_l].
  - reflexivity.
Qed.

(** ** Start-up check of the weights *)

(** Below 8 in size, a rounded value is within [2^-51] of the exact one. *)
Lemma round64_near (q : Q) :
  (Qabs q < 8)%Q ->
  (q - (1 # 2251799813685248) <= Py.round64 q <= q + (1 # 2251799813685248))%Q.
Proof.
  intros H. pose proof (round64_error_below q 3 H ltac:(lia)) as He.
  assert (E : (Py.pow2 (3 - 54) == 1 # 2251799813685248)%Q) by reflexivity.
  rewrite E in He. apply Qabs_Qle_condition in He. lra.
Qed.

Lemma hundredth_near :
  ((1 # 100) - (1 # 1000000000000000000) <= Py.float_lit (1 # 100)
   <= (1 # 100) + (1 # 1000000000000000000))%Q.
Proof. split; vm_compute; discriminate. Qed.

(** On weights between 0 and 1 the check of the code agrees with the
    exact comparison, except for sums whose distance from 1.0 is within
    [10^-14] of the tolerance. *)
Lemma validate_weights_margin (s : Config.Settings) :
  unit_range (Config.SKILLS_WEIGHT s) -> unit_range (Config.EXPERIENCE_WEIGHT s) ->
  unit_range (Config.SEMANTIC_WEIGHT s) -> unit_range (Config.EDUCATION_WEIGHT s) ->
  let exact := (Config.SKILLS_WEIGHT s + Config.EXPERIENCE_WEIGHT s
                + Config.SEMANTIC_WEIGHT s + Config.EDUCATION_WEIGHT s)%Q in
  ((Qabs (exact - 1) <= (1 # 100) - (1 # 100000000000000))%Q ->
   Config.validate_weights s = true) /\
  (((1 # 100) + (1 # 100000000000000) <= Qabs (exact - 1))%Q ->
   Config.validate_weights s = false).
Proof.
  intros [Ha0 Ha1] [Hb0 Hb1] [Hc0 Hc1] [Hd0 Hd1] exact.
  unfold Config.validate_weights, Config.weights_total, Py.fsub, Py.fadd.
  set (wa := Config.SKILLS_WEIGHT s) in *.
  set (wb := Config.EXPERIENCE_WEIGHT s) in *.
  set (wc := Config.SEMANTIC_WEIGHT s) in *.
  set (wd := Config.EDUCATION_WEIGHT s) in *.
  assert (H1 : (Qabs (wa + wb) < 8)%Q) by (apply Qabs_Qlt_condition; lra).
  apply round64_near in H1. set (x1 := Py.round64 (wa + wb)) in *.
  assert (H2 : (Qabs (x1 + wc) < 8)%Q) by (apply Qabs_Qlt_condition; lra).
  apply round64_near in H2. set (x2 := Py.round64 (x1 + wc)) in *.
  assert (H3 : (Qabs (x2 + wd) < 8)%Q) by (apply Qabs_Qlt_condition; lra).
  apply round64_near in H3. set (x3 := Py.round64 (x2 + wd)) in *.
  assert (H4 : (Qabs (x3 - 1) < 8)%Q) by (apply Qabs_Qlt_condition; lra).
  apply round64_near in H4. set (x4 := Py.round64 (x3 - 1)) in *.
  pose proof hundredth_near as Ht. set (tol := Py.float_lit (1 # 100)) in *.
  subst exact. split; intros H.
  - apply ltb_true. apply Qabs_Qle_condition in H.
    apply Qabs_Qlt_condition. lra.
  - apply ltb_false.
    destruct (Qlt_le_dec (wa + wb + wc + wd - 1) 0) as [Hneg|Hpos].
    + rewrite Qabs_neg in H by lra.
      pose proof (Qle_Qabs (- x4)) as Hn. rewrite Qabs_opp in Hn. lra.
    + rewrite Qabs_pos in H by lra.
      eapply Qle_trans; [|apply Qle_Qabs]. lra.
Qed.

(** C9: [validate_weights] accepts exactly the weights whose sum, formed
    and compared as the code does it on doubles, is less than 0.01 away
    from 1.0; for weights between 0 and 1 this is the comparison of the
    exact sum, up to [10^-14] at the edge of the tolerance.  Importing the
    configuration yields the settings when the check accepts and raises
    [ValueError] when it does not, and in that case a request never
    reaches the engine: it fails with that error before any call to the
    model. *)
Theorem validate_weights_at_startup (s : Config.Settings) :
  (Config.validate_weights s = true <->
   (Qabs (Py.fsub
            (Py.fadd (Py.fadd (Py.fadd (Config.SKILLS_WEIGHT s)
                                       (Config.EXPERIENCE_WEIGHT s))
                              (Config.SEMANTIC_WEIGHT s))
                     (Config.EDUCATION_WEIGHT s)) 1)
    < Py.float_lit (1 # 100))%Q) /\
  (unit_range (Config.SKILLS_WEIGHT s) /\ unit_range (Config.EXPERIENCE_WEIGHT s) /\
   unit_range (Config.SEMANTIC_WEIGHT s) /\ unit_range (Config.EDUCATION_WEIGHT s) ->
   ((Qabs (Config.SKILLS_WEIGHT s + Config.EXPERIENCE_WEIGHT s
           + Config.SEMANTIC_WEIGHT s + Config.EDUCATION_WEIGHT s - 1)
     <= (1 # 100) - (1 # 100000000000000))%Q ->
    Config.validate_weights s = true) /\
   (((1 # 100) + (1 # 100000000000000)
     <= Qabs (Config.SKILLS_WEIGHT s + Config.EXPERIENCE_WEIGHT s
              + Config.SEMANTIC_WEIGHT s + Config.EDUCATION_WEIGHT s - 1))%Q ->
    Config.validate_weights s = false)) /\
  (Config.validate_weights s = true -> Config.import_config s = Ok s) /\
  (Config.validate_weights s = false ->
   Config.import_config s = Raise (ValueError "Weights must sum to 1.0") /\
   forall cos_sim float_str get_settings candidate job,
     serve_single cos_sim float_str get_settings s candidate job
       = ([], Raise (ValueError "Weights must sum to 1.0"))).
Proof.
  split; [apply ltb_true|].
  split.
  { intros (Ha & Hb & Hc & Hd). exact (validate_weights_margin s Ha Hb Hc Hd). }
  unfold serve_single, Config.import_config.
  split; intros ->; simpl; auto.
Qed.

(** The default weights pass the check; with [SKILLS_WEIGHT=0.60] the
    weights sum to 1.2 and the process stops at the import of the
    configuration. *)
Lemma validate_weights_at_startup_witness :
  Config.import_config Config.defaults = Ok Config.defaults /\
  Config.import_config heavy_settings
    = Raise (ValueError "Weights must sum to 1.0") /\
  forall cos_sim float_str get_settings candidate job,
    serve_single cos_sim float_str get_settings heavy_settings candidate job
      = ([], Raise (ValueError "Weights must sum to 1.0")).
Proof.
  split.
  - apply (proj1 (proj2 (proj2 (validate_weights_at_startup Config.defaults)))).
    vm_compute. reflexivity.
  - apply (proj2 (proj2 (proj2 (validate_weights_at_startup heavy_settings)))).
    vm_compute. reflexivity.
Defined.

(** At the edge of the tolerance the rounding of the additions decides:
    of two settings whose decimal weights both sum to 0.99, the code
    rejects the one (its doubles add up to 0.99, and [abs(0.99 - 1.0)] is
    the double next above 0.01) and accepts the other (its doubles add up
    to 0.9900000000000001). *)
Lemma validate_weights_edge :
  Config.validate_weights edge_settings_rejected = false /\
  Config.validate_weights edge_settings_accepted = true.
Proof. split; vm_compute; reflexivity. Qed.

(** ** Normalisation of skill tokens *)

Lemma is_space_lower_char (c : ascii) : Py.is_space (Py.lower_char c) = Py.is_space c.
Proof. destruct c as [[] [] [] [] [] [] [] []]; reflexivity. Qed.

Lemma lower_char_idem (c : ascii) : Py.lower_char (Py.lower_char c) = Py.lower_char c.
Proof. destruct c as [[] [] [] [] [] [] [] []]; reflexivity. Qed.

Lemma lower_idem (s : string) : Py.lower (Py.lower s) = Py.lower s.
Proof. induction s as [|c t IH]; simpl; [reflexivity|]. by rewrite lower_char_idem, IH. Qed.

Lemma lower_lstrip (s : string) : Py.lower (Py.lstrip s) = Py.lstrip (Py.lower s).
Proof.
  induction s as [|c t IH]; simpl; [reflexivity|].
  rewrite is_space_lower_char. destruct (Py.is_space c); [exact IH | reflexivity].
Qed.

Lemma lower_rstrip (s : string) : Py.lower (Py.rstrip s) = Py.rstrip (Py.lower s).
Proof.
  induction s as [|c t IH]; simpl; [reflexivity|].
  rewrite <- IH, is_space_lower_char.
  destruct (Py.rstrip t) as [|d u]; simpl.
  - destruct (Py.is_space c); reflexivity.
  - reflexivity.
Qed.

Lemma rstrip_idem (s : string) : Py.rstrip (Py.rstrip s) = Py.rstrip s.
Proof.
  induction s as [|c t IH]; simpl; [reflexivity|].
  destruct (Py.rstrip t) as [|d u] eqn:E.
  - destruct (Py.is_space c) eqn:Ec; simpl; [reflexivity|]. by rewrite Ec.
  - change (Py.rstrip (String c (String d u))) with
      (match Py.rstrip (String d u) with
       | EmptyString => if Py.is_space c then EmptyString else String c EmptyString
       | t' => String c t' end).
    rewrite IH. reflexivity.
Qed.

Lemma lstrip_fixed (c : ascii) (t : string) :
  Py.is_space c = false -> Py.lstrip (Py.rstrip (String c t)) = Py.rstrip (String c t).
Proof.
  intros Hc. cbn [Py.rstrip]. destruct (Py.rstrip t); rewrite ?Hc; cbn [Py.lstrip]; rewrite Hc; reflexivity.
Qed.

Lemma lstrip_head (s : string) :
  Py.lstrip s = EmptyString \/
  exists c t, Py.lstrip s = String c t /\ Py.is_space c = false.
Proof.
  induction s as [|c t IH]; simpl; [auto|].
  destruct (Py.is_space c) eqn:E; [exact IH | eauto].
Qed.

Lemma strip_idem (s : string) : Py.strip (Py.strip s) = Py.strip s.
Proof.
  unfold Py.strip.
  destruct (lstrip_head s) as [-> | (c & t & -> & Hc)]; [reflexivity|].
  rewrite lstrip_fixed by exact Hc. apply rstrip_idem.
Qed.

Lemma normalize_idem (s : string) : normalize (normalize s) = normalize s.
Proof.
  unfold normalize, Py.strip.
  rewrite lower_rstrip, lower_lstrip, lower_idem.
  apply strip_idem.
Qed.

(** ** The skills matcher *)

Lemma nonempty_true {A} (l : list A) : Py.nonempty l = true <-> l <> [].
Proof. destruct l; simpl; split; congruence. Qed.

Lemma nonempty_false {A} (l : list A) : Py.nonempty l = false <-> l = [].
Proof. destruct l; simpl; split; congruence. Qed.

Lemma mean_or_zero (l : list float) :
  (if Py.nonempty l then Py.mean l else 0%Q)
  = match l with [] => 0%Q | q :: t => Py.mean (q :: t) end.
Proof. destruct l; reflexivity. Qed.

Section Skills.
Variable cos_sim : string -> string -> float.

Lemma fold_max_spec (f : string -> float) (l : list string) (start : float) :
  let best := fold_left (fun m c => Qmax m (f c)) l start in
  (start <= best)%Q /\
  (forall c, c ∈ l -> (f c <= best)%Q) /\
  ((best == start)%Q \/ exists c, c ∈ l /\ (best == f c)%Q).
Proof.
  revert start. induction l as [|x l IH]; intros start; simpl.
  - split; [lra|]. split; [|left; reflexivity].
    intros c Hc. inversion Hc.
  - destruct (IH (Qmax start (f x))) as (H1 & H2 & H3).
    pose proof (Q.le_max_l start (f x)) as Hl.
    pose proof (Q.le_max_r start (f x)) as Hr.
    split; [lra|]. split.
    + intros c Hc. apply elem_of_cons in Hc as [->|Hc]; [lra | auto].
    + destruct H3 as [H3 | (c & Hc & H3)].
      * destruct (Q.max_dec start (f x)) as [E|E].
        -- left. exact (Qeq_trans _ _ _ H3 E).
        -- right. exists x. split; [left | exact (Qeq_trans _ _ _ H3 E)].
      * right. exists c. split; [right; exact Hc | exact H3].
Qed.

(** [row_max] is the largest similarity of the row. *)
Lemma row_max_is_maximum (job_skill first : string) (others : list string) :
  (forall c, c ∈ first :: others ->
     (cos_sim job_skill c <= row_max cos_sim job_skill first others)%Q) /\
  (exists c, c ∈ first :: others /\
     (row_max cos_sim job_skill first others == cos_sim job_skill c)%Q).
Proof.
  unfold row_max.
  destruct (fold_max_spec (cos_sim job_skill) others (cos_sim job_skill first))
    as (H1 & H2 & H3).
  split.
  - intros c Hc. apply elem_of_cons in Hc as [->|Hc]; auto.
  - destruct H3 as [H3 | (c & Hc & H3)].
    + exists first. split; [left | exact H3].
    + exists c. split; [right; exact Hc | exact H3].
Qed.

Lemma semantic_loop_scores (first : string) (others job_skills : list string) :
  (semantic_loop cos_sim first others job_skills).2
  = List.filter (fun similarity => Py.leb (7 # 10) similarity)
      (map (fun job_skill => row_max cos_sim job_skill first others) job_skills).
Proof.
  induction job_skills as [|j js IH]; simpl; [reflexivity|].
  destruct (semantic_loop cos_sim first others js) as [m sc]. simpl in IH.
  destruct (Py.leb (7 # 10) (row_max cos_sim j first others)); simpl; congruence.
Qed.

Lemma semantic_loop_matched (first : string) (others job_skills : list string) (s : string) :
  s ∈ (semantic_loop cos_sim first others job_skills).1 -> s ∈ job_skills.
Proof.
  induction job_skills as [|j js IH]; simpl; [trivial|].
  destruct (semantic_loop cos_sim first others js) as [m sc]. simpl in IH.
  destruct (Py.leb (7 # 10) (row_max cos_sim j first others)); simpl.
  - rewrite !elem_of_cons. tauto.
  - rewrite elem_of_cons. tauto.
Qed.

Lemma match_skills_semantic_run (candidate_skills job_skills : list string) :
  candidate_skills <> [] -> job_skills <> [] ->
  exists log matched,
    match_skills_semantic cos_sim candidate_skills job_skills
      = (log, Ok (loop_semantic_score cos_sim candidate_skills job_skills, matched))
    /\ log <> []
    /\ forall s, s ∈ matched -> s ∈ map normalize job_skills.
Proof.
  intros Hc Hj. unfold match_skills_semantic, loop_semantic_score, loop_accepted,
    loop_best_similarity.
  destruct candidate_skills as [|c cs]; [congruence|].
  destruct job_skills as [|j js]; [congruence|].
  cbn [map].
  pose proof (semantic_loop_scores (normalize c) (map normalize cs)
                (normalize j :: map normalize js)) as Hs.
  pose proof (semantic_loop_matched (normalize c) (map normalize cs)
                (normalize j :: map normalize js)) as Hm.
  destruct (semantic_loop cos_sim (normalize c) (map normalize cs)
              (normalize j :: map normalize js)) as [m sc].
  cbn [fst snd] in Hs, Hm. subst sc.
  exists [Encode (normalize c :: map normalize cs);
          Encode (normalize j :: map normalize js)], m.
  split; [|split].
  - cbn [mbind Eng_bind emit mret Eng_ret app]. rewrite mean_or_zero.
    change (normalize j :: map normalize js) with (map normalize (j :: js)).
    rewrite !map_map. reflexivity.
  - discriminate.
  - exact Hm.
Qed.

Lemma skill_set_normalized (skills : list string) (s : string) :
  s ∈ skill_set skills -> normalize s = s.
Proof.
  unfold skill_set. rewrite elem_of_list_to_set, list_elem_of_fmap.
  intros (x & -> & _). apply normalize_idem.
Qed.

Lemma map_fixed (f : string -> string) (l : list string) :
  (forall s, s ∈ l -> f s = s) -> map f l = l.
Proof.
  induction l as [|x l IH]; intros H; simpl; [reflexivity|].
  rewrite H by left. rewrite IH; [reflexivity|].
  intros s Hs. apply H. right. exact Hs.
Qed.

Lemma skill_set_nonempty (skills : list string) :
  skills <> [] -> skill_set skills <> ∅.
Proof.
  destruct skills as [|x l]; [congruence|]. intros _ E.
  assert (H : normalize x ∈ skill_set (x :: l)).
  { unfold skill_set. apply elem_of_list_to_set. left. }
  rewrite E in H. apply not_elem_of_empty in H. exact H.
Qed.

Lemma elements_nonempty (X : gset string) : X <> ∅ -> elements X <> [].
Proof.
  intros H E. apply H. apply leibniz_equiv. apply elements_empty_iff. rewrite E. done.
Qed.

Lemma len_div_same (n : nat) : n <> 0%nat -> (Py.len_div n n == 1)%Q.
Proof.
  intros H. unfold Py.len_div. apply Qmult_inv_r.
  intros E. unfold Qeq in E. simpl in E. lia.
Qed.

(** The outcome of the skills matcher on a job with skills, in one piece. *)
Lemma calculate_skills_match_unfold (candidate : CandidateSchema.t) (job : JobSchema.t) :
  JobSchema.skills job <> [] ->
  let candidate_skills := skill_set (CandidateSchema.skills candidate) in
  let job_skills := skill_set (JobSchema.skills job) in
  let exact_score :=
    Py.len_div (size (candidate_skills ∩ job_skills)) (size job_skills) in
  let missing := elements (job_skills ∖ candidate_skills) in
  (missing <> [] -> CandidateSchema.skills candidate <> [] ->
   exists log semantic_matches,
     calculate_skills_match cos_sim candidate job
       = (log,
          Ok (Py.min 1 (exact_score * (7 # 10)
                        + loop_semantic_score cos_sim
                            (CandidateSchema.skills candidate) missing * (3 # 10))%Q,
              elements (candidate_skills ∩ job_skills) ++ semantic_matches,
              filter (fun skill => skill ∉ semantic_matches) missing))
     /\ log <> []
     /\ forall s, s ∈ semantic_matches -> s ∈ missing) /\
  (missing = [] \/ CandidateSchema.skills candidate = [] ->
   calculate_skills_match cos_sim candidate job
     = ([], Ok (Py.min 1 exact_score,
                elements (candidate_skills ∩ job_skills), missing))).
Proof.
  intros Hj candidate_skills job_skills exact_score missing.
  assert (Hne : job_skills <> ∅) by (apply skill_set_nonempty; exact Hj).
  unfold calculate_skills_match.
  apply nonempty_true in Hj. rewrite Hj. cbn [negb].
  fold candidate_skills job_skills. fold missing.
  destruct (decide (job_skills = ∅)) as [E|_]; [contradiction|].
  change (length (elements (candidate_skills ∩ job_skills)))
    with (size (candidate_skills ∩ job_skills)).
  fold exact_score.
  split.
  - intros Hm Hc.
    destruct (match_skills_semantic_run (CandidateSchema.skills candidate) missing Hc Hm)
      as (log & sem & Hrun & Hlog & Hsem).
    apply nonempty_true in Hm, Hc. rewrite Hm, Hc. cbn [andb].
    rewrite Hrun. cbn [mbind Eng_bind mret Eng_ret].
    exists (log ++ []), sem. split; [reflexivity|]. split.
    + rewrite app_nil_r. exact Hlog.
    + intros s Hs. apply Hsem in Hs.
      rewrite map_fixed in Hs; [exact Hs|].
      intros x Hx. apply (skill_set_normalized (JobSchema.skills job)).
      apply elem_of_elements, elem_of_difference in Hx as [Hx _]. exact Hx.
  - intros [Hm|Hc].
    + rewrite Hm. reflexivity.
    + rewrite Hc. rewrite andb_false_r. reflexivity.
Qed.

(** C8: the skills matcher always answers, its matched and missing lists
    have no element in common, and every element of either list is a token
    of the job's required-skill set. *)
Theorem skills_lists_disjoint_job_tokens (candidate : CandidateSchema.t)
    (job : JobSchema.t) :
  exists log score matched missing,
    calculate_skills_match cos_sim candidate job
      = (log, Ok (score, matched, missing))
    /\ (forall s, s ∈ matched -> s ∉ missing)
    /\ (forall s, s ∈ matched -> s ∈ skill_set (JobSchema.skills job))
    /\ (forall s, s ∈ missing -> s ∈ skill_set (JobSchema.skills job)).
Proof.
  destruct (JobSchema.skills job) as [|j0 js] eqn:Hj.
  { exists [], 1%Q, [], []. split.
    - unfold calculate_skills_match. rewrite Hj. reflexivity.
    - repeat split; intros s Hs; inversion Hs. }
  assert (Hne : JobSchema.skills job <> []) by (rewrite Hj; discriminate).
  rewrite <- Hj.
  destruct (calculate_skills_match_unfold candidate job Hne) as [Hsem Hex].
  set (C := skill_set (CandidateSchema.skills candidate)) in *.
  set (J := skill_set (JobSchema.skills job)) in *.
  assert (Hexact : forall s, s ∈ elements (C ∩ J) -> s ∈ C /\ s ∈ J).
  { intros s Hs. apply elem_of_elements, elem_of_intersection in Hs. exact Hs. }
  assert (Hmiss : forall s, s ∈ elements (J ∖ C) -> s ∈ J /\ s ∉ C).
  { intros s Hs. apply elem_of_elements, elem_of_difference in Hs. exact Hs. }
  assert (Hplain :
    calculate_skills_match cos_sim candidate job
      = ([], Ok (Py.min 1 (Py.len_div (size (C ∩ J)) (size J)),
                 elements (C ∩ J), elements (J ∖ C))) ->
    exists log score matched missing,
      calculate_skills_match cos_sim candidate job
        = (log, Ok (score, matched, missing))
      /\ (forall s, s ∈ matched -> s ∉ missing)
      /\ (forall s, s ∈ matched -> s ∈ J)
      /\ (forall s, s ∈ missing -> s ∈ J)).
  { intros Hrun. eexists _, _, _, _. split; [exact Hrun|]. split; [|split].
    - intros s Hs Hs'. apply Hexact in Hs. apply Hmiss in Hs'. tauto.
    - intros s Hs. apply (Hexact s Hs).
    - intros s Hs. apply (Hmiss s Hs). }
  destruct (elements (J ∖ C)) as [|m0 ms] eqn:Hm.
  { apply Hplain, Hex. left. reflexivity. }
  destruct (CandidateSchema.skills candidate) as [|c0 cs] eqn:Hc.
  { apply Hplain, Hex. right. reflexivity. }
  destruct Hsem as (log & sem & Hrun & _ & Hsub); [discriminate | discriminate |].
  eexists _, _, _, _. split; [exact Hrun|].
  split; [|split].
  - intros s Hs Hs'. apply list_elem_of_filter in Hs' as [Hns Hin].
    apply elem_of_app in Hs as [Hs|Hs]; [|contradiction].
    apply Hexact in Hs. apply Hmiss in Hin. tauto.
  - intros s Hs. apply elem_of_app in Hs as [Hs|Hs].
    + apply (Hexact s Hs).
    + apply Hsub in Hs. apply (Hmiss s Hs).
  - intros s Hs. apply list_elem_of_filter in Hs as [_ Hin]. apply (Hmiss s Hin).
Qed.
End Skills.

(** ** The semantic score of the code and of the spec *)

Lemma spec_largest_max (a b : Q) (l : list Q) :
  (spec_largest (Qmax a b) l == Qmax a (spec_largest b l))%Q.
Proof.
  revert a b. induction l as [|z zs IH]; intros a b; cbn [spec_largest].
  - reflexivity.
  - symmetry. apply Q.max_assoc.
Qed.

Lemma fold_max_largest (f : string -> float) (l : list string) (start : float) :
  (fold_left (fun m c => Qmax m (f c)) l start == spec_largest start (map f l))%Q.
Proof.
  revert start. induction l as [|x l IH]; intros start; cbn [fold_left map spec_largest].
  - reflexivity.
  - rewrite IH. apply spec_largest_max.
Qed.

(** The spec's largest number is an upper bound of the numbers and one of
    them. *)
Lemma spec_largest_is_maximum (x : Q) (xs : list Q) :
  Forall (fun y => (y <= spec_largest x xs)%Q) (x :: xs) /\
  Exists (fun y => (spec_largest x xs == y)%Q) (x :: xs).
Proof.
  revert x. induction xs as [|y ys IH]; intros x; cbn [spec_largest].
  - split; [repeat constructor; lra | left; reflexivity].
  - destruct (IH y) as [Hall Hex].
    pose proof (Q.le_max_l x (spec_largest y ys)) as Hl.
    pose proof (Q.le_max_r x (spec_largest y ys)) as Hr.
    split.
    + constructor; [exact Hl|].
      eapply Forall_impl; [exact Hall|]. cbv beta. intros z Hz. lra.
    + destruct (Q.max_dec x (spec_largest y ys)) as [E|E].
      * left. exact E.
      * right. eapply Exists_impl; [exact Hex|]. cbv beta.
        intros z Hz. exact (Qeq_trans _ _ _ E Hz).
Qed.

(** The row maximum of the code is the best similarity of the spec. *)
Lemma loop_best_similarity_spec (cos_sim : string -> string -> float)
    (candidate_skills : list string) (job_skill : string) :
  normalize job_skill = job_skill ->
  (loop_best_similarity cos_sim candidate_skills job_skill
   == spec_best_similarity cos_sim (map normalize candidate_skills) job_skill)%Q.
Proof.
  intros Hj. unfold loop_best_similarity, spec_best_similarity. rewrite Hj.
  destruct (map normalize candidate_skills) as [|c cs]; cbn [map]; [reflexivity|].
  unfold row_max. apply fold_max_largest.
Qed.

Lemma filter_accepted_Qeq (l l' : list Q) :
  Forall2 Qeq l l' ->
  Forall2 Qeq (List.filter (fun similarity => Py.leb (7 # 10) similarity) l)
              (List.filter (fun similarity => Qle_bool (7 # 10) similarity) l').
Proof.
  induction 1 as [|x y l l' Hxy _ IH]; cbn [List.filter]; [constructor|].
  unfold Py.leb at 1. rewrite Hxy.
  destruct (Qle_bool (7 # 10) y); [constructor; assumption | exact IH].
Qed.

Lemma fold_left_plus_Qeq (l l' : list Q) (acc acc' : Q) :
  Forall2 Qeq l l' -> (acc == acc')%Q ->
  (fold_left Qplus l acc == acc' + fold_right Qplus 0 l')%Q.
Proof.
  intros H. revert acc acc'.
  induction H as [|x y l l' Hxy _ IH]; intros acc acc' Hacc; cbn [fold_left fold_right].
  - rewrite Hacc. ring.
  - rewrite (IH (acc + x)%Q (acc' + y)%Q) by (rewrite Hacc, Hxy; reflexivity).
    ring.
Qed.

Lemma mean_average_Qeq (l l' : list Q) :
  Forall2 Qeq l l' -> (Py.mean l == spec_average l')%Q.
Proof.
  intros H. unfold Py.mean, Py.sum, spec_average.
  rewrite (fold_left_plus_Qeq l l' 0 0 H) by reflexivity.
  rewrite (Forall2_length _ _ _ H). rewrite Qplus_0_l. reflexivity.
Qed.

(** The semantic score the code computes is the one the spec describes. *)
Lemma loop_semantic_score_spec (cos_sim : string -> string -> float)
    (candidate_skills missing : list string) :
  Forall (fun skill => normalize skill = skill) missing ->
  (loop_semantic_score cos_sim candidate_skills missing
   == spec_semantic_score cos_sim (map normalize candidate_skills) missing)%Q.
Proof.
  intros Hm. unfold loop_semantic_score, spec_semantic_score,
    loop_accepted, spec_accepted.
  assert (H : Forall2 Qeq
                (map (loop_best_similarity cos_sim candidate_skills) missing)
                (map (spec_best_similarity cos_sim (map normalize candidate_skills))
                     missing)).
  { induction Hm as [|m ms Hm0 _ IH]; cbn [map]; constructor; [|exact IH].
    apply loop_best_similarity_spec. exact Hm0. }
  apply filter_accepted_Qeq in H.
  destruct H as [|x y l l' Hxy Hl]; [reflexivity|].
  apply mean_average_Qeq. constructor; assumption.
Qed.

Lemma min_one_Qeq (a b : float) : (a == b)%Q -> (Py.min 1 a == Py.min 1 b)%Q.
Proof.
  intros H.
  destruct (min_spec 1 a) as [[H1 ->]|[H1 ->]];
    destruct (min_spec 1 b) as [[H2 ->]|[H2 ->]]; lra.
Qed.

(** C4: without required skills the score is 1.0 with empty lists; when
    some required skills are missing and the candidate has skills, the
    score is [min(1, exactScore * 0.7 + semanticScore * 0.3)], where the
    semantic score is the average of the accepted best similarities of the
    missing skills to the candidate's skills, as the spec defines it, and
    0.0 when none is accepted; when no required skill is missing the score
    is the exact score and the model is not called. *)
Theorem calculate_skills_match_score (cos_sim : string -> string -> float)
    (candidate : CandidateSchema.t) (job : JobSchema.t) :
  let candidate_skills := skill_set (CandidateSchema.skills candidate) in
  let job_skills := skill_set (JobSchema.skills job) in
  let exact_score :=
    Py.len_div (size (candidate_skills ∩ job_skills)) (size job_skills) in
  (JobSchema.skills job = [] ->
   calculate_skills_match cos_sim candidate job = ([], Ok (1%Q, [], []))) /\
  (JobSchema.skills job <> [] -> job_skills ∖ candidate_skills <> ∅ ->
   CandidateSchema.skills candidate <> [] ->
   exists log score matched missing,
     calculate_skills_match cos_sim candidate job
       = (log, Ok (score, matched, missing))
     /\ (score
         == Py.min 1 (exact_score * (7 # 10)
                      + spec_semantic_score cos_sim
                          (map normalize (CandidateSchema.skills candidate))
                          (elements (job_skills ∖ candidate_skills))
                        * (3 # 10)))%Q) /\
  (JobSchema.skills job <> [] -> job_skills ∖ candidate_skills = ∅ ->
   exists score matched,
     calculate_skills_match cos_sim candidate job
       = ([], Ok (score, matched, []))
     /\ score = Py.min 1 exact_score /\ (score == exact_score)%Q).
Proof.
  intros candidate_skills job_skills exact_score.
  split; [|split].
  - intros Hj. unfold calculate_skills_match. rewrite Hj. reflexivity.
  - intros Hj Hm Hc.
    destruct (calculate_skills_match_unfold cos_sim candidate job Hj) as [Hsem _].
    destruct (Hsem (elements_nonempty _ Hm) Hc) as (log & sem & Hrun & _).
    eexists _, _, _, _. split; [exact Hrun|].
    apply min_one_Qeq. fold candidate_skills job_skills exact_score.
    rewrite loop_semantic_score_spec; [reflexivity|].
    apply Forall_forall. intros x Hx.
    apply (skill_set_normalized (JobSchema.skills job)).
    apply elem_of_elements, elem_of_difference in Hx as [Hx _]. exact Hx.
  - intros Hj Hm.
    destruct (calculate_skills_match_unfold cos_sim candidate job Hj) as [_ Hex].
    fold candidate_skills job_skills in Hex. rewrite Hm in Hex.
    rewrite elements_empty in Hex.
    eexists _, _. split; [apply Hex; left; reflexivity|].
    split; [reflexivity|].
    assert (Hsub : forall x, x ∈ job_skills -> x ∈ candidate_skills).
    { intros x Hx. destruct (decide (x ∈ candidate_skills)) as [|Hn]; [assumption|].
      assert (Hd : x ∈ job_skills ∖ candidate_skills)
        by (apply elem_of_difference; auto).
      rewrite Hm in Hd. apply not_elem_of_empty in Hd. contradiction. }
    assert (Hsame : candidate_skills ∩ job_skills = job_skills).
    { apply set_eq. intros x. rewrite elem_of_intersection. split; [tauto | auto]. }
    assert (Hone : (exact_score == 1)%Q).
    { unfold exact_score. rewrite Hsame. apply len_div_same.
      intros E. apply size_empty_iff in E.
      apply (skill_set_nonempty _ Hj). apply leibniz_equiv. exact E. }
    change (Py.min 1 exact_score == exact_score)%Q.
    destruct (min_spec 1 exact_score) as [[Hlt ->]|[Hle ->]]; lra.
Qed.

(** The cases on the web developer: a job without skills; a job with one
    missing skill, "postgresql", which a model that finds nothing alike
    leaves unmatched (semantic score 0.0, score 0.7 * 2/3) and which the
    graded model matches with "sql", the third of the candidate's skills,
    at 0.9 (score 0.7 * 2/3 + 0.3 * 0.9); and a job whose skills are all
    met. *)
Lemma calculate_skills_match_score_witness :
  calculate_skills_match sample_similarity web_developer five_years_job
    = ([], Ok (1%Q, [], [])) /\
  (exists log score matched missing,
     calculate_skills_match sample_similarity web_developer web_job
       = (log, Ok (score, matched, missing)) /\ (score == 140 # 300)%Q) /\
  (exists log score matched missing,
     calculate_skills_match graded_similarity web_developer web_job
       = (log, Ok (score, matched, missing)) /\ (score == 221 # 300)%Q) /\
  (exists score matched,
     calculate_skills_match sample_similarity web_developer frontend_job
       = ([], Ok (score, matched, [])) /\ score = 1%Q).
Proof.
  split; [|split; [|split]].
  - apply (proj1 (calculate_skills_match_score sample_similarity
                    web_developer five_years_job)).
    reflexivity.
  - destruct (proj1 (proj2 (calculate_skills_match_score sample_similarity
                              web_developer web_job)))
      as (log & score & matched & missing & H & Hs).
    + discriminate.
    + intros E. apply (f_equal elements) in E. vm_compute in E. discriminate E.
    + discriminate.
    + exists log, score, matched, missing. split; [exact H|].
      rewrite Hs. vm_compute. reflexivity.
  - destruct (proj1 (proj2 (calculate_skills_match_score graded_similarity
                              web_developer web_job)))
      as (log & score & matched & missing & H & Hs).
    + discriminate.
    + intros E. apply (f_equal elements) in E. vm_compute in E. discriminate E.
    + discriminate.
    + exists log, score, matched, missing. split; [exact H|].
      rewrite Hs. vm_compute. reflexivity.
  - destruct (proj2 (proj2 (calculate_skills_match_score sample_similarity
                              web_developer frontend_job)))
      as (score & matched & H & Hs & _).
    + discriminate.
    + vm_compute. reflexivity.
    + exists score, matched. split; [exact H|]. rewrite Hs. vm_compute. reflexivity.
Defined.

(** ** A single match *)

Section Single.
Variable cos_sim : string -> string -> float.
Variable float_str : float -> string.
Variable settings : gmap string float.

Lemma MatchBreakdown_new_Ok (skills experience education semantic : float)
    (location : option float) (b : MatchBreakdown.t) :
  MatchBreakdown.new skills experience education semantic location = Ok b ->
  b = {| MatchBreakdown.skills_match := skills;
         MatchBreakdown.experience_match := experience;
         MatchBreakdown.education_match := education;
         MatchBreakdown.semantic_match := semantic;
         MatchBreakdown.location_match := location |}
  /\ (0 <= skills <= 1)%Q /\ (0 <= experience <= 1)%Q
  /\ (0 <= education <= 1)%Q /\ (0 <= semantic <= 1)%Q
  /\ match location with Some l => (0 <= l <= 1)%Q | None => True end.
Proof.
  unfold MatchBreakdown.new.
  destruct (in_unit skills) eqn:E1; [|discriminate].
  destruct (in_unit experience) eqn:E2; [|discriminate].
  destruct (in_unit education) eqn:E3; [|discriminate].
  destruct (in_unit semantic) eqn:E4; [|discriminate].
  cbn [andb].
  destruct location as [l|].
  - destruct (in_unit l) eqn:E5; [|discriminate]. intros [= <-].
    apply in_unit_true in E1, E2, E3, E4, E5. auto 10.
  - intros [= <-]. apply in_unit_true in E1, E2, E3, E4. auto 10.
Qed.

Lemma SingleMatchResponse_new_Ok (cid cname jid : string) (score : float) (pct : Z)
    (b : MatchBreakdown.t) (matched missing : list string)
    (expl : string) (recs : list string) (quality : string)
    (r : SingleMatchResponse.t) :
  SingleMatchResponse.new cid cname jid score pct b matched missing expl recs quality
    = Ok r ->
  r = {| SingleMatchResponse.candidate_id := cid;
         SingleMatchResponse.candidate_name := cname;
         SingleMatchResponse.job_id := jid;
         SingleMatchResponse.compatibility_score := score;
         SingleMatchResponse.match_percentage := pct;
         SingleMatchResponse.breakdown := b;
         SingleMatchResponse.matched_skills := matched;
         SingleMatchResponse.missing_skills := missing;
         SingleMatchResponse.explanation := expl;
         SingleMatchResponse.recommendations := recs;
         SingleMatchResponse.match_quality := quality |}
  /\ (0 <= score <= 1)%Q /\ (0 <= pct <= 100)%Z.
Proof.
  unfold SingleMatchResponse.new.
  destruct (in_unit score) eqn:E1; [|discriminate].
  destruct (0 <=? pct)%Z eqn:E2; [|discriminate].
  destruct (pct <=? 100)%Z eqn:E3; [|discriminate].
  intros [= <-]. apply in_unit_true in E1. split; [reflexivity|]. split; [exact E1|lia].
Qed.

(** What a successful single match went through. *)
Lemma match_single_Ok (candidate : CandidateSchema.t) (job : JobSchema.t)
    (log : list event) (r : SingleMatchResponse.t) :
  match_single cos_sim float_str settings candidate job = (log, Ok r) ->
  exists l1 l2 l3 l4 skills_score matched missing education semantic location
         breakdown quality,
    calculate_skills_match cos_sim candidate job
      = (l1, Ok (skills_score, matched, missing)) /\
    calculate_education_match cos_sim candidate job = (l2, Ok education) /\
    calculate_semantic_match cos_sim candidate job = (l3, Ok semantic) /\
    calculate_location_match cos_sim candidate job = (l4, Ok location) /\
    MatchBreakdown.new skills_score (calculate_experience_match candidate job)
      education semantic (Some location) = Ok breakdown /\
    calculate_overall_score settings breakdown
      = Ok (SingleMatchResponse.compatibility_score r) /\
    determine_match_quality settings (SingleMatchResponse.compatibility_score r)
      = Ok quality /\
    SingleMatchResponse.breakdown r = breakdown /\
    SingleMatchResponse.candidate_id r = CandidateSchema.id candidate /\
    SingleMatchResponse.matched_skills r = matched /\
    SingleMatchResponse.missing_skills r = missing /\
    (0 <= SingleMatchResponse.compatibility_score r <= 1)%Q.
Proof.
  unfold match_single. intros H.
  eng_inv H. destruct a as [[skills_score matched] missing].
  eng_inv H.
  apply lift_Ok in Hstep3 as [Hb _].
  apply lift_Ok in Hstep4 as [Ho _].
  apply lift_Ok in Hstep5 as [Hq _].
  apply lift_Ok in H as [Hr _].
  apply SingleMatchResponse_new_Ok in Hr as (-> & Hscore & _).
  cbn [SingleMatchResponse.compatibility_score SingleMatchResponse.breakdown
       SingleMatchResponse.candidate_id SingleMatchResponse.matched_skills
       SingleMatchResponse.missing_skills].
  do 12 eexists.
  repeat (split; [first [eassumption | reflexivity]|]). exact Hscore.
Qed.

(** *** Every calculator answers, and with a score in [0,1] *)

Lemma clamp_range (x : float) : unit_range (Py.max 0 (Py.min 1 x)).
Proof.
  unfold unit_range.
  destruct (min_spec 1 x) as [[H1 ->]|[H1 ->]];
    destruct (max_spec 0 x) as [[H2 E]|[H2 E]];
    destruct (max_spec 0 1) as [[H3 E']|[H3 E']];
    rewrite ?E, ?E'; lra.
Qed.

Lemma calculate_similarity_run (text1 text2 : string) :
  exists log v, calculate_similarity cos_sim text1 text2 = (log, Ok v)
                /\ unit_range v.
Proof.
  eexists _, _. split; [reflexivity | apply clamp_range].
Qed.

Lemma match_text_semantic_run (candidate_text job_text : string) :
  exists log v, match_text_semantic cos_sim candidate_text job_text = (log, Ok v)
                /\ unit_range v.
Proof.
  unfold match_text_semantic.
  destruct (negb (Py.nonempty_str candidate_text) || negb (Py.nonempty_str job_text)).
  - exists [], 0%Q. split; [reflexivity | unfold unit_range; lra].
  - apply calculate_similarity_run.
Qed.

Lemma calculate_education_match_run (candidate : CandidateSchema.t) (job : JobSchema.t) :
  exists log v, calculate_education_match cos_sim candidate job = (log, Ok v)
                /\ unit_range v.
Proof.
  unfold calculate_education_match.
  destruct (negb (Py.nonempty (CandidateSchema.education candidate))
            || negb (Py.nonempty (JobSchema.requirements job))).
  { exists [], (5 # 10)%Q. split; [reflexivity | unfold unit_range; lra]. }
  destruct (negb (Py.any_in edu_keywords _)).
  { exists [], 1%Q. split; [reflexivity | unfold unit_range; lra]. }
  destruct (negb (Py.nonempty _)).
  { exists [], (3 # 10)%Q. split; [reflexivity | unfold unit_range; lra]. }
  apply match_text_semantic_run.
Qed.

Lemma calculate_semantic_match_run (candidate : CandidateSchema.t) (job : JobSchema.t) :
  exists log v, calculate_semantic_match cos_sim candidate job = (log, Ok v)
                /\ unit_range v.
Proof.
  unfold calculate_semantic_match.
  match goal with |- context [if ?b then _ else _] => destruct b end.
  - exists [], (5 # 10)%Q. split; [reflexivity | unfold unit_range; lra].
  - apply match_text_semantic_run.
Qed.

Lemma calculate_location_match_run (candidate : CandidateSchema.t) (job : JobSchema.t) :
  exists log v, calculate_location_match cos_sim candidate job = (log, Ok v)
                /\ unit_range v.
Proof.
  unfold calculate_location_match.
  destruct (negb (Py.truthy_str (JobSchema.location job))).
  { exists [], 1%Q. split; [reflexivity | unfold unit_range; lra]. }
  destruct (negb (Py.truthy_str (CandidateSchema.location candidate))).
  { exists [], (5 # 10)%Q. split; [reflexivity | unfold unit_range; lra]. }
  destruct (Py.any_in remote_keywords _).
  { exists [], 1%Q. split; [reflexivity | unfold unit_range; lra]. }
  destruct (String.eqb _ _).
  { exists [], 1%Q. split; [reflexivity | unfold unit_range; lra]. }
  destruct (Py.contains _ _ || Py.contains _ _).
  { exists [], (8 # 10)%Q. split; [reflexivity | unfold unit_range; lra]. }
  match goal with |- context [calculate_similarity _ ?a ?b] =>
    destruct (calculate_similarity_run a b) as (log & v & -> & Hv) end.
  eexists _, _. split; [reflexivity|]. unfold unit_range in *. lra.
Qed.

Lemma sum_nonneg (xs : list float) (acc : float) :
  (0 <= acc)%Q -> Forall (fun x => (0 <= x)%Q) xs ->
  (0 <= fold_left Qplus xs acc)%Q.
Proof.
  intros Hacc H. revert acc Hacc.
  induction H as [|x xs Hx _ IH]; intros acc Hacc; simpl; [exact Hacc|].
  apply IH. lra.
Qed.

Lemma Qdiv_nonneg (a b : float) : (0 <= a)%Q -> (0 <= b)%Q -> (0 <= a / b)%Q.
Proof.
  intros Ha Hb. unfold Qdiv. apply Qmult_le_0_compat; [exact Ha|].
  apply Qinv_le_0_compat. exact Hb.
Qed.

Lemma inject_nat_nonneg (n : nat) : (0 <= inject_Z (Z.of_nat n))%Q.
Proof. change 0%Q with (inject_Z 0). rewrite <- Zle_Qle. lia. Qed.

Lemma mean_nonneg (xs : list float) :
  Forall (fun x => (0 <= x)%Q) xs -> (0 <= Py.mean xs)%Q.
Proof.
  intros H. unfold Py.mean, Py.sum.
  apply Qdiv_nonneg; [apply sum_nonneg; [lra | exact H] | apply inject_nat_nonneg].
Qed.

Lemma accepted_nonneg (xs : list float) :
  Forall (fun x => (0 <= x)%Q)
         (List.filter (fun similarity => Py.leb (7 # 10) similarity) xs).
Proof.
  induction xs as [|x xs IH]; simpl; [constructor|].
  destruct (Py.leb (7 # 10) x) eqn:E; [|exact IH].
  apply leb_true in E. constructor; [lra | exact IH].
Qed.

Lemma loop_semantic_score_nonneg (candidate_skills missing : list string) :
  (0 <= loop_semantic_score cos_sim candidate_skills missing)%Q.
Proof.
  unfold loop_semantic_score, loop_accepted.
  pose proof (accepted_nonneg
    (map (loop_best_similarity cos_sim candidate_skills) missing)) as H.
  destruct (List.filter _ _) as [|x xs]; [lra|]. apply mean_nonneg. exact H.
Qed.

Lemma calculate_skills_match_run (candidate : CandidateSchema.t) (job : JobSchema.t) :
  exists log score matched missing,
    calculate_skills_match cos_sim candidate job = (log, Ok (score, matched, missing))
    /\ unit_range score.
Proof.
  destruct (JobSchema.skills job) as [|j0 js] eqn:Hj.
  { exists [], 1%Q, [], []. split.
    - unfold calculate_skills_match. rewrite Hj. reflexivity.
    - unfold unit_range. lra. }
  assert (Hne : JobSchema.skills job <> []) by (rewrite Hj; discriminate).
  destruct (calculate_skills_match_unfold cos_sim candidate job Hne) as [Hsem Hex].
  set (exact := Py.len_div _ _) in *.
  assert (Hexact : (0 <= exact)%Q).
  { apply Qdiv_nonneg; apply inject_nat_nonneg. }
  assert (Hmin : forall x, (0 <= x)%Q -> unit_range (Py.min 1 x)).
  { intros x Hx. unfold unit_range. split; [apply min_glb; lra | apply min_le_l]. }
  destruct (elements _) as [|m0 ms] eqn:Hm.
  { eexists _, _, _, _. split; [apply Hex; left; reflexivity | apply Hmin, Hexact]. }
  destruct (CandidateSchema.skills candidate) as [|c0 cs] eqn:Hc.
  { eexists _, _, _, _. split; [apply Hex; right; reflexivity | apply Hmin, Hexact]. }
  destruct Hsem as (log & sem & Hrun & _); [discriminate | discriminate |].
  eexists _, _, _, _. split; [exact Hrun|]. apply Hmin.
  pose proof (loop_semantic_score_nonneg (c0 :: cs) (m0 :: ms)). lra.
Qed.

Lemma calculate_experience_match_range (candidate : CandidateSchema.t)
    (job : JobSchema.t) :
  CandidateSchema.valid candidate -> nonneg_requirement job ->
  unit_range (calculate_experience_match candidate job).
Proof.
  unfold CandidateSchema.valid, nonneg_requirement, calculate_experience_match,
    unit_range.
  intros Hc Hr.
  destruct (JobSchema.min_experience_years job) as [r|]; [|lra].
  destruct (Py.eqb r 0) eqn:Ez; [lra|]. apply eqb_false in Ez.
  assert (Hpos : (0 < r)%Q).
  { destruct (Qle_lt_or_eq _ _ Hr) as [H|H]; [exact H|]. symmetry in H. contradiction. }
  destruct (Py.leb r _) eqn:El.
  - apply leb_true in El.
    assert (Hb : (0 <= Py.min (2 # 10)
                   ((CandidateSchema.experience_years candidate - r) / (r * 2)))%Q).
    { apply min_glb; [lra|]. apply Qdiv_nonneg; lra. }
    split; [apply min_glb; lra | apply min_le_l].
  - apply leb_false in El. split; [apply max_ge_l|].
    apply max_lub; [lra|]. apply Qle_shift_div_r; lra.
Qed.
Lemma percent_product_range (x : float) :
  unit_range x -> (0 <= Py.fmul x 100 <= 100)%Q.
Proof.
  intros [H0 H1]. unfold Py.fmul.
  assert (Hq : (Qabs (x * 100) < Py.pow2 7)%Q).
  { change (Py.pow2 7) with 128%Q. apply Qabs_Qlt_condition. lra. }
  split.
  - apply (round64_ge_Z (x * 100) 0 7 Hq); [lia | change (inject_Z 0) with 0%Q; lra].
  - apply (round64_le_Z (x * 100) 100 7 Hq); [lia | change (inject_Z 100) with 100%Q; lra].
Qed.

Lemma int_percent_range (x : float) :
  unit_range x -> (0 <= Py.int (Py.fmul x 100) <= 100)%Z.
Proof.
  intros H. destruct (percent_product_range x H) as [Hq0 Hq1].
  unfold Py.int.
  set (q := Py.fmul x 100) in *.
  unfold Qle in Hq0, Hq1. cbn [Qnum Qden] in Hq0, Hq1.
  rewrite Z.quot_div_nonneg by lia.
  split.
  - apply Z.div_pos; lia.
  - apply Z.div_le_upper_bound; lia.
Qed.

Lemma calculate_overall_score_run (breakdown : MatchBreakdown.t) (location : float) :
  usable_settings settings ->
  unit_range (MatchBreakdown.skills_match breakdown) ->
  unit_range (MatchBreakdown.experience_match breakdown) ->
  unit_range (MatchBreakdown.education_match breakdown) ->
  unit_range (MatchBreakdown.semantic_match breakdown) ->
  MatchBreakdown.location_match breakdown = Some location ->
  unit_range location ->
  exists score, calculate_overall_score settings breakdown = Ok score
                /\ unit_range score.
Proof.
  intros ((ws & Hws & H1) & (we & Hwe & H2) & (wd & Hwd & H3) & (wm & Hwm & H4) & _)
         Hs He Hd Hm Hloc Hl.
  unfold calculate_overall_score, getattr.
  rewrite Hws, Hwe, Hwd, Hwm, Hloc. simpl.
  eexists. split; [reflexivity|].
  unfold unit_range in *. split; [|apply min_le_l].
  apply min_glb; [lra|]. unfold weighted_sum.
  assert (forall a b, (0 <= a)%Q -> (0 <= b)%Q -> (0 <= a * b)%Q) as Hmul
    by (intros; apply Qmult_le_0_compat; assumption).
  pose proof (Hmul _ _ (proj1 Hs) H1).
  pose proof (Hmul _ _ (proj1 He) H2).
  pose proof (Hmul _ _ (proj1 Hd) H3).
  pose proof (Hmul _ _ (proj1 Hm) H4).
  pose proof (Hmul location (5 # 100)%Q (proj1 Hl) ltac:(lra)).
  lra.
Qed.

Lemma determine_match_quality_run (score : float) :
  usable_settings settings ->
  exists quality, determine_match_quality settings score = Ok quality.
Proof.
  intros (_ & _ & _ & _ & [e He] & [g Hg] & [m Hm]).
  rewrite (determine_match_quality_tiers settings e g m score He Hg Hm). eauto.
Qed.

(** On a usable settings object, a validated candidate and a job with a
    non-negative requirement, the single match runs to its end. *)
Lemma match_single_returns (candidate : CandidateSchema.t) (job : JobSchema.t) :
  usable_settings settings -> CandidateSchema.valid candidate ->
  nonneg_requirement job ->
  exists log r, match_single cos_sim float_str settings candidate job = (log, Ok r).
Proof.
  intros Hset Hc Hj. unfold match_single.
  destruct (calculate_skills_match_run candidate job)
    as (l1 & skills & matched & missing & Hrun1 & Hs).
  destruct (calculate_education_match_run candidate job) as (l2 & edu & Hrun2 & Hd).
  destruct (calculate_semantic_match_run candidate job) as (l3 & sem & Hrun3 & Hm).
  destruct (calculate_location_match_run candidate job) as (l4 & loc & Hrun4 & Hl).
  pose proof (calculate_experience_match_range candidate job Hc Hj) as He.
  set (b := {| MatchBreakdown.skills_match := skills;
               MatchBreakdown.experience_match :=
                 calculate_experience_match candidate job;
               MatchBreakdown.education_match := edu;
               MatchBreakdown.semantic_match := sem;
               MatchBreakdown.location_match := Some loc |}).
  assert (Hb : MatchBreakdown.new skills (calculate_experience_match candidate job)
                 edu sem (Some loc) = Ok b).
  { unfold MatchBreakdown.new.
    apply in_unit_true in Hs, He, Hd, Hm, Hl. rewrite Hs, He, Hd, Hm, Hl.
    reflexivity. }
  destruct (calculate_overall_score_run b loc Hset Hs He Hd Hm eq_refl Hl)
    as (score & Hrun5 & Hscore).
  destruct (determine_match_quality_run score Hset) as (quality & Hq).
  pose proof (int_percent_range score Hscore) as [Hp0 Hp1].
  eexists _, _.
  eapply Eng_bind_run; [exact Hrun1|]. cbn beta iota.
  eapply Eng_bind_run; [exact Hrun2|].
  eapply Eng_bind_run; [exact Hrun3|].
  eapply Eng_bind_run; [exact Hrun4|].
  eapply lift_bind_run; [exact Hb|].
  eapply lift_bind_run; [exact Hrun5|].
  eapply lift_bind_run; [exact Hq|].
  eapply lift_bind_run.
  { unfold generate_explanation. rewrite Hq. reflexivity. }
  unfold lift, SingleMatchResponse.new.
  apply in_unit_true in Hscore. rewrite Hscore.
  apply Z.leb_le in Hp0, Hp1. rewrite Hp0, Hp1.
  cbn [andb]. reflexivity.
Qed.
End Single.

Lemma calculate_overall_score_Ok (settings : gmap string float)
    (breakdown : MatchBreakdown.t) (score : float) :
  calculate_overall_score settings breakdown = Ok score ->
  exists w_skills w_experience w_education w_semantic,
    settings !! "SKILLS_WEIGHT" = Some w_skills /\
    settings !! "EXPERIENCE_WEIGHT" = Some w_experience /\
    settings !! "EDUCATION_WEIGHT" = Some w_education /\
    settings !! "SEMANTIC_WEIGHT" = Some w_semantic /\
    score = match MatchBreakdown.location_match breakdown with
            | Some location =>
                Py.min 1 (weighted_sum breakdown w_skills w_experience
                                       w_education w_semantic
                          + location * (5 # 100))%Q
            | None => weighted_sum breakdown w_skills w_experience
                                   w_education w_semantic
            end.
Proof.
  unfold calculate_overall_score, getattr.
  destruct (settings !! "SKILLS_WEIGHT") as [ws|]; [|discriminate].
  destruct (settings !! "EXPERIENCE_WEIGHT") as [we|]; [|discriminate].
  destruct (settings !! "EDUCATION_WEIGHT") as [wd|]; [|discriminate].
  destruct (settings !! "SEMANTIC_WEIGHT") as [wm|]; [|discriminate].
  simpl. intros H. exists ws, we, wd, wm.
  repeat (split; [reflexivity|]).
  destruct (MatchBreakdown.location_match breakdown); injection H as <-; reflexivity.
Qed.

(** C7: in every result of [match_single] the five sub-scores of the
    breakdown and the compatibility score lie in [0,1]; and on a usable
    settings object, for a validated candidate and a job whose required
    experience is not negative, [match_single] does produce a result. *)
Theorem match_single_scores_in_unit (cos_sim : string -> string -> float)
    (float_str : float -> string) (settings : gmap string float)
    (candidate : CandidateSchema.t) (job : JobSchema.t) :
  (forall log r,
     match_single cos_sim float_str settings candidate job = (log, Ok r) ->
     let breakdown := SingleMatchResponse.breakdown r in
     unit_range (MatchBreakdown.skills_match breakdown) /\
     unit_range (MatchBreakdown.experience_match breakdown) /\
     unit_range (MatchBreakdown.education_match breakdown) /\
     unit_range (MatchBreakdown.semantic_match breakdown) /\
     (exists location,
        MatchBreakdown.location_match breakdown = Some location /\
        unit_range location) /\
     unit_range (SingleMatchResponse.compatibility_score r)) /\
  (usable_settings settings -> CandidateSchema.valid candidate ->
   nonneg_requirement job ->
   exists log r,
     match_single cos_sim float_str settings candidate job = (log, Ok r)).
Proof.
  split; [|apply match_single_returns].
  intros log r H.
  apply match_single_Ok in H
    as (l1 & l2 & l3 & l4 & skills & matched & missing & edu & sem & loc & b & q
        & _ & _ & _ & _ & Hb & _ & _ & Hbr & _ & _ & _ & Hscore).
  apply MatchBreakdown_new_Ok in Hb as (Hbeq & Hs & He & Hd & Hm & Hl).
  cbn zeta. rewrite Hbr, Hbeq. cbn [MatchBreakdown.skills_match
    MatchBreakdown.experience_match MatchBreakdown.education_match
    MatchBreakdown.semantic_match MatchBreakdown.location_match].
  unfold unit_range. repeat (split; [assumption|]).
  split; [|exact Hscore]. exists loc. split; [reflexivity | exact Hl].
Qed.

Lemma sample_settings_usable : usable_settings sample_settings.
Proof.
  unfold usable_settings, nonneg_attribute.
  repeat split; eexists; try (split; [reflexivity | vm_compute; discriminate]);
    reflexivity.
Qed.

(** A run of the single match on the sample settings. *)
Lemma match_single_scores_in_unit_witness :
  exists log r,
    match_single sample_similarity sample_float_str sample_settings
                 web_developer web_job = (log, Ok r)
    /\ unit_range (SingleMatchResponse.compatibility_score r)
    /\ unit_range (MatchBreakdown.skills_match (SingleMatchResponse.breakdown r)).
Proof.
  destruct (proj2 (match_single_scores_in_unit sample_similarity
                     sample_float_str sample_settings web_developer web_job))
    as (log & r & H).
  - exact sample_settings_usable.
  - vm_compute. discriminate.
  - vm_compute. discriminate.
  - exists log, r. split; [exact H|].
    destruct (proj1 (match_single_scores_in_unit sample_similarity
                       sample_float_str sample_settings web_developer web_job)
                    log r H) as (Hs & _ & _ & _ & _ & Hc).
    split; [exact Hc | exact Hs].
Defined.

(** C10: the location matcher answers on every path, so every result of
    [match_single] carries a location sub-score, the one the location
    matcher returned, and its compatibility score is the weighted sum plus
    [location * 0.05], cut at 1.0. *)
Theorem match_single_location_always_scored (cos_sim : string -> string -> float)
    (float_str : float -> string) (settings : gmap string float)
    (candidate : CandidateSchema.t) (job : JobSchema.t) :
  (exists log location,
     calculate_location_match cos_sim candidate job = (log, Ok location)) /\
  (forall log r,
     match_single cos_sim float_str settings candidate job = (log, Ok r) ->
     exists log' location w_skills w_experience w_education w_semantic,
       calculate_location_match cos_sim candidate job = (log', Ok location) /\
       MatchBreakdown.location_match (SingleMatchResponse.breakdown r)
         = Some location /\
       settings !! "SKILLS_WEIGHT" = Some w_skills /\
       settings !! "EXPERIENCE_WEIGHT" = Some w_experience /\
       settings !! "EDUCATION_WEIGHT" = Some w_education /\
       settings !! "SEMANTIC_WEIGHT" = Some w_semantic /\
       SingleMatchResponse.compatibility_score r
         = Py.min 1 (weighted_sum (SingleMatchResponse.breakdown r)
                       w_skills w_experience w_education w_semantic
                     + location * (5 # 100))%Q /\
       (SingleMatchResponse.compatibility_score r <= 1)%Q).
Proof.
  split.
  { destruct (calculate_location_match_run cos_sim candidate job)
      as (log & v & H & _). eauto. }
  intros log r H.
  apply match_single_Ok in H
    as (l1 & l2 & l3 & l4 & skills & matched & missing & edu & sem & loc & b & q
        & _ & _ & _ & Hloc & Hb & Ho & _ & Hbr & _ & _ & _ & Hscore).
  apply MatchBreakdown_new_Ok in Hb as (Hbeq & _).
  apply calculate_overall_score_Ok in Ho
    as (ws & we & wd & wm & Hws & Hwe & Hwd & Hwm & Ho).
  exists l4, loc, ws, we, wd, wm.
  rewrite Hbr. split; [exact Hloc|]. split; [rewrite Hbeq; reflexivity|].
  repeat (split; [assumption|]).
  split; [|apply Hscore].
  rewrite Ho at 1. rewrite Hbeq. reflexivity.
Qed.

(** The job has no location, so the location sub-score of the run is 1.0. *)
Lemma match_single_location_always_scored_witness :
  exists log r,
    match_single sample_similarity sample_float_str sample_settings
                 web_developer web_job = (log, Ok r)
    /\ MatchBreakdown.location_match (SingleMatchResponse.breakdown r)
       = Some 1%Q
    /\ (SingleMatchResponse.compatibility_score r <= 1)%Q.
Proof.
  destruct (match_single_returns sample_similarity sample_float_str
              sample_settings web_developer web_job)
    as (log & r & H).
  - exact sample_settings_usable.
  - vm_compute. discriminate.
  - vm_compute. discriminate.
  - exists log, r. split; [exact H|].
    destruct (proj2 (match_single_location_always_scored sample_similarity
                       sample_float_str sample_settings web_developer web_job)
                    log r H)
      as (log' & location & ws & we & wd & wm & Hloc & Hb & _ & _ & _ & _ & _ & Hle).
    split; [|exact Hle].
    rewrite Hb. vm_compute in Hloc. injection Hloc as _ <-. reflexivity.
Defined.

(** On the attributes of a [Settings] instance the single match reaches
    [determine_match_quality], which raises there, so it has no result. *)
Lemma match_single_on_Settings (cos_sim : string -> string -> float)
    (float_str : float -> string) (s : Config.Settings)
    (candidate : CandidateSchema.t) (job : JobSchema.t)
    (log : list event) (r : SingleMatchResponse.t) :
  match_single cos_sim float_str (Config.attributes s) candidate job
    <> (log, Ok r).
Proof.
  intros H.
  apply match_single_Ok in H
    as (l1 & l2 & l3 & l4 & skills & matched & missing & edu & sem & loc & b & q
        & _ & _ & _ & _ & _ & _ & Hq & _).
  unfold determine_match_quality, getattr in Hq.
  rewrite Settings_has_no_threshold in Hq. discriminate Hq.
Qed.

(** ** Sorting in descending order *)

Section Sorting.
Context {A : Type} (key : A -> float).

Lemma insert_desc_perm (x : A) (l : list A) :
  Permutation (Py.insert_desc key x l) (x :: l).
Proof.
  induction l as [|y l IH]; simpl; [reflexivity|].
  destruct (Py.ltb (key x) (key y)); [|reflexivity].
  rewrite IH. apply perm_swap.
Qed.

Lemma sort_desc_perm (l : list A) : Permutation (Py.sort_desc key l) l.
Proof.
  induction l as [|x l IH]; simpl; [reflexivity|].
  rewrite insert_desc_perm. constructor. exact IH.
Qed.

Lemma insert_desc_sorted (x : A) (l : list A) :
  StronglySorted (desc key) l -> StronglySorted (desc key) (Py.insert_desc key x l).
Proof.
  induction 1 as [|y l Hl IH Hy]; simpl; [repeat constructor|].
  destruct (Py.ltb (key x) (key y)) eqn:E.
  - apply ltb_true in E. constructor; [exact IH|].
    rewrite insert_desc_perm. constructor; [unfold desc; lra | exact Hy].
  - apply ltb_false in E. constructor; [constructor; assumption|].
    constructor; [exact E|].
    eapply Forall_impl; [exact Hy|]. unfold desc. intros z Hz. simpl in Hz. lra.
Qed.

Lemma sort_desc_sorted (l : list A) : StronglySorted (desc key) (Py.sort_desc key l).
Proof.
  induction l as [|x l IH]; simpl; [constructor|].
  apply insert_desc_sorted. exact IH.
Qed.

Lemma before_cons (z a b : A) (l : list A) : before a b l -> before a b (z :: l).
Proof. intros (l1 & l2 & l3 & ->). exists (z :: l1), l2, l3. reflexivity. Qed.

Lemma before_head (a b : A) (l : list A) : b ∈ l -> before a b (a :: l).
Proof.
  intros H. apply list_elem_of_split in H as (l2 & l3 & ->).
  exists [], l2, l3. reflexivity.
Qed.

Lemma insert_desc_before_new (x y : A) (l : list A) :
  y ∈ l -> (key y <= key x)%Q -> before x y (Py.insert_desc key x l).
Proof.
  intros Hy Hk. induction l as [|z l IH]; [inversion Hy|]. simpl.
  destruct (Py.ltb (key x) (key z)) eqn:E.
  - apply ltb_true in E. apply elem_of_cons in Hy as [->|Hy]; [lra|].
    apply before_cons. apply IH. exact Hy.
  - apply before_head. exact Hy.
Qed.

Lemma insert_desc_before_old (x a b : A) (l : list A) :
  before a b l -> before a b (Py.insert_desc key x l).
Proof.
  induction l as [|z l IH]; intros (l1 & l2 & l3 & E).
  { destruct l1; discriminate E. }
  simpl. destruct (Py.ltb (key x) (key z)).
  - destruct l1 as [|z' l1]; simplify_eq/=.
    + apply before_head. rewrite insert_desc_perm. right.
      apply elem_of_app. right. left.
    + apply before_cons. apply IH. exists l1, l2, l3. reflexivity.
  - apply before_cons. exists l1, l2, l3. exact E.
Qed.

(** The sort is stable: an element that precedes another one with a key
    that is not larger still precedes it after sorting. *)
Lemma sort_desc_stable (x y : A) (l : list A) :
  before x y l -> (key y <= key x)%Q -> before x y (Py.sort_desc key l).
Proof.
  intros H Hk. induction l as [|z l IH].
  { destruct H as (l1 & l2 & l3 & E). destruct l1; discriminate E. }
  simpl. destruct H as (l1 & l2 & l3 & E).
  destruct l1 as [|z' l1]; simplify_eq/=.
  - apply insert_desc_before_new; [|exact Hk].
    rewrite sort_desc_perm. apply elem_of_app. right. left.
  - apply insert_desc_before_old. apply IH. exists l1, l2, l3. reflexivity.
Qed.
End Sorting.

Lemma before_lookup {A} (x y : A) (l : list A) (i j : nat) :
  l !! i = Some x -> l !! j = Some y -> (i < j)%nat -> before x y l.
Proof.
  intros Hi Hj Hlt.
  pose proof (take_drop_middle l i x Hi) as E.
  assert (Hd : drop (S i) l !! (j - S i)%nat = Some y).
  { rewrite lookup_drop. replace (S i + (j - S i))%nat with j by lia. exact Hj. }
  apply list_elem_of_lookup_2, list_elem_of_split in Hd as (l2 & l3 & Hd).
  exists (take i l), l2, l3. rewrite <- Hd. symmetry. exact E.
Qed.

Lemma lookup_before {A} (x y : A) (l : list A) :
  before x y l ->
  exists i j, (i < j)%nat /\ l !! i = Some x /\ l !! j = Some y.
Proof.
  intros (l1 & l2 & l3 & ->).
  exists (length l1), (length l1 + S (length l2))%nat. split; [lia|]. split.
  - rewrite lookup_app_r by lia. replace (length l1 - length l1)%nat with 0%nat by lia.
    reflexivity.
  - rewrite lookup_app_r by lia.
    replace (length l1 + S (length l2) - length l1)%nat with (S (length l2)) by lia.
    simpl. rewrite lookup_app_r by lia.
    replace (length l2 - length l2)%nat with 0%nat by lia. reflexivity.
Qed.

Lemma StronglySorted_lookup {A} (R : A -> A -> Prop) (l : list A) (i j : nat) (a b : A) :
  StronglySorted R l -> (i < j)%nat -> l !! i = Some a -> l !! j = Some b -> R a b.
Proof.
  intros H. revert i j. induction H as [|x l Hl IH Hx]; intros i j Hlt Hi Hj.
  { rewrite lookup_nil in Hi. discriminate. }
  destruct j as [|j]; [lia|]. simpl in Hj.
  destruct i as [|i]; simpl in Hi.
  - injection Hi as ->. rewrite Forall_forall in Hx. apply Hx.
    eapply list_elem_of_lookup_2. exact Hj.
  - apply (IH i j); [lia | assumption | assumption].
Qed.

(** ** A batch *)

Lemma for_each_Ok {A B} (f : A -> Eng B) (xs : list A) (log : list event)
    (ys : list B) :
  for_each f xs = (log, Ok ys) ->
  Forall2 (fun x y => exists l, f x = (l, Ok y)) xs ys.
Proof.
  revert log ys. induction xs as [|x xs IH]; intros log ys H.
  - apply Eng_ret_Ok in H as [<- _]. constructor.
  - cbn [for_each] in H. eng_inv H. apply Eng_ret_Ok in H as [<- _].
    constructor; [eauto | eapply IH; eassumption].
Qed.

Lemma to_ranked_Ok (k : nat) (m : SingleMatchResponse.t) (x : RankedMatchResult.t) :
  to_ranked (k, m) = Ok x ->
  RankedMatchResult.rank x = k /\
  RankedMatchResult.candidate_id x = SingleMatchResponse.candidate_id m /\
  RankedMatchResult.compatibility_score x
    = SingleMatchResponse.compatibility_score m.
Proof.
  unfold to_ranked, RankedMatchResult.new.
  match goal with |- context [if ?c then _ else _] => destruct c end;
    [|discriminate].
  intros [= <-]. auto.
Qed.

Lemma ranked_enumerate (start : nat) (sorted : list SingleMatchResponse.t)
    (log : list event) (ranked : list RankedMatchResult.t) :
  for_each (fun entry => lift (to_ranked entry)) (Py.enumerate start sorted)
    = (log, Ok ranked) ->
  Forall2 ranks sorted ranked /\
  map RankedMatchResult.rank ranked = seq start (length sorted).
Proof.
  revert start log ranked. induction sorted as [|m sorted IH]; intros start log ranked H.
  - apply Eng_ret_Ok in H as [<- _]. split; [constructor | reflexivity].
  - cbn [Py.enumerate for_each] in H. eng_inv H.
    apply Eng_ret_Ok in H as [<- _].
    apply lift_Ok in Hstep as [Hx _]. apply to_ranked_Ok in Hx as (Hr & Hid & Hsc).
    apply IH in Hstep0 as [Hall Hranks]. split.
    + constructor; [split; assumption | exact Hall].
    + simpl. rewrite Hr, Hranks. reflexivity.
Qed.

Section Batch.
Variable cos_sim : string -> string -> float.
Variable float_str : float -> string.
Variable settings : gmap string float.

Lemma match_batch_Ok (candidates : list CandidateSchema.t) (job : JobSchema.t)
    (log : list event) (ranked : list RankedMatchResult.t) (average : float)
    (top : list string) :
  match_batch cos_sim float_str settings candidates job
    = (log, Ok (ranked, average, top)) ->
  exists singles,
    Forall2 (single_of cos_sim float_str settings job) candidates singles /\
    Forall2 ranks
      (Py.sort_desc SingleMatchResponse.compatibility_score singles) ranked /\
    map RankedMatchResult.rank ranked = seq 1 (length singles).
Proof.
  unfold match_batch. intros H. eng_inv H.
  apply Eng_ret_Ok in H as [[= <- _ _] _].
  apply for_each_Ok in Hstep. apply ranked_enumerate in Hstep0 as [H1 H2].
  exists a. split; [exact Hstep|]. split; [exact H1|].
  rewrite H2. f_equal. apply Permutation_length, sort_desc_perm.
Qed.

Lemma single_of_id (job : JobSchema.t) (candidate : CandidateSchema.t)
    (m : SingleMatchResponse.t) :
  single_of cos_sim float_str settings job candidate m ->
  SingleMatchResponse.candidate_id m = CandidateSchema.id candidate.
Proof.
  intros [l H]. apply match_single_Ok in H.
  destruct H as (? & ? & ? & ? & ? & ? & ? & ? & ? & ? & ? & ? & H).
  apply H.
Qed.

Lemma singles_ids (job : JobSchema.t) (candidates : list CandidateSchema.t)
    (singles : list SingleMatchResponse.t) :
  Forall2 (single_of cos_sim float_str settings job) candidates singles ->
  map SingleMatchResponse.candidate_id singles
  = map CandidateSchema.id candidates.
Proof.
  induction 1 as [|c m cs ms H _ IH]; simpl; [reflexivity|].
  rewrite IH, (single_of_id job c m H). reflexivity.
Qed.

Lemma ranked_ids (sorted : list SingleMatchResponse.t)
    (ranked : list RankedMatchResult.t) :
  Forall2 ranks sorted ranked ->
  map RankedMatchResult.candidate_id ranked
  = map SingleMatchResponse.candidate_id sorted.
Proof.
  induction 1 as [|m x ms xs [H _] _ IH]; simpl; [reflexivity|].
  rewrite IH, H. reflexivity.
Qed.

Lemma NoDup_fmap_lookup {A B} (f : A -> B) (l : list A) (p q : nat) (x y : A) :
  NoDup (map f l) -> l !! p = Some x -> l !! q = Some y -> f x = f y -> p = q.
Proof.
  intros Hnd Hp Hq E.
  apply (NoDup_lookup (map f l) p q (f x) Hnd).
  - change (map f l) with (f <$> l). rewrite list_lookup_fmap, Hp. reflexivity.
  - change (map f l) with (f <$> l). rewrite list_lookup_fmap, Hq, E. reflexivity.
Qed.

Lemma seq_rank (ranked : list RankedMatchResult.t) (n p : nat)
    (x : RankedMatchResult.t) :
  map RankedMatchResult.rank ranked = seq 1 n -> ranked !! p = Some x ->
  RankedMatchResult.rank x = S p.
Proof.
  intros Hr Hp.
  assert (H : (RankedMatchResult.rank <$> ranked) !! p
              = Some (RankedMatchResult.rank x))
    by (rewrite list_lookup_fmap, Hp; reflexivity).
  change (RankedMatchResult.rank <$> ranked)
    with (map RankedMatchResult.rank ranked) in H.
  rewrite Hr in H. apply lookup_seq in H as [H _]. rewrite H. reflexivity.
Qed.

(** C3: the ranks of a batch are 1, 2, ..., N in the order of the result
    list and every candidate is ranked once; the list is in order of
    non-increasing compatibility score; and of two candidates with equal
    scores the one earlier in the input has the smaller rank. *)
Theorem match_batch_ranking (candidates : list CandidateSchema.t)
    (job : JobSchema.t) (log : list event)
    (ranked : list RankedMatchResult.t) (average : float) (top : list string) :
  candidates <> [] -> unique_ids candidates ->
  match_batch cos_sim float_str settings candidates job
    = (log, Ok (ranked, average, top)) ->
  map RankedMatchResult.rank ranked = seq 1 (length candidates) /\
  Permutation (map RankedMatchResult.candidate_id ranked)
              (map CandidateSchema.id candidates) /\
  (forall i j a b, (i < j)%nat ->
     ranked !! i = Some a -> ranked !! j = Some b ->
     (RankedMatchResult.compatibility_score b
      <= RankedMatchResult.compatibility_score a)%Q) /\
  (forall i j ci cj a b, (i < j)%nat ->
     candidates !! i = Some ci -> candidates !! j = Some cj ->
     a ∈ ranked -> b ∈ ranked ->
     RankedMatchResult.candidate_id a = CandidateSchema.id ci ->
     RankedMatchResult.candidate_id b = CandidateSchema.id cj ->
     (RankedMatchResult.compatibility_score a
      == RankedMatchResult.compatibility_score b)%Q ->
     (RankedMatchResult.rank a < RankedMatchResult.rank b)%nat).
Proof.
  intros _ Huniq H.
  apply match_batch_Ok in H as (singles & Hsingles & Hranked & Hranks).
  set (score := SingleMatchResponse.compatibility_score) in *.
  set (sorted := Py.sort_desc score singles) in *.
  pose proof (sort_desc_perm score singles) as Hperm. fold sorted in Hperm.
  pose proof (sort_desc_sorted score singles) as Hsorted. fold sorted in Hsorted.
  pose proof (singles_ids job candidates singles Hsingles) as Hids.
  pose proof (ranked_ids sorted ranked Hranked) as Hrids.
  assert (Hlen : length singles = length candidates).
  { symmetry. eapply Forall2_length. exact Hsingles. }
  assert (Hnd : NoDup (map SingleMatchResponse.candidate_id sorted)).
  { rewrite Hperm, Hids. exact Huniq. }
  split; [rewrite Hranks, Hlen; reflexivity|].
  split; [rewrite Hrids, Hperm, Hids; reflexivity|].
  split.
  - intros i j a b Hlt Ha Hb.
    destruct (Forall2_lookup_r _ _ _ _ _ Hranked Ha) as (ma & Hma & _ & ->).
    destruct (Forall2_lookup_r _ _ _ _ _ Hranked Hb) as (mb & Hmb & _ & ->).
    apply (StronglySorted_lookup _ _ i j ma mb Hsorted Hlt Hma Hmb).
  - intros i j ci cj a b Hlt Hci Hcj Ha Hb Hida Hidb Heq.
    apply list_elem_of_lookup in Ha as [p Hp]. apply list_elem_of_lookup in Hb as [q Hq].
    rewrite (seq_rank ranked _ p a Hranks Hp), (seq_rank ranked _ q b Hranks Hq).
    destruct (Forall2_lookup_r _ _ _ _ _ Hranked Hp) as (ma & Hma & Hma_id & Hma_sc).
    destruct (Forall2_lookup_r _ _ _ _ _ Hranked Hq) as (mb & Hmb & Hmb_id & Hmb_sc).
    destruct (Forall2_lookup_l _ _ _ _ _ Hsingles Hci) as (mi & Hmi & Hsi).
    destruct (Forall2_lookup_l _ _ _ _ _ Hsingles Hcj) as (mj & Hmj & Hsj).
    apply single_of_id in Hsi, Hsj.
    assert (Hbef : before mi mj singles) by (eapply before_lookup; eassumption).
    assert (Hin : forall m k, singles !! k = Some m -> exists k', sorted !! k' = Some m).
    { intros m k Hk. apply list_elem_of_lookup. rewrite Hperm.
      eapply list_elem_of_lookup_2. exact Hk. }
    destruct (Hin mi i Hmi) as [p' Hp']. destruct (Hin mj j Hmj) as [q' Hq'].
    assert (p' = p) as ->.
    { eapply (NoDup_fmap_lookup _ sorted); [exact Hnd | exact Hp' | exact Hma |]. congruence. }
    assert (q' = q) as ->.
    { eapply (NoDup_fmap_lookup _ sorted); [exact Hnd | exact Hq' | exact Hmb |]. congruence. }
    assert (ma = mi) as -> by congruence. assert (mb = mj) as -> by congruence.
    rewrite Hma_sc, Hmb_sc in Heq.
    assert (Hkey : (score mj <= score mi)%Q) by (unfold score; rewrite Heq; lra).
    apply (sort_desc_stable score mi mj singles Hbef) in Hkey.
    fold sorted in Hkey. apply lookup_before in Hkey as (p2 & q2 & Hlt2 & Hp2 & Hq2).
    assert (p2 = p) as ->
      by (eapply (NoDup_fmap_lookup _ sorted); [exact Hnd | exact Hp2 | exact Hma | reflexivity]).
    assert (q2 = q) as ->
      by (eapply (NoDup_fmap_lookup _ sorted); [exact Hnd | exact Hq2 | exact Hmb | reflexivity]).
    lia.
Qed.
End Batch.

Lemma for_each_returns {A B} (f : A -> Eng B) (xs : list A) :
  Forall (fun x => exists l y, f x = (l, Ok y)) xs ->
  exists log ys, for_each f xs = (log, Ok ys).
Proof.
  induction 1 as [|x xs (l & y & Hx) _ (log & ys & IH)].
  - exists [], []. reflexivity.
  - exists (l ++ (log ++ [])), (y :: ys). cbn [for_each].
    eapply Eng_bind_run; [exact Hx|].
    eapply Eng_bind_run; [exact IH|]. reflexivity.
Qed.

Lemma to_ranked_returns (k : nat) (m : SingleMatchResponse.t) :
  (1 <= k)%nat -> validated m -> exists x, to_ranked (k, m) = Ok x.
Proof.
  intros Hk [Hs [Hp0 Hp1]]. unfold to_ranked, RankedMatchResult.new.
  apply in_unit_true in Hs. rewrite Hs.
  apply Z.leb_le in Hp0, Hp1. rewrite Hp0, Hp1.
  apply Nat.leb_le in Hk. rewrite Hk. cbn [andb]. eauto.
Qed.

Lemma enumerate_ranked_returns (start : nat) (sorted : list SingleMatchResponse.t) :
  (1 <= start)%nat -> Forall validated sorted ->
  Forall (fun entry => exists l y, lift (to_ranked entry) = (l, Ok y))
         (Py.enumerate start sorted).
Proof.
  intros Hs H. revert start Hs.
  induction H as [|m sorted Hm _ IH]; intros start Hs; simpl; constructor.
  - destruct (to_ranked_returns start m Hs Hm) as [x Hx].
    exists [], x. unfold lift. rewrite Hx. reflexivity.
  - apply IH. lia.
Qed.

Section BatchRuns.
Variable cos_sim : string -> string -> float.
Variable float_str : float -> string.
Variable settings : gmap string float.

Lemma match_single_validated (candidate : CandidateSchema.t) (job : JobSchema.t)
    (log : list event) (r : SingleMatchResponse.t) :
  match_single cos_sim float_str settings candidate job = (log, Ok r) ->
  validated r.
Proof.
  unfold match_single. intros H.
  eng_inv H. destruct a as [[skills_score matched] missing]. eng_inv H.
  apply lift_Ok in H as [Hr _].
  apply SingleMatchResponse_new_Ok in Hr as (-> & Hscore & Hpct).
  split; assumption.
Qed.

(** On a usable settings object, for validated candidates and a job with
    a non-negative requirement, the batch runs to its end. *)
Lemma match_batch_returns (candidates : list CandidateSchema.t) (job : JobSchema.t) :
  usable_settings settings -> Forall CandidateSchema.valid candidates ->
  nonneg_requirement job ->
  exists log ranked average top,
    match_batch cos_sim float_str settings candidates job
      = (log, Ok (ranked, average, top)).
Proof.
  intros Hset Hc Hj. unfold match_batch.
  destruct (for_each_returns
              (fun candidate => match_single cos_sim float_str settings candidate job)
              candidates) as (log1 & singles & Hrun1).
  { eapply Forall_impl; [exact Hc|]. intros c Hv.
    apply match_single_returns; assumption. }
  assert (Hval : Forall validated singles).
  { apply for_each_Ok in Hrun1. clear -Hrun1.
    induction Hrun1 as [|c m cs ms [l H] _ IH]; constructor; [|exact IH].
    eapply match_single_validated. exact H. }
  destruct (for_each_returns (fun entry => lift (to_ranked entry))
              (Py.enumerate 1
                 (Py.sort_desc SingleMatchResponse.compatibility_score singles)))
    as (log2 & ranked & Hrun2).
  { apply enumerate_ranked_returns; [lia|].
    rewrite sort_desc_perm. exact Hval. }
  eexists _, _, _, _.
  eapply Eng_bind_run; [exact Hrun1|].
  eapply Eng_bind_run; [exact Hrun2|]. reflexivity.
Qed.
End BatchRuns.

(** The tie of the first and the third candidate is broken by the input
    order: ranks 1, 2, 3 go to c-a, c-c and c-b. *)
Lemma match_batch_ranking_witness :
  exists log ranked average top,
    match_batch sample_similarity sample_float_str sample_settings
                tied_batch python_job = (log, Ok (ranked, average, top))
    /\ map RankedMatchResult.rank ranked = [1; 2; 3]%nat
    /\ map RankedMatchResult.candidate_id ranked = ["c-a"; "c-c"; "c-b"].
Proof.
  eassert (H : match_batch sample_similarity sample_float_str sample_settings
                 tied_batch python_job = (_, Ok (_, _, _)))
    by (vm_compute; reflexivity).
  assert (Hne : tied_batch <> []) by discriminate.
  assert (Huniq : unique_ids tied_batch).
  { unfold unique_ids. vm_compute.
    repeat (constructor;
            [rewrite ?elem_of_cons, ?elem_of_nil; intuition discriminate|]).
    constructor. }
  destruct (match_batch_ranking _ _ _ _ _ _ _ _ _ Hne Huniq H) as (Hranks & _).
  eexists _, _, _, _. split; [exact H|]. split.
  - exact Hranks.
  - reflexivity.
Defined.

(** * Further properties of the service *)

(** ** The similarity service *)

Lemma nonempty_str_false (s : string) : Py.nonempty_str s = false <-> s = EmptyString.
Proof. destruct s; simpl; split; congruence. Qed.

Lemma nonempty_str_true (s : string) : Py.nonempty_str s = true <-> s <> EmptyString.
Proof. destruct s; simpl; split; congruence. Qed.

(** X1: [match_text_semantic] always answers with a score in [0,1]; when
    one of the texts is empty the score is 0.0 and the model is not called;
    otherwise the model is called once, on the two texts, and the score is
    the cosine similarity cut to [0,1]. *)
Theorem match_text_semantic_behaviour (cos_sim : string -> string -> float)
    (candidate_text job_text : string) :
  exists log v,
    match_text_semantic cos_sim candidate_text job_text = (log, Ok v)
    /\ unit_range v
    /\ (candidate_text = EmptyString \/ job_text = EmptyString ->
        log = [] /\ v = 0%Q)
    /\ (candidate_text <> EmptyString -> job_text <> EmptyString ->
        log = [Encode [candidate_text; job_text]]
        /\ v = Py.max 0 (Py.min 1 (cos_sim candidate_text job_text))).
Proof.
  unfold match_text_semantic.
  destruct (Py.nonempty_str candidate_text) eqn:Ec;
    destruct (Py.nonempty_str job_text) eqn:Ej; cbn [negb orb].
  - apply nonempty_str_true in Ec, Ej.
    eexists _, _. split; [reflexivity|]. split; [apply clamp_range|].
    split; [intros [H|H]; contradiction | auto].
  - apply nonempty_str_false in Ej. exists [], 0%Q.
    split; [reflexivity|]. split; [unfold unit_range; lra|].
    split; [auto | intros _ H; contradiction].
  - apply nonempty_str_false in Ec. exists [], 0%Q.
    split; [reflexivity|]. split; [unfold unit_range; lra|].
    split; [auto | intros H; contradiction].
  - apply nonempty_str_false in Ec. exists [], 0%Q.
    split; [reflexivity|]. split; [unfold unit_range; lra|].
    split; [auto | intros H; contradiction].
Qed.

Lemma clamp_all (f : string -> float) (texts : list string) :
  Forall unit_range (map (fun other => Py.max 0 (Py.min 1 (f other))) texts).
Proof.
  induction texts as [|t ts IH]; simpl; constructor;
    [apply clamp_range | apply IH].
Qed.

(** X2: [calculate_batch_similarity] answers with one score in [0,1] per
    text, in the order of the texts; for an empty list it answers the empty
    list without calling the model, otherwise it calls the model twice, on
    the query and on the texts. *)
Theorem calculate_batch_similarity_behaviour (cos_sim : string -> string -> float)
    (text : string) (texts : list string) :
  exists log sims,
    calculate_batch_similarity cos_sim text texts = (log, Ok sims)
    /\ length sims = length texts
    /\ Forall unit_range sims
    /\ (forall i other, texts !! i = Some other ->
        sims !! i = Some (Py.max 0 (Py.min 1 (cos_sim text other))))
    /\ (texts = [] -> log = [])
    /\ (texts <> [] -> log = [Encode [text]; Encode texts]).
Proof.
  set (clamp := fun other => Py.max 0 (Py.min 1 (cos_sim text other))).
  assert (Hlen : length (map clamp texts) = length texts) by apply length_map.
  assert (Hall : Forall unit_range (map clamp texts)).
  { apply clamp_all. }
  assert (Hlook : forall i other, texts !! i = Some other ->
                    map clamp texts !! i = Some (clamp other)).
  { intros i other H. change (map clamp texts) with (clamp <$> texts).
    rewrite list_lookup_fmap, H. reflexivity. }
  unfold calculate_batch_similarity. destruct texts as [|t ts].
  - exists [], []. split; [reflexivity|]. split; [reflexivity|].
    split; [constructor|]. split; [intros i other H; inversion H|].
    split; [reflexivity | congruence].
  - eexists _, _. split; [reflexivity|]. fold clamp.
    split; [exact Hlen|]. split; [exact Hall|]. split; [exact Hlook|].
    split; [discriminate | reflexivity].
Qed.

Lemma sum_lower_bound (b : float) (xs : list float) (acc : float) :
  Forall (fun x => (b <= x)%Q) xs ->
  (acc + b * inject_Z (Z.of_nat (length xs)) <= fold_left Qplus xs acc)%Q.
Proof.
  intros H. revert acc. induction H as [|x xs Hx _ IH]; intros acc.
  - cbn [fold_left length]. change (inject_Z (Z.of_nat 0)) with 0%Q. lra.
  - cbn [fold_left length]. specialize (IH (acc + x)%Q).
    rewrite Nat2Z.inj_succ. unfold Z.succ. rewrite inject_Z_plus.
    change (inject_Z 1) with 1%Q.
    set (n := inject_Z (Z.of_nat (length xs))) in *. lra.
Qed.

Lemma mean_lower_bound (b : float) (xs : list float) :
  xs <> [] -> Forall (fun x => (b <= x)%Q) xs -> (b <= Py.mean xs)%Q.
Proof.
  intros Hne H. unfold Py.mean, Py.sum.
  pose proof (sum_lower_bound b xs 0 H) as Hs.
  assert (Hn : (0 < inject_Z (Z.of_nat (length xs)))%Q).
  { change 0%Q with (inject_Z 0). rewrite <- Zlt_Qlt.
    destruct xs; [congruence | simpl; lia]. }
  apply Qle_shift_div_l; [exact Hn | lra].
Qed.

Lemma accepted_at_least (xs : list float) :
  Forall (fun x => (7 # 10 <= x)%Q)
         (List.filter (fun similarity => Py.leb (7 # 10) similarity) xs).
Proof.
  induction xs as [|x xs IH]; simpl; [constructor|].
  destruct (Py.leb (7 # 10) x) eqn:E; [|exact IH].
  apply leb_true in E. constructor; [exact E | exact IH].
Qed.

Lemma semantic_loop_sublist (cos_sim : string -> string -> float)
    (first : string) (others job_skills : list string) :
  sublist (semantic_loop cos_sim first others job_skills).1 job_skills /\
  length (semantic_loop cos_sim first others job_skills).1
  = length (semantic_loop cos_sim first others job_skills).2.
Proof.
  induction job_skills as [|j js [IH1 IH2]]; simpl; [split; constructor|].
  destruct (semantic_loop cos_sim first others js) as [m sc]. simpl in *.
  destruct (Py.leb (7 # 10) (row_max cos_sim j first others)); simpl; split.
  - apply sublist_skip. exact IH1.
  - rewrite IH2. reflexivity.
  - apply sublist_cons. exact IH1.
  - exact IH2.
Qed.

Lemma match_skills_semantic_facts (cos_sim : string -> string -> float)
    (candidate_skills job_skills : list string) :
  exists log avg_score matched,
    match_skills_semantic cos_sim candidate_skills job_skills
      = (log, Ok (avg_score, matched))
    /\ sublist matched (map normalize job_skills)
    /\ (matched = [] -> avg_score = 0%Q)
    /\ (matched <> [] -> (7 # 10 <= avg_score)%Q)
    /\ (candidate_skills = [] \/ job_skills = [] -> log = [])
    /\ (candidate_skills <> [] -> job_skills <> [] ->
        log = [Encode (map normalize candidate_skills);
               Encode (map normalize job_skills)]).
Proof.
  unfold match_skills_semantic.
  destruct candidate_skills as [|c cs].
  { exists [], 0%Q, []. cbn. split; [reflexivity|].
    split; [apply sublist_nil_l|]. repeat split; auto; congruence. }
  destruct job_skills as [|j js].
  { exists [], 0%Q, []. cbn. split; [reflexivity|].
    split; [constructor|]. repeat split; auto; congruence. }
  cbn [map].
  pose proof (semantic_loop_sublist cos_sim (normalize c) (map normalize cs)
                (normalize j :: map normalize js)) as [Hsub Hlen].
  pose proof (semantic_loop_scores cos_sim (normalize c) (map normalize cs)
                (normalize j :: map normalize js)) as Hsc.
  destruct (semantic_loop cos_sim (normalize c) (map normalize cs)
              (normalize j :: map normalize js)) as [m sc].
  cbn [fst snd] in Hsub, Hlen, Hsc.
  eexists _, _, m. split; [reflexivity|]. split; [exact Hsub|].
  split; [|split; [|split]].
  - intros ->. destruct sc; [reflexivity | discriminate Hlen].
  - intros Hm. assert (Hne : sc <> []) by (destruct sc, m; simpl in *; congruence).
    destruct sc as [|x sc']; [congruence|]. cbn [Py.nonempty].
    apply mean_lower_bound; [discriminate|]. rewrite Hsc. apply accepted_at_least.
  - intros [H|H]; discriminate H.
  - intros _ _. reflexivity.
Qed.

(** X3: [match_skills_semantic] always answers; the skills it reports are
    a sub-list of the normalised job skills, in their order; its score is
    0.0 when it reports no skill and at least 0.7 when it reports one; and
    it calls the model only when both lists are non-empty. *)
Theorem match_skills_semantic_behaviour (cos_sim : string -> string -> float)
    (candidate_skills job_skills : list string) :
  exists log avg_score matched,
    match_skills_semantic cos_sim candidate_skills job_skills
      = (log, Ok (avg_score, matched))
    /\ sublist matched (map normalize job_skills)
    /\ (matched = [] -> avg_score = 0%Q)
    /\ (matched <> [] -> (7 # 10 <= avg_score)%Q)
    /\ (candidate_skills = [] \/ job_skills = [] -> log = [])
    /\ (candidate_skills <> [] -> job_skills <> [] ->
        log = [Encode (map normalize candidate_skills);
               Encode (map normalize job_skills)]).
Proof. apply match_skills_semantic_facts. Qed.

(** ** Splitting, stripping and casing of strings *)

Lemma split_pieces_no_sep (sep : ascii) (s : string) :
  PyStr.has_char sep (PyStr.split_pieces sep s).1 = false /\
  Forall (fun piece => PyStr.has_char sep piece = false)
         (PyStr.split_pieces sep s).2.
Proof.
  induction s as [|c t [IH1 IH2]]; simpl; [split; [reflexivity | constructor]|].
  destruct (PyStr.split_pieces sep t) as [piece pieces]. simpl in *.
  destruct (Ascii.eqb c sep) eqn:E; simpl.
  - split; [reflexivity | constructor; assumption].
  - rewrite E, IH1. split; [reflexivity | exact IH2].
Qed.

Lemma split_no_sep (sep : ascii) (s : string) :
  Forall (fun piece => PyStr.has_char sep piece = false) (PyStr.split sep s).
Proof.
  unfold PyStr.split. pose proof (split_pieces_no_sep sep s) as [H1 H2].
  destruct (PyStr.split_pieces sep s) as [piece pieces].
  constructor; assumption.
Qed.

Lemma split_length (sep : ascii) (s : string) :
  length (PyStr.split sep s) = S (PyStr.count_char sep s).
Proof.
  unfold PyStr.split. induction s as [|c t IH]; simpl; [reflexivity|].
  destruct (PyStr.split_pieces sep t) as [piece pieces]. simpl in IH.
  destruct (Ascii.eqb c sep); simpl; lia.
Qed.

Lemma split_pieces_without_sep (sep : ascii) (s : string) :
  PyStr.has_char sep s = false -> PyStr.split_pieces sep s = (s, []).
Proof.
  induction s as [|c t IH]; simpl; [reflexivity|].
  intros H. apply orb_false_iff in H as [Hc Ht].
  rewrite (IH Ht), Hc. reflexivity.
Qed.

Lemma has_char_lstrip (c : ascii) (s : string) :
  PyStr.has_char c s = false -> PyStr.has_char c (Py.lstrip s) = false.
Proof.
  induction s as [|d t IH]; simpl; [trivial|].
  intros H. destruct (Py.is_space d); [|exact H].
  apply orb_false_iff in H as [_ H]. apply IH, H.
Qed.

Lemma has_char_rstrip (c : ascii) (s : string) :
  PyStr.has_char c s = false -> PyStr.has_char c (Py.rstrip s) = false.
Proof.
  induction s as [|d t IH]; simpl; [trivial|].
  intros H. apply orb_false_iff in H as [Hd Ht]. specialize (IH Ht).
  destruct (Py.rstrip t) as [|e u].
  - destruct (Py.is_space d); simpl; [reflexivity | rewrite Hd; reflexivity].
  - cbn [PyStr.has_char]. rewrite Hd. exact IH.
Qed.

Lemma has_char_strip (c : ascii) (s : string) :
  PyStr.has_char c s = false -> PyStr.has_char c (Py.strip s) = false.
Proof. intros H. unfold Py.strip. apply has_char_rstrip, has_char_lstrip, H. Qed.

Lemma has_char_append (c : ascii) (a b : string) :
  PyStr.has_char c (a +:+ b) = PyStr.has_char c a || PyStr.has_char c b.
Proof.
  induction a as [|d t IH]; simpl; [reflexivity|].
  rewrite IH. apply orb_assoc.
Qed.

Lemma has_char_concat (c : ascii) (pieces : list string) :
  Forall (fun piece => PyStr.has_char c piece = false) pieces ->
  PyStr.has_char c (String.concat "" pieces) = false.
Proof.
  induction 1 as [|x l Hx Hl IH]; [reflexivity|].
  destruct l as [|y l'].
  - simpl. exact Hx.
  - change (String.concat "" (x :: y :: l'))
      with (x +:+ ("" +:+ String.concat "" (y :: l'))).
    rewrite has_char_append, Hx. simpl. exact IH.
Qed.

Lemma title_char_underscore (previous : bool) (c : ascii) :
  Ascii.eqb (if PyStr.is_cased c
             then if previous then Py.lower_char c else PyStr.upper_char c
             else c) "_"
  = Ascii.eqb c "_".
Proof. destruct previous, c as [[] [] [] [] [] [] [] []]; reflexivity. Qed.

Lemma has_underscore_title (previous : bool) (s : string) :
  PyStr.has_char "_" (PyStr.title_from previous s) = PyStr.has_char "_" s.
Proof.
  revert previous. induction s as [|c t IH]; intros previous; simpl; [reflexivity|].
  rewrite title_char_underscore, IH. reflexivity.
Qed.

Lemma append_empty_r (s : string) : s +:+ "" = s.
Proof.
  induction s as [|c t IH]; [reflexivity|].
  change (String c t +:+ "") with (String c (t +:+ "")). rewrite IH. reflexivity.
Qed.

(** X4: the camel-case alias of a field name contains no underscore, and a
    name without underscores is its own alias. *)
Theorem to_camel_no_underscore (s : string) :
  PyStr.has_char "_" (to_camel s) = false /\
  (PyStr.has_char "_" s = false -> to_camel s = s).
Proof.
  unfold to_camel. split.
  - pose proof (split_pieces_no_sep "_" s) as [H1 H2].
    destruct (PyStr.split_pieces "_" s) as [first rest]. simpl in H1, H2.
    rewrite has_char_append, H1. simpl. apply has_char_concat.
    clear H1. induction H2 as [|x l Hx _ IH]; simpl; constructor; [|exact IH].
    unfold PyStr.title. rewrite has_underscore_title. exact Hx.
  - intros H. rewrite (split_pieces_without_sep "_" s H). simpl.
    apply append_empty_r.
Qed.

Lemma lower_strip (s : string) : Py.lower (Py.strip s) = Py.strip (Py.lower s).
Proof. unfold Py.strip. rewrite lower_rstrip, lower_lstrip. reflexivity. Qed.

Lemma normalize_skills_fixed (skill : string) :
  normalize (Py.lower (Py.strip skill)) = Py.lower (Py.strip skill).
Proof.
  unfold normalize. rewrite lower_idem, lower_strip, strip_idem. reflexivity.
Qed.

(** X5: the engine's own normalisation leaves the skills that the schema
    validator produced as they are, so the skill set of a validated list is
    the set of its elements; and the validator is idempotent. *)
Theorem normalize_skills_then_engine (v : list string) :
  map normalize (normalize_skills v) = normalize_skills v /\
  skill_set (normalize_skills v) = list_to_set (normalize_skills v) /\
  normalize_skills (normalize_skills v) = normalize_skills v.
Proof.
  assert (H : map normalize (normalize_skills v) = normalize_skills v).
  { unfold normalize_skills. induction v as [|x v IH]; simpl; [reflexivity|].
    rewrite normalize_skills_fixed, IH. reflexivity. }
  split; [exact H|]. split.
  - unfold skill_set. rewrite H. reflexivity.
  - unfold normalize_skills. rewrite map_map. apply map_ext. intros x.
    rewrite lower_strip, lower_idem, <- lower_strip, strip_idem. reflexivity.
Qed.

Lemma Forall_filter_bool {A} (P : A -> Prop) (f : A -> bool) (l : list A) :
  Forall P l -> Forall (fun x => P x /\ f x = true) (List.filter f l).
Proof.
  induction 1 as [|x l Hx _ IH]; simpl; [constructor|].
  destruct (f x) eqn:E; [constructor; auto | exact IH].
Qed.

Lemma Forall_sublist {A} (P : A -> Prop) (l1 l2 : list A) :
  sublist l1 l2 -> Forall P l2 -> Forall P l1.
Proof.
  induction 1 as [|x l1 l2 _ IH|x l1 l2 _ IH]; intros H; [constructor| |].
  - inversion H; subst. constructor; auto.
  - inversion H; subst. auto.
Qed.

Lemma slice_to_sublist {A} (k : Z) (l : list A) : sublist (PyStr.slice_to k l) l.
Proof. unfold PyStr.slice_to. destruct (0 <=? k)%Z; apply sublist_take. Qed.

Lemma split_strip_clean (sep : ascii) (s : string) :
  Forall (fun piece => Py.strip piece = piece /\ PyStr.has_char sep piece = false)
         (map Py.strip (PyStr.split sep s)).
Proof.
  pose proof (split_no_sep sep s) as H.
  induction H as [|x l Hx _ IH]; simpl; constructor; [|exact IH].
  split; [apply strip_idem | apply has_char_strip, Hx].
Qed.

(** X6: no key phrase is empty, has white space at either end or contains a
    full stop; the phrases are at most [top_k] when [top_k] is not negative,
    and none at all for an empty text. *)
Theorem extract_key_phrases_clean (text : string) (top_k : Z) :
  Forall (fun phrase => phrase <> EmptyString /\ Py.strip phrase = phrase
                        /\ PyStr.has_char "." phrase = false)
         (extract_key_phrases text top_k) /\
  ((0 <= top_k)%Z -> (Z.of_nat (length (extract_key_phrases text top_k)) <= top_k)%Z) /\
  extract_key_phrases EmptyString top_k = [].
Proof.
  unfold extract_key_phrases. split; [|split].
  - eapply Forall_sublist; [apply slice_to_sublist|].
    eapply Forall_impl;
      [apply Forall_filter_bool, (split_strip_clean "." text)|].
    intros p [[Hs Hc] Hn]. cbn beta in *. split; [intros ->; discriminate Hn | auto].
  - intros Hk. unfold PyStr.slice_to. apply Z.leb_le in Hk. rewrite Hk.
    rewrite length_take. apply Z.leb_le in Hk. lia.
  - unfold PyStr.slice_to. simpl. destruct (0 <=? top_k)%Z; rewrite ?take_nil; reflexivity.
Qed.

(** X7: the list of CORS origins is never empty, has one origin more than
    the setting has commas, and no origin has white space at either end or
    contains a comma. *)
Theorem cors_origins_list_shape (CORS_ORIGINS : string) :
  length (cors_origins_list CORS_ORIGINS)
    = S (PyStr.count_char "," CORS_ORIGINS) /\
  Forall (fun origin => Py.strip origin = origin
                        /\ PyStr.has_char "," origin = false)
         (cors_origins_list CORS_ORIGINS).
Proof.
  unfold cors_origins_list. split.
  - rewrite length_map. apply split_length.
  - apply split_strip_clean.
Qed.

(** ** The batch request *)

Lemma size_list_to_set_le (ids : list string) :
  (size (list_to_set ids : gset string) <= length ids)%nat.
Proof.
  induction ids as [|x l IH].
  { change (list_to_set [] : gset string) with (∅ : gset string).
    rewrite size_empty. simpl. lia. }
  change (list_to_set (x :: l) : gset string)
    with ({[x]} ∪ list_to_set l : gset string). cbn [length].
  destruct (decide (x ∈ (list_to_set l : gset string))) as [Hin|Hout].
  - assert (E : ({[x]} ∪ list_to_set l : gset string) = list_to_set l)
      by (apply set_eq; intros y; rewrite elem_of_union, elem_of_singleton;
          split; [intros [->|H]; assumption | auto]).
    rewrite E. lia.
  - rewrite size_union by (apply disjoint_singleton_l; exact Hout).
    rewrite size_singleton. lia.
Qed.

Lemma size_list_to_set_NoDup (ids : list string) :
  length ids = size (list_to_set ids : gset string) <-> NoDup ids.
Proof.
  split; [|intros H; symmetry; apply size_list_to_set, H].
  induction ids as [|x l IH]; intros H; [constructor|].
  change (list_to_set (x :: l) : gset string)
    with ({[x]} ∪ list_to_set l : gset string) in H. cbn [length] in H.
  destruct (decide (x ∈ (list_to_set l : gset string))) as [Hin|Hout].
  - assert (E : ({[x]} ∪ list_to_set l : gset string) = list_to_set l)
      by (apply set_eq; intros y; rewrite elem_of_union, elem_of_singleton;
          split; [intros [->|H']; assumption | auto]).
    rewrite E in H. pose proof (size_list_to_set_le l). lia.
  - rewrite size_union in H by (apply disjoint_singleton_l; exact Hout).
    rewrite size_singleton in H. constructor.
    + intros Hx. apply Hout. apply elem_of_list_to_set. exact Hx.
    + apply IH. lia.
Qed.

(** X8: a batch request is accepted exactly when it has at least one
    candidate and the candidate ids are pairwise different; an accepted
    request holds the given candidates and job, a rejected one raises a
    validation error. *)
Theorem BatchMatchRequest_accepts (candidates : list CandidateSchema.t)
    (job : JobSchema.t) :
  (candidates <> [] /\ unique_ids candidates ->
   BatchMatchRequest.new candidates job
     = Ok {| BatchMatchRequest.candidates := candidates;
             BatchMatchRequest.job := job |}) /\
  (candidates = [] \/ ~ unique_ids candidates ->
   BatchMatchRequest.new candidates job
     = Raise (ValidationError "BatchMatchRequest")).
Proof.
  unfold BatchMatchRequest.new, BatchMatchRequest.validate_candidates, unique_ids.
  pose proof (size_list_to_set_NoDup (map CandidateSchema.id candidates)) as Hnd.
  destruct (Nat.eqb_spec (length (map CandidateSchema.id candidates))
              (size (list_to_set (map CandidateSchema.id candidates) : gset string)))
    as [E|E]; cbn [negb].
  - apply Hnd in E. split.
    + intros [Hne _]. destruct candidates; [congruence | reflexivity].
    + intros [->|H]; [reflexivity | contradiction].
  - assert (Hno : ~ NoDup (map CandidateSchema.id candidates))
      by (intros H; apply E, Hnd, H).
    split.
    + intros [_ H]. contradiction.
    + intros _. destruct (1 <=? length candidates)%nat; reflexivity.
Qed.

(** ** More on the skills matcher *)

Lemma filter_not_in_nil (l : list string) :
  filter (fun skill => skill ∉ ([] : list string)) l = l.
Proof.
  induction l as [|x l IH]; [reflexivity|].
  rewrite filter_cons_True by (intros H; inversion H). rewrite IH. reflexivity.
Qed.

(** The two lists of the skills matcher on a job with skills: the exact
    matches followed by the semantic ones, and the missing tokens without
    the semantic ones, which are a sub-list of the missing tokens. *)
Lemma calculate_skills_match_lists (cos_sim : string -> string -> float)
    (candidate : CandidateSchema.t) (job : JobSchema.t) :
  JobSchema.skills job <> [] ->
  let candidate_skills := skill_set (CandidateSchema.skills candidate) in
  let job_skills := skill_set (JobSchema.skills job) in
  exists log score semantic_matches,
    calculate_skills_match cos_sim candidate job
      = (log, Ok (score,
                  elements (candidate_skills ∩ job_skills) ++ semantic_matches,
                  filter (fun skill => skill ∉ semantic_matches)
                         (elements (job_skills ∖ candidate_skills))))
    /\ sublist semantic_matches (elements (job_skills ∖ candidate_skills))
    /\ (length log <= 2)%nat.
Proof.
  intros Hj C J.
  destruct (calculate_skills_match_unfold cos_sim candidate job Hj) as [_ Hex].
  fold C J in Hex.
  assert (Hplain : elements (J ∖ C) = [] \/ CandidateSchema.skills candidate = [] ->
    exists log score semantic_matches,
      calculate_skills_match cos_sim candidate job
        = (log, Ok (score, elements (C ∩ J) ++ semantic_matches,
                    filter (fun skill => skill ∉ semantic_matches)
                           (elements (J ∖ C))))
      /\ sublist semantic_matches (elements (J ∖ C))
      /\ (length log <= 2)%nat).
  { intros H. eexists [], _, []. rewrite app_nil_r, filter_not_in_nil.
    split; [apply Hex, H|]. split; [apply sublist_nil_l | simpl; lia]. }
  destruct (Py.nonempty (elements (J ∖ C))) eqn:Hm;
    [|apply Hplain; left; apply nonempty_false, Hm].
  destruct (Py.nonempty (CandidateSchema.skills candidate)) eqn:Hc;
    [|apply Hplain; right; apply nonempty_false, Hc].
  clear Hplain Hex.
  destruct (match_skills_semantic_facts cos_sim
              (CandidateSchema.skills candidate) (elements (J ∖ C)))
    as (log & avg & sem & Hrun & Hsub & _ & _ & _ & Hlog).
  assert (Hfix : map normalize (elements (J ∖ C)) = elements (J ∖ C)).
  { apply map_fixed. intros x Hx.
    apply elem_of_elements, elem_of_difference in Hx as [Hx _].
    apply (skill_set_normalized (JobSchema.skills job)). exact Hx. }
  rewrite Hfix in Hsub.
  specialize (Hlog ltac:(apply nonempty_true, Hc) ltac:(apply nonempty_true, Hm)).
  unfold calculate_skills_match.
  apply nonempty_true in Hj. rewrite Hj. cbn [negb].
  fold C J. rewrite Hm, Hc. cbn [andb].
  rewrite Hrun. cbn [mbind Eng_bind mret Eng_ret].
  eexists _, _, sem. split; [reflexivity|]. split; [exact Hsub|].
  rewrite Hlog. simpl. lia.
Qed.

(** X9: the skills matcher splits the job's skill tokens between its two
    lists: every token is in the matched list or in the missing list, no
    token is in both, and neither list repeats a token. *)
Theorem skills_lists_partition (cos_sim : string -> string -> float)
    (candidate : CandidateSchema.t) (job : JobSchema.t) :
  exists log score matched missing,
    calculate_skills_match cos_sim candidate job
      = (log, Ok (score, matched, missing))
    /\ NoDup matched /\ NoDup missing
    /\ (forall s, s ∈ skill_set (JobSchema.skills job)
                  <-> s ∈ matched \/ s ∈ missing)
    /\ (forall s, ~ (s ∈ matched /\ s ∈ missing)).
Proof.
  destruct (JobSchema.skills job) as [|j0 js] eqn:Hj.
  { exists [], 1%Q, [], []. split.
    - unfold calculate_skills_match. rewrite Hj. reflexivity.
    - split; [constructor|]. split; [constructor|]. split.
      + intros s. unfold skill_set. simpl. rewrite elem_of_empty.
        split; [contradiction | intros [H|H]; inversion H].
      + intros s [H _]. inversion H. }
  assert (Hne : JobSchema.skills job <> []) by (rewrite Hj; discriminate).
  rewrite <- Hj.
  destruct (calculate_skills_match_lists cos_sim candidate job Hne)
    as (log & score & sem & Hrun & Hsub & _).
  set (C := skill_set (CandidateSchema.skills candidate)) in *.
  set (J := skill_set (JobSchema.skills job)) in *.
  eexists _, _, _, _. split; [exact Hrun|].
  assert (Hsem : NoDup sem) by (eapply sublist_NoDup; [|exact Hsub]; apply NoDup_elements).
  assert (Hin : forall s, s ∈ sem -> s ∈ J /\ s ∉ C).
  { intros s Hs. apply (elem_of_sublist _ _ _ Hs) in Hsub as Hs'. clear Hs. rename Hs' into Hs.
    apply elem_of_elements, elem_of_difference in Hs. exact Hs. }
  split; [|split; [|split]].
  - apply NoDup_app. split; [apply NoDup_elements|]. split; [|exact Hsem].
    intros s Hs Hs'. apply elem_of_elements, elem_of_intersection in Hs as [Hs _].
    destruct (Hin s Hs'). contradiction.
  - apply NoDup_filter, NoDup_elements.
  - intros s. rewrite elem_of_app, list_elem_of_filter, !elem_of_elements,
      elem_of_intersection, elem_of_difference.
    split.
    + intros HJ. destruct (decide (s ∈ C)) as [HC|HC]; [left; left; auto|].
      destruct (decide (s ∈ sem)) as [Hs|Hs]; [left; right; exact Hs|].
      right. auto.
    + intros [[[_ H]|H]|[_ [H _]]]; [exact H | apply (Hin s H) | exact H].
  - intros s. rewrite elem_of_app, list_elem_of_filter, !elem_of_elements,
      elem_of_intersection, elem_of_difference.
    intros [[[HC _]|Hs] [Hn [_ HnC]]]; [exact (HnC HC) | exact (Hn Hs)].
Qed.

(** X10: for a candidate without skills and a job with skills the score is
    zero, nothing is matched, every job token is missing and the model is
    not called. *)
Theorem skills_match_without_skills (cos_sim : string -> string -> float)
    (candidate : CandidateSchema.t) (job : JobSchema.t) :
  CandidateSchema.skills candidate = [] -> JobSchema.skills job <> [] ->
  exists score,
    calculate_skills_match cos_sim candidate job
      = ([], Ok (score, [], elements (skill_set (JobSchema.skills job))))
    /\ (score == 0)%Q.
Proof.
  intros Hc Hj.
  destruct (calculate_skills_match_unfold cos_sim candidate job Hj) as [_ Hex].
  specialize (Hex (or_intror Hc)). rewrite Hc in Hex.
  change (skill_set []) with (∅ : gset string) in Hex.
  assert (E1 : (∅ : gset string) ∩ skill_set (JobSchema.skills job) = ∅)
    by (apply set_eq; intros x; rewrite elem_of_intersection, elem_of_empty; tauto).
  assert (E2 : skill_set (JobSchema.skills job) ∖ ∅ = skill_set (JobSchema.skills job))
    by (apply set_eq; intros x; rewrite elem_of_difference, elem_of_empty; tauto).
  rewrite E1, E2, elements_empty, size_empty in Hex.
  eexists. split; [exact Hex|].
  assert (Hz : (Py.len_div 0 (size (skill_set (JobSchema.skills job))) == 0)%Q).
  { unfold Py.len_div. change (inject_Z (Z.of_nat 0)) with 0%Q.
    unfold Qdiv. apply Qmult_0_l. }
  destruct (min_spec 1 (Py.len_div 0 (size (skill_set (JobSchema.skills job)))))
    as [[_ ->]|[Hle ->]]; [exact Hz | lra].
Qed.

Lemma skills_match_without_skills_witness :
  exists score,
    calculate_skills_match sample_similarity newcomer python_job
      = ([], Ok (score, [], ["python"]))
    /\ (score == 0)%Q.
Proof.
  destruct (skills_match_without_skills sample_similarity newcomer python_job)
    as (score & H & Hz); [reflexivity | discriminate |].
  exists score. split; [exact H | exact Hz].
Defined.

(** ** More on the calculators *)

Lemma experience_positive (candidate : CandidateSchema.t) (job : JobSchema.t)
    (r : float) :
  JobSchema.min_experience_years job = Some r -> (0 < r)%Q ->
  let c := CandidateSchema.experience_years candidate in
  (0 <= c)%Q ->
  ((r <= c)%Q -> calculate_experience_match candidate job = 1%Q) /\
  ((c < r)%Q ->
   (calculate_experience_match candidate job == c / r)%Q /\
   (calculate_experience_match candidate job < 1)%Q).
Proof.
  intros Hr Hpos c Hc. unfold calculate_experience_match. rewrite Hr. fold c.
  assert (Hnz : Py.eqb r 0 = false) by (apply eqb_false; intros E; lra).
  rewrite Hnz. split.
  - intros Hle. apply leb_true in Hle as Hb. rewrite Hb.
    assert (H0 : (0 <= Py.min (2 # 10) ((c - r) / (r * 2)))%Q).
    { apply min_glb; [lra|]. apply Qdiv_nonneg; lra. }
    destruct (min_spec 1 (1 + Py.min (2 # 10) ((c - r) / (r * 2)))%Q)
      as [[Hlt _]|[_ ->]]; [lra | reflexivity].
  - intros Hlt. apply leb_false in Hlt as Hb. rewrite Hb.
    assert (Hq0 : (0 <= c / r)%Q) by (apply Qdiv_nonneg; lra).
    assert (Hq1 : (c / r < 1)%Q) by (apply Qlt_shift_div_r; lra).
    destruct (max_spec 0 (c / r)%Q) as [[_ ->]|[Hle ->]]; split; lra.
Qed.

(** X11: against a positive requirement, more experience never lowers the
    experience score; the score is 1.0 exactly when the requirement is met,
    and below the requirement it is the ratio of the candidate's years to
    the required years. *)
Theorem experience_score_monotone (junior senior_ : CandidateSchema.t)
    (job : JobSchema.t) (r : float) :
  JobSchema.min_experience_years job = Some r -> (0 < r)%Q ->
  (0 <= CandidateSchema.experience_years junior)%Q ->
  (CandidateSchema.experience_years junior
   <= CandidateSchema.experience_years senior_)%Q ->
  (calculate_experience_match junior job
   <= calculate_experience_match senior_ job)%Q /\
  ((calculate_experience_match junior job == 1)%Q
   <-> (r <= CandidateSchema.experience_years junior)%Q) /\
  ((CandidateSchema.experience_years junior < r)%Q ->
   (calculate_experience_match junior job
    == CandidateSchema.experience_years junior / r)%Q).
Proof.
  intros Hr Hpos Hj Hle.
  destruct (experience_positive junior job r Hr Hpos Hj) as [Hj1 Hj2].
  destruct (experience_positive senior_ job r Hr Hpos ltac:(lra)) as [Hs1 Hs2].
  split; [|split].
  - destruct (Qlt_le_dec (CandidateSchema.experience_years junior) r) as [Hlt|Hge].
    + destruct (Hj2 Hlt) as [Ej Hj3].
      destruct (Qlt_le_dec (CandidateSchema.experience_years senior_) r) as [Hlt'|Hge'].
      * destruct (Hs2 Hlt') as [Es _]. rewrite Ej, Es.
        unfold Qdiv. apply Qmult_le_compat_r; [exact Hle|].
        apply Qinv_le_0_compat. lra.
      * rewrite (Hs1 Hge'). lra.
    + rewrite (Hj1 Hge), (Hs1 ltac:(lra)). lra.
  - split.
    + intros E. destruct (Qlt_le_dec (CandidateSchema.experience_years junior) r)
        as [Hlt|Hge]; [|exact Hge].
      destruct (Hj2 Hlt) as [_ H1]. lra.
    + intros Hge. rewrite (Hj1 Hge). reflexivity.
  - intros Hlt. apply (Hj2 Hlt).
Qed.

Lemma experience_score_monotone_witness :
  (calculate_experience_match newcomer ten_years_job
   <= calculate_experience_match senior ten_years_job)%Q /\
  (calculate_experience_match senior ten_years_job == 7 / 10)%Q.
Proof.
  destruct (experience_score_monotone newcomer senior ten_years_job 10%Q)
    as (H1 & _ & _);
    [reflexivity | reflexivity | vm_compute; discriminate
     | vm_compute; discriminate |].
  destruct (experience_score_monotone senior senior ten_years_job 10%Q)
    as (_ & _ & H3);
    [reflexivity | reflexivity | vm_compute; discriminate
     | vm_compute; discriminate |].
  split; [exact H1 | apply H3; reflexivity].
Defined.

Lemma append_nonempty_r (a b : string) : b <> EmptyString -> a +:+ b <> EmptyString.
Proof. destruct a; simpl; [trivial | discriminate]. Qed.

Lemma append_nonempty_l (a b : string) : a <> EmptyString -> a +:+ b <> EmptyString.
Proof. destruct a; simpl; [congruence | discriminate]. Qed.

Lemma concat_nonempty (sep x : string) (l : list string) :
  x <> EmptyString -> String.concat sep (x :: l) <> EmptyString.
Proof.
  intros H. destruct l as [|y l]; [exact H|].
  change (String.concat sep (x :: y :: l))
    with (x +:+ (sep +:+ String.concat sep (y :: l))).
  apply append_nonempty_l, H.
Qed.

Lemma edu_text_nonempty (edu : EducationSchema.t) : edu_text edu <> EmptyString.
Proof.
  unfold edu_text. apply append_nonempty_r, append_nonempty_l. discriminate.
Qed.

Lemma exp_text_nonempty (exp : ExperienceSchema.t) : exp_text exp <> EmptyString.
Proof.
  unfold exp_text. apply append_nonempty_r, append_nonempty_l. discriminate.
Qed.

Lemma match_text_semantic_nonempty (cos_sim : string -> string -> float)
    (a b : string) :
  a <> EmptyString -> b <> EmptyString ->
  match_text_semantic cos_sim a b
  = ([Encode [a; b]], Ok (Py.max 0 (Py.min 1 (cos_sim a b)))).
Proof.
  intros Ha Hb. unfold match_text_semantic.
  apply nonempty_str_true in Ha, Hb. rewrite Ha, Hb. reflexivity.
Qed.

(** X12: for a job whose requirements are ASCII text, on which
    [Py.lower] is [str.lower]: the education matcher answers 0.5 without
    calling the model when the candidate has no education or the job no
    requirements, 1.0 without calling it when the lower-cased requirements
    contain no education keyword, and otherwise asks the model once, for
    the education text against the lower-cased requirements, and answers
    its similarity cut to [0,1]. *)
Theorem calculate_education_match_cases (cos_sim : string -> string -> float)
    (candidate : CandidateSchema.t) (job : JobSchema.t) :
  Forall (fun requirement => Py.isascii requirement = true)
         (JobSchema.requirements job) ->
  let reqs_text := Py.lower (Py.join " " (JobSchema.requirements job)) in
  let combined :=
    Py.join ". " (map edu_text (CandidateSchema.education candidate)) in
  (CandidateSchema.education candidate = [] \/ JobSchema.requirements job = [] ->
   calculate_education_match cos_sim candidate job = ([], Ok (5 # 10)%Q)) /\
  (CandidateSchema.education candidate <> [] ->
   JobSchema.requirements job <> [] ->
   Py.any_in edu_keywords reqs_text = false ->
   calculate_education_match cos_sim candidate job = ([], Ok 1%Q)) /\
  (CandidateSchema.education candidate <> [] ->
   JobSchema.requirements job <> [] ->
   Py.any_in edu_keywords reqs_text = true ->
   calculate_education_match cos_sim candidate job
   = ([Encode [combined; reqs_text]],
      Ok (Py.max 0 (Py.min 1 (cos_sim combined reqs_text))))).
Proof.
  intros _ reqs_text combined. unfold calculate_education_match.
  fold reqs_text. split; [|split].
  - intros [H|H]; rewrite H; [reflexivity|].
    rewrite orb_true_r. reflexivity.
  - intros He Hr Hk. apply nonempty_true in He, Hr. rewrite He, Hr, Hk.
    reflexivity.
  - intros He Hr Hk. apply nonempty_true in He as Hb, Hr as Hb'.
    rewrite Hb, Hb', Hk. cbn [negb orb].
    destruct (CandidateSchema.education candidate) as [|e es] eqn:E;
      [congruence|].
    cbn [map Py.nonempty negb]. subst combined. cbn [map].
    apply match_text_semantic_nonempty.
    + apply concat_nonempty, edu_text_nonempty.
    + intros Ht. rewrite Ht in Hk. discriminate Hk.
Qed.

(** A graduate against a job that asks for a degree: the model is asked
    once, for the education text against the lower-cased requirement. *)
Lemma calculate_education_match_cases_witness :
  calculate_education_match sample_similarity graduate degree_job
  = ([Encode ["BSc in Computer Science from Universidad Nacional";
              "bachelor degree required"]], Ok 0%Q).
Proof.
  pose proof (calculate_education_match_cases sample_similarity graduate
                degree_job ltac:(repeat constructor)) as H.
  cbv zeta in H. destruct H as (_ & _ & H).
  rewrite H; [vm_compute; reflexivity | discriminate | discriminate
              | vm_compute; reflexivity].
Defined.

(** X13: the profile matcher answers 0.5 without calling the model exactly
    for a candidate with neither a summary nor an experience entry; for
    every other candidate it asks the model once and answers its
    similarity cut to [0,1]. *)
Theorem calculate_semantic_match_cases (cos_sim : string -> string -> float)
    (candidate : CandidateSchema.t) (job : JobSchema.t) :
  (Py.truthy_str (CandidateSchema.summary candidate) = false ->
   CandidateSchema.experience candidate = [] ->
   calculate_semantic_match cos_sim candidate job = ([], Ok (5 # 10)%Q)) /\
  (Py.truthy_str (CandidateSchema.summary candidate) = true
   \/ CandidateSchema.experience candidate <> [] ->
   exists candidate_text job_text,
     candidate_text <> EmptyString /\ job_text <> EmptyString /\
     calculate_semantic_match cos_sim candidate job
     = ([Encode [candidate_text; job_text]],
        Ok (Py.max 0 (Py.min 1 (cos_sim candidate_text job_text))))).
Proof.
  unfold calculate_semantic_match. split.
  - intros Hs He. rewrite Hs, He. reflexivity.
  - intros H.
    set (parts := (if Py.truthy_str (CandidateSchema.summary candidate)
                   then [Py.str_or_empty (CandidateSchema.summary candidate)]
                   else []) ++ map exp_text (CandidateSchema.experience candidate)).
    set (job_text := JobSchema.title job +:+ ". " +:+ JobSchema.description job
                     +:+ ". " +:+ Py.join " " (JobSchema.requirements job)).
    assert (Hc : Py.join " " parts <> EmptyString).
    { subst parts. destruct (Py.truthy_str (CandidateSchema.summary candidate)) eqn:Es.
      - apply concat_nonempty. apply nonempty_str_true. exact Es.
      - destruct H as [H|H]; [discriminate H|].
        destruct (CandidateSchema.experience candidate) as [|e es]; [congruence|].
        apply concat_nonempty, exp_text_nonempty. }
    assert (Hj : job_text <> EmptyString).
    { subst job_text. apply append_nonempty_r, append_nonempty_l. discriminate. }
    exists (Py.join " " parts), job_text. split; [exact Hc|]. split; [exact Hj|].
    pose proof Hc as Hc'. pose proof Hj as Hj'.
    apply nonempty_str_true in Hc', Hj'. rewrite Hc', Hj'. cbn [negb orb].
    apply match_text_semantic_nonempty; assumption.
Qed.

(** X14: the location score is 1.0, 0.8 or 0.5 when the model is not
    consulted, and at most 0.6 when it is; it is 1.0 for a job without a
    location and 0.5 for a candidate without one when the job has one. *)
Theorem calculate_location_match_values (cos_sim : string -> string -> float)
    (candidate : CandidateSchema.t) (job : JobSchema.t) :
  exists log v,
    calculate_location_match cos_sim candidate job = (log, Ok v)
    /\ ((log = [] /\ (v = 1%Q \/ v = (8 # 10)%Q \/ v = (5 # 10)%Q))
        \/ ((exists a b, log = [Encode [a; b]]) /\ (0 <= v <= 6 # 10)%Q))
    /\ (Py.truthy_str (JobSchema.location job) = false -> log = [] /\ v = 1%Q)
    /\ (Py.truthy_str (JobSchema.location job) = true ->
        Py.truthy_str (CandidateSchema.location candidate) = false ->
        log = [] /\ v = (5 # 10)%Q).
Proof.
  unfold calculate_location_match.
  destruct (Py.truthy_str (JobSchema.location job)) eqn:Ej; cbn [negb].
  2:{ exists [], 1%Q. split; [reflexivity|]. split; [left; auto|].
      split; [auto | discriminate]. }
  destruct (Py.truthy_str (CandidateSchema.location candidate)) eqn:Ec; cbn [negb].
  2:{ exists [], (5 # 10)%Q. split; [reflexivity|]. split; [left; auto|].
      split; [discriminate | auto]. }
  destruct (Py.any_in remote_keywords _).
  { exists [], 1%Q. split; [reflexivity|]. split; [left; auto|].
    split; discriminate. }
  destruct (String.eqb _ _).
  { exists [], 1%Q. split; [reflexivity|]. split; [left; auto|].
    split; discriminate. }
  destruct (Py.contains _ _ || Py.contains _ _).
  { exists [], (8 # 10)%Q. split; [reflexivity|]. split; [left; auto|].
    split; discriminate. }
  eexists _, _. split; [reflexivity|]. split; [|split; discriminate].
  right. split; [eauto|].
  match goal with |- context [Py.max 0 (Py.min 1 ?x)] =>
    pose proof (clamp_range x) as Hr end.
  unfold unit_range in Hr. lra.
Qed.

(** ** More on the aggregation *)



(** ** More on the quality tiers *)

(** X16: on a settings object that carries the three thresholds, the tier
    is one of "low", "medium", "good" and "excellent", and a higher score
    never gets a lower tier, whatever the order of the thresholds. *)
Theorem determine_match_quality_monotone (settings : gmap string float)
    (excellent good minimum lower higher : float) :
  settings !! "EXCELLENT_MATCH_THRESHOLD" = Some excellent ->
  settings !! "GOOD_MATCH_THRESHOLD" = Some good ->
  settings !! "MIN_MATCH_THRESHOLD" = Some minimum ->
  (lower <= higher)%Q ->
  exists tier tier',
    determine_match_quality settings lower = Ok tier
    /\ determine_match_quality settings higher = Ok tier'
    /\ (tier_rank tier <= tier_rank tier')%nat
    /\ (tier = "low" \/ tier = "medium" \/ tier = "good" \/ tier = "excellent").
Proof.
  intros He Hg Hm Hle.
  rewrite (determine_match_quality_tiers settings _ _ _ lower He Hg Hm).
  rewrite (determine_match_quality_tiers settings _ _ _ higher He Hg Hm).
  eexists _, _. split; [reflexivity|]. split; [reflexivity|].
  cmp_cases; try (exfalso; lra); split; try (vm_compute; lia); auto.
Qed.

Lemma determine_match_quality_monotone_witness :
  exists tier tier',
    determine_match_quality sample_settings (35 # 100)%Q = Ok tier
    /\ determine_match_quality sample_settings (75 # 100)%Q = Ok tier'
    /\ (tier_rank tier <= tier_rank tier')%nat.
Proof.
  destruct (determine_match_quality_monotone sample_settings
              (80 # 100)%Q (60 # 100)%Q (30 # 100)%Q (35 # 100)%Q (75 # 100)%Q)
    as (tier & tier' & H1 & H2 & H3 & _);
    [reflexivity | reflexivity | reflexivity | vm_compute; discriminate |].
  exists tier, tier'. auto.
Defined.

(** ** Recommendations *)


(** ** More on a single match *)

Lemma int_floor (q : float) :
  (0 <= q)%Q -> (inject_Z (Py.int q) <= q)%Q /\ (q < inject_Z (Py.int q) + 1)%Q.
Proof.
  intros H. unfold Py.int. destruct q as [n d]. unfold Qle in H. simpl in H.
  cbn [Qnum Qden]. rewrite Z.quot_div_nonneg by lia.
  pose proof (Z.mul_div_le n (Zpos d) ltac:(lia)) as H1.
  pose proof (Z.mul_succ_div_gt n (Zpos d) ltac:(lia)) as H2.
  split.
  - unfold Qle. simpl. lia.
  - unfold Qlt. simpl. lia.
Qed.

Lemma generate_recommendations_nonempty (float_str : float -> string)
    (candidate : CandidateSchema.t) (job : JobSchema.t)
    (breakdown : MatchBreakdown.t) (missing : list string) :
  generate_recommendations float_str candidate job breakdown missing <> [].
Proof.
  unfold generate_recommendations.
  match goal with |- context [Py.nonempty ?l] => destruct l eqn:E end;
    cbn [Py.nonempty]; discriminate.
Qed.

(** The percentage of a score in [0,1]: the product with 100 is rounded
    to a double before it is truncated, so the percentage is never more
    than the exact product plus [2^-47], and always more than the exact
    product minus 1. *)
Lemma percentage_near (score : float) :
  unit_range score ->
  (inject_Z (Py.int (Py.fmul score 100)) - (1 # 140737488355328) <= score * 100)%Q /\
  (score * 100 < inject_Z (Py.int (Py.fmul score 100)) + 1)%Q.
Proof.
  intros Hs. destruct (percent_product_range score Hs) as [Hp0 Hp1].
  destruct (int_floor (Py.fmul score 100) Hp0) as [Hf1 Hf2].
  destruct Hs as [H0 H1].
  assert (Hq : (Qabs (score * 100) < Py.pow2 7)%Q).
  { change (Py.pow2 7) with 128%Q. apply Qabs_Qlt_condition. lra. }
  split.
  - pose proof (round64_error_below (score * 100) 7 Hq ltac:(lia)) as He.
    assert (E : (Py.pow2 (7 - 54) == 1 # 140737488355328)%Q) by reflexivity.
    rewrite E in He. apply Qabs_Qle_condition in He.
    unfold Py.fmul in *. lra.
  - apply Qnot_le_lt. intros Hc.
    change 1%Q with (inject_Z 1) in Hc. rewrite <- inject_Z_plus in Hc.
    apply (round64_ge_Z (score * 100) _ 7 Hq ltac:(lia)) in Hc.
    rewrite inject_Z_plus in Hc. change (inject_Z 1) with 1%Q in Hc.
    unfold Py.fmul in *. lra.
Qed.

(** The double 0.35 is below thirty-five hundredths, but its product
    with 100 rounds to 35.0: the percentage is 35, not 34. *)
Lemma percentage_of_rounded_product :
  (Py.float_lit (35 # 100) < 35 # 100)%Q /\
  Py.int (Py.fmul (Py.float_lit (35 # 100)) 100) = 35%Z.
Proof. split; vm_compute; reflexivity. Qed.

(** X18: a result of [match_single] carries the candidate's id and name
    and the job's id; its percentage is the truncated double product of
    its score and 100, so that 100 times the score lies between the
    percentage less [2^-47] and the percentage plus 1; its quality is the
    tier of its score; and it has at least one recommendation. *)
Theorem match_single_result_consistent (cos_sim : string -> string -> float)
    (float_str : float -> string) (settings : gmap string float)
    (candidate : CandidateSchema.t) (job : JobSchema.t)
    (log : list event) (r : SingleMatchResponse.t) :
  match_single cos_sim float_str settings candidate job = (log, Ok r) ->
  SingleMatchResponse.candidate_id r = CandidateSchema.id candidate /\
  SingleMatchResponse.candidate_name r = CandidateSchema.name candidate /\
  SingleMatchResponse.job_id r = JobSchema.id job /\
  SingleMatchResponse.match_percentage r
    = Py.int (Py.fmul (SingleMatchResponse.compatibility_score r) 100) /\
  (inject_Z (SingleMatchResponse.match_percentage r) - (1 # 140737488355328)
   <= SingleMatchResponse.compatibility_score r * 100)%Q /\
  (SingleMatchResponse.compatibility_score r * 100
   < inject_Z (SingleMatchResponse.match_percentage r) + 1)%Q /\
  determine_match_quality settings (SingleMatchResponse.compatibility_score r)
    = Ok (SingleMatchResponse.match_quality r) /\
  SingleMatchResponse.recommendations r <> [].
Proof.
  unfold match_single. intros H.
  eng_inv H. destruct a as [[skills_score matched] missing]. eng_inv H.
  apply lift_Ok in Hstep5 as [Hq _].
  apply lift_Ok in H as [Hr _].
  apply SingleMatchResponse_new_Ok in Hr as (-> & Hscore & _).
  cbn [SingleMatchResponse.candidate_id SingleMatchResponse.candidate_name
       SingleMatchResponse.job_id SingleMatchResponse.match_percentage
       SingleMatchResponse.compatibility_score SingleMatchResponse.match_quality
       SingleMatchResponse.recommendations].
  repeat (split; [reflexivity|]).
  destruct (percentage_near a3 Hscore) as [Hf1 Hf2].
  split; [exact Hf1|]. split; [exact Hf2|]. split; [exact Hq|].
  apply generate_recommendations_nonempty.
Qed.

Lemma match_single_result_consistent_witness :
  exists log r,
    match_single sample_similarity sample_float_str sample_settings
                 web_developer web_job = (log, Ok r)
    /\ SingleMatchResponse.candidate_id r = "c-4"
    /\ SingleMatchResponse.recommendations r <> [].
Proof.
  destruct (match_single_returns sample_similarity sample_float_str
              sample_settings web_developer web_job)
    as (log & r & H);
    [exact sample_settings_usable | vm_compute; discriminate
     | vm_compute; discriminate |].
  exists log, r. split; [exact H|].
  destruct (match_single_result_consistent _ _ _ _ _ _ _ H)
    as (Hid & _ & _ & _ & _ & _ & _ & Hrec).
  split; [exact Hid | exact Hrec].
Defined.

(** *** Calls of the model *)

Lemma match_text_semantic_calls (cos_sim : string -> string -> float)
    (a b : string) :
  exists log v, match_text_semantic cos_sim a b = (log, Ok v)
                /\ (length log <= 1)%nat.
Proof.
  unfold match_text_semantic.
  destruct (negb (Py.nonempty_str a) || negb (Py.nonempty_str b)).
  - exists [], 0%Q. split; [reflexivity | simpl; lia].
  - eexists _, _. split; [reflexivity | simpl; lia].
Qed.

Lemma calculate_skills_match_calls (cos_sim : string -> string -> float)
    (candidate : CandidateSchema.t) (job : JobSchema.t) :
  exists log x, calculate_skills_match cos_sim candidate job = (log, Ok x)
                /\ (length log <= 2)%nat.
Proof.
  destruct (JobSchema.skills job) as [|j0 js] eqn:Hj.
  { eexists [], _. split; [|simpl; lia].
    unfold calculate_skills_match. rewrite Hj. reflexivity. }
  assert (Hne : JobSchema.skills job <> []) by (rewrite Hj; discriminate).
  destruct (calculate_skills_match_lists cos_sim candidate job Hne)
    as (log & score & sem & Hrun & _ & Hlen).
  eexists _, _. split; [exact Hrun | exact Hlen].
Qed.

Lemma calculate_education_match_calls (cos_sim : string -> string -> float)
    (candidate : CandidateSchema.t) (job : JobSchema.t) :
  exists log v, calculate_education_match cos_sim candidate job = (log, Ok v)
                /\ (length log <= 1)%nat.
Proof.
  unfold calculate_education_match.
  destruct (negb (Py.nonempty (CandidateSchema.education candidate))
            || negb (Py.nonempty (JobSchema.requirements job))).
  { exists [], (5 # 10)%Q. split; [reflexivity | simpl; lia]. }
  destruct (negb (Py.any_in edu_keywords _)).
  { exists [], 1%Q. split; [reflexivity | simpl; lia]. }
  destruct (negb (Py.nonempty _)).
  { exists [], (3 # 10)%Q. split; [reflexivity | simpl; lia]. }
  apply match_text_semantic_calls.
Qed.

Lemma calculate_semantic_match_calls (cos_sim : string -> string -> float)
    (candidate : CandidateSchema.t) (job : JobSchema.t) :
  exists log v, calculate_semantic_match cos_sim candidate job = (log, Ok v)
                /\ (length log <= 1)%nat.
Proof.
  unfold calculate_semantic_match.
  match goal with |- context [if ?b then _ else _] => destruct b end.
  - exists [], (5 # 10)%Q. split; [reflexivity | simpl; lia].
  - apply match_text_semantic_calls.
Qed.

Lemma calculate_location_match_calls (cos_sim : string -> string -> float)
    (candidate : CandidateSchema.t) (job : JobSchema.t) :
  exists log v, calculate_location_match cos_sim candidate job = (log, Ok v)
                /\ (length log <= 1)%nat.
Proof.
  unfold calculate_location_match.
  destruct (negb (Py.truthy_str (JobSchema.location job))).
  { exists [], 1%Q. split; [reflexivity | simpl; lia]. }
  destruct (negb (Py.truthy_str (CandidateSchema.location candidate))).
  { exists [], (5 # 10)%Q. split; [reflexivity | simpl; lia]. }
  destruct (Py.any_in remote_keywords _).
  { exists [], 1%Q. split; [reflexivity | simpl; lia]. }
  destruct (String.eqb _ _).
  { exists [], 1%Q. split; [reflexivity | simpl; lia]. }
  destruct (Py.contains _ _ || Py.contains _ _).
  { exists [], (8 # 10)%Q. split; [reflexivity | simpl; lia]. }
  eexists _, _. split; [reflexivity | simpl; lia].
Qed.

(** A step that cannot call the model adds nothing to the log. *)
Lemma lift_bind_log {A B} (x : res A) (f : A -> Eng B) :
  (forall a, (f a).1 = []) -> (lift x ≫= f).1 = [].
Proof.
  intros H. destruct x as [a|e]; simpl; [|reflexivity].
  specialize (H a). destruct (f a) as [l r]. simpl in *. exact H.
Qed.

Lemma Eng_bind_log {A B} (m : Eng A) (f : A -> Eng B) (l : list event) (a : A)
    (n : nat) :
  m = (l, Ok a) -> (length (f a).1 <= n)%nat ->
  (length (m ≫= f).1 <= length l + n)%nat.
Proof.
  intros -> H. simpl. destruct (f a) as [l' r]. simpl in *.
  rewrite length_app. lia.
Qed.

Lemma match_single_calls (cos_sim : string -> string -> float)
    (float_str : float -> string) (settings : gmap string float)
    (candidate : CandidateSchema.t) (job : JobSchema.t) :
  (length (match_single cos_sim float_str settings candidate job).1 <= 5)%nat.
Proof.
  unfold match_single.
  destruct (calculate_skills_match_calls cos_sim candidate job)
    as (l1 & [[skills matched] missing] & H1 & Hl1).
  destruct (calculate_education_match_calls cos_sim candidate job)
    as (l2 & edu & H2 & Hl2).
  destruct (calculate_semantic_match_calls cos_sim candidate job)
    as (l3 & sem & H3 & Hl3).
  destruct (calculate_location_match_calls cos_sim candidate job)
    as (l4 & loc & H4 & Hl4).
  transitivity (length l1 + (length l2 + (length l3 + (length l4 + 0))))%nat;
    [|lia].
  eapply Eng_bind_log; [exact H1|]. cbn beta iota.
  eapply Eng_bind_log; [exact H2|].
  eapply Eng_bind_log; [exact H3|].
  eapply Eng_bind_log; [exact H4|].
  rewrite lift_bind_log; [simpl; lia|]. intros b.
  apply lift_bind_log. intros score.
  apply lift_bind_log. intros quality.
  apply lift_bind_log. intros explanation. reflexivity.
Qed.

Lemma for_each_calls {A B} (f : A -> Eng B) (xs : list A) (n : nat) :
  (forall x, (length (f x).1 <= n)%nat) ->
  (length (for_each f xs).1 <= n * length xs)%nat.
Proof.
  intros H. induction xs as [|x xs IH]; simpl; [lia|].
  specialize (H x). destruct (f x) as [l [y|e]]; simpl in *; [|lia].
  destruct (for_each f xs) as [l' [ys|e]]; simpl in *;
    rewrite ?length_app; simpl; lia.
Qed.

(** X19: one single match calls the model at most five times, and a batch
    at most five times per candidate, whether they succeed or fail. *)
Theorem model_calls_bounded (cos_sim : string -> string -> float)
    (float_str : float -> string) (settings : gmap string float)
    (candidates : list CandidateSchema.t) (candidate : CandidateSchema.t)
    (job : JobSchema.t) :
  (length (match_single cos_sim float_str settings candidate job).1 <= 5)%nat /\
  (length (match_batch cos_sim float_str settings candidates job).1
   <= 5 * length candidates)%nat.
Proof.
  split; [apply match_single_calls|].
  unfold match_batch.
  pose proof (for_each_calls
                (fun candidate => match_single cos_sim float_str settings candidate job)
                candidates 5
                (fun c => match_single_calls cos_sim float_str settings c job)) as H.
  destruct (for_each _ candidates) as [l [singles|e]]; simpl in *; [|exact H].
  pose proof (for_each_calls (fun entry => lift (to_ranked entry))
                (Py.enumerate 1
                   (Py.sort_desc SingleMatchResponse.compatibility_score singles))
                0 ltac:(intros x; simpl; lia)) as H0.
  destruct (for_each _ (Py.enumerate _ _)) as [l' [ranked|e]]; simpl in *;
    rewrite ?length_app; simpl; lia.
Qed.

(** ** More on a batch *)

Lemma sum_upper_bound (b : float) (xs : list float) (acc : float) :
  Forall (fun x => (x <= b)%Q) xs ->
  (fold_left Qplus xs acc <= acc + b * inject_Z (Z.of_nat (length xs)))%Q.
Proof.
  intros H. revert acc. induction H as [|x xs Hx _ IH]; intros acc.
  - cbn [fold_left length]. change (inject_Z (Z.of_nat 0)) with 0%Q. lra.
  - cbn [fold_left length]. specialize (IH (acc + x)%Q).
    rewrite Nat2Z.inj_succ. unfold Z.succ. rewrite inject_Z_plus.
    change (inject_Z 1) with 1%Q.
    set (n := inject_Z (Z.of_nat (length xs))) in *. lra.
Qed.

Lemma mean_unit_range (xs : list float) :
  xs <> [] -> Forall unit_range xs -> unit_range (Py.mean xs).
Proof.
  intros Hne H. split.
  - apply mean_lower_bound; [exact Hne|].
    eapply Forall_impl; [exact H|]. intros x [Hx _]. exact Hx.
  - unfold Py.mean, Py.sum.
    assert (Hn : (0 < inject_Z (Z.of_nat (length xs)))%Q).
    { change 0%Q with (inject_Z 0). rewrite <- Zlt_Qlt.
      destruct xs; [congruence | simpl; lia]. }
    apply Qle_shift_div_r; [exact Hn|].
    pose proof (sum_upper_bound 1 xs 0) as Hs.
    assert (Hall : Forall (fun x => (x <= 1)%Q) xs)
      by (eapply Forall_impl; [exact H|]; intros x [_ Hx]; exact Hx).
    specialize (Hs Hall). lra.
Qed.

Lemma ranked_scores (sorted : list SingleMatchResponse.t)
    (ranked : list RankedMatchResult.t) :
  Forall2 ranks sorted ranked ->
  map RankedMatchResult.compatibility_score ranked
  = map SingleMatchResponse.compatibility_score sorted.
Proof.
  induction 1 as [|m x ms xs [_ H] _ IH]; simpl; [reflexivity|].
  rewrite IH, H. reflexivity.
Qed.

Section BatchMore.
Variable cos_sim : string -> string -> float.
Variable float_str : float -> string.
Variable settings : gmap string float.

(** What a successful batch went through, with its two summaries. *)
Lemma match_batch_Ok_full (candidates : list CandidateSchema.t) (job : JobSchema.t)
    (log : list event) (ranked : list RankedMatchResult.t) (average : float)
    (top : list string) :
  match_batch cos_sim float_str settings candidates job
    = (log, Ok (ranked, average, top)) ->
  exists singles,
    Forall2 (single_of cos_sim float_str settings job) candidates singles /\
    Forall validated singles /\
    Forall2 ranks
      (Py.sort_desc SingleMatchResponse.compatibility_score singles) ranked /\
    average
    = (if Py.nonempty ranked
       then Py.mean (map RankedMatchResult.compatibility_score ranked)
       else 0%Q) /\
    top = top_skills_of (all_matched singles).
Proof.
  unfold match_batch. intros H. eng_inv H.
  apply Eng_ret_Ok in H as [[= <- <- <-] _].
  apply for_each_Ok in Hstep. apply ranked_enumerate in Hstep0 as [H1 _].
  exists a. split; [exact Hstep|].
  split.
  { clear -Hstep. induction Hstep as [|c m cs ms [l H] _ IH]; constructor;
      [|exact IH]. eapply match_single_validated. exact H. }
  split; [exact H1|]. split; [|reflexivity].
  rewrite (ranked_scores _ _ H1).
  set (sorted := Py.sort_desc SingleMatchResponse.compatibility_score a) in *.
  assert (Hlen : length a0 = length sorted)
    by (symmetry; eapply Forall2_length; exact H1).
  destruct sorted as [|m ms] eqn:Es; destruct a0 as [|x xs];
    try discriminate Hlen; [reflexivity|].
  cbn [Py.nonempty]. unfold Py.mean. rewrite length_map. reflexivity.
Qed.

(** X20: the average score of a batch is the mean of the scores of its
    ranked results, it lies in [0,1], and it is 0.0 for an empty batch. *)
Theorem match_batch_average (candidates : list CandidateSchema.t)
    (job : JobSchema.t) (log : list event)
    (ranked : list RankedMatchResult.t) (average : float) (top : list string) :
  match_batch cos_sim float_str settings candidates job
    = (log, Ok (ranked, average, top)) ->
  unit_range average /\
  (ranked = [] -> average = 0%Q) /\
  (ranked <> [] ->
   average = Py.mean (map RankedMatchResult.compatibility_score ranked)).
Proof.
  intros H. apply match_batch_Ok_full in H
    as (singles & _ & Hval & Hranked & -> & _).
  split; [|split].
  - destruct ranked as [|x xs] eqn:E; cbn [Py.nonempty];
      [unfold unit_range; lra|].
    apply mean_unit_range; [discriminate|].
    rewrite (ranked_scores _ _ Hranked).
    assert (Hs : Forall validated
                   (Py.sort_desc SingleMatchResponse.compatibility_score singles))
      by (rewrite sort_desc_perm; exact Hval).
    clear -Hs. induction Hs as [|m ms [Hm _] _ IH]; simpl; constructor; assumption.
  - intros ->. reflexivity.
  - intros Hne. destruct ranked; [congruence | reflexivity].
Qed.
End BatchMore.

Lemma match_batch_average_witness :
  exists log ranked average top,
    match_batch sample_similarity sample_float_str sample_settings
                tied_batch python_job = (log, Ok (ranked, average, top))
    /\ unit_range average.
Proof.
  destruct (match_batch_returns sample_similarity sample_float_str
              sample_settings tied_batch python_job)
    as (log & ranked & average & top & H).
  - exact sample_settings_usable.
  - repeat constructor; vm_compute; discriminate.
  - vm_compute. exact I.
  - exists log, ranked, average, top. split; [exact H|].
    apply (match_batch_average _ _ _ _ _ _ _ _ _ H).
Defined.

(** ** Counting the matched skills *)

Lemma String_eqb_eq (a b : string) : String.eqb a b = true <-> a = b.
Proof. apply String.eqb_eq. Qed.

Lemma count_of_bump (s k : string) (d : list (string * Z)) :
  count_of s (Py.bump k d)
  = if String.eqb s k
    then Some (match count_of k d with Some n => n + 1 | None => 1 end)%Z
    else count_of s d.
Proof.
  induction d as [|[k' n] d IH]; cbn [Py.bump count_of].
  - destruct (String.eqb s k); reflexivity.
  - destruct (String.eqb_spec k k') as [->|Hk]; cbn [count_of].
    + destruct (String.eqb s k'); reflexivity.
    + rewrite IH.
      destruct (String.eqb_spec s k') as [->|Hs];
        destruct (String.eqb_spec k' k) as [<-|Hk'];
        try congruence; try reflexivity.
Qed.

Lemma keys_bump (k : string) (d : list (string * Z)) (s : string) :
  s ∈ map fst (Py.bump k d) <-> s = k \/ s ∈ map fst d.
Proof.
  induction d as [|[k' n] d IH]; cbn [Py.bump map fst].
  - rewrite elem_of_cons, elem_of_nil. tauto.
  - destruct (String.eqb_spec k k') as [->|Hk]; cbn [map fst].
    + rewrite !elem_of_cons. tauto.
    + rewrite !elem_of_cons, IH. tauto.
Qed.

Lemma NoDup_keys_bump (k : string) (d : list (string * Z)) :
  NoDup (map fst d) -> NoDup (map fst (Py.bump k d)).
Proof.
  induction d as [|[k' n] d IH]; cbn [Py.bump map fst]; intros H.
  - constructor; [intros Hx; inversion Hx | constructor].
  - inversion H as [|? ? Hnotin Hd]; subst.
    destruct (String.eqb_spec k k') as [->|Hk]; cbn [map fst].
    + constructor; assumption.
    + constructor; [|apply IH, Hd].
      rewrite keys_bump. intros [E|Hin]; [congruence | contradiction].
Qed.

Lemma occurrences_cons (s x : string) (l : list string) :
  occurrences s (x :: l)
  = ((if String.eqb s x then 1 else 0) + occurrences s l)%nat.
Proof. unfold occurrences. simpl. destruct (String.eqb s x); reflexivity. Qed.

Lemma occurrences_pos (s : string) (l : list string) :
  s ∈ l <-> (0 < occurrences s l)%nat.
Proof.
  induction l as [|x l IH]; [split; [intros H; inversion H | unfold occurrences; simpl; lia]|].
  rewrite occurrences_cons, elem_of_cons.
  destruct (String.eqb s x) eqn:E.
  - apply String.eqb_eq in E. split; [lia | auto].
  - assert (s <> x) by (intros ->; rewrite String.eqb_refl in E; discriminate).
    rewrite IH. split; [intros [?|?]; [contradiction | lia] | intros; right; lia].
Qed.

(** The counts after a scan: what the dictionary held plus the number of
    occurrences in the scanned list. *)
Lemma count_of_scan (s : string) (l : list string) (d : list (string * Z)) :
  count_of s (fold_left (fun counts skill => Py.bump skill counts) l d)
  = if (occurrences s l =? 0)%nat then count_of s d
    else Some (match count_of s d with Some n => n | None => 0 end
               + Z.of_nat (occurrences s l))%Z.
Proof.
  revert d. induction l as [|x l IH]; intros d; [reflexivity|].
  cbn [fold_left]. rewrite IH, occurrences_cons, count_of_bump.
  destruct (String.eqb s x) eqn:E.
  - apply String.eqb_eq in E as <-.
    destruct (occurrences s l =? 0)%nat eqn:E0.
    + apply Nat.eqb_eq in E0. rewrite E0. simpl.
      destruct (count_of s d); f_equal; lia.
    + simpl. destruct (count_of s d); f_equal; lia.
  - simpl. reflexivity.
Qed.

Lemma NoDup_keys_scan (l : list string) (d : list (string * Z)) :
  NoDup (map fst d) ->
  NoDup (map fst (fold_left (fun counts skill => Py.bump skill counts) l d)).
Proof.
  revert d. induction l as [|x l IH]; intros d H; [exact H|].
  apply IH, NoDup_keys_bump, H.
Qed.

Lemma keys_scan (l : list string) (d : list (string * Z)) (s : string) :
  s ∈ map fst (fold_left (fun counts skill => Py.bump skill counts) l d)
  <-> s ∈ l \/ s ∈ map fst d.
Proof.
  revert d. induction l as [|x l IH]; intros d; simpl.
  - rewrite elem_of_nil. tauto.
  - rewrite IH, keys_bump, elem_of_cons. tauto.
Qed.

Lemma count_of_elem (s : string) (n : Z) (d : list (string * Z)) :
  NoDup (map fst d) -> (s, n) ∈ d -> count_of s d = Some n.
Proof.
  induction d as [|[k m] d IH]; intros Hnd Hin; [inversion Hin|].
  simpl in Hnd. inversion Hnd as [|? ? Hnotin Hd]; subst.
  apply elem_of_cons in Hin as [[= -> ->]|Hin]; simpl.
  - rewrite String.eqb_refl. reflexivity.
  - destruct (String.eqb s k) eqn:E; [|apply IH; assumption].
    apply String.eqb_eq in E as ->. exfalso. apply Hnotin.
    apply list_elem_of_fmap. exists (k, n). auto.
Qed.

(** Every entry of the dictionary of counts holds the number of
    occurrences of its skill. *)
Lemma count_skills_entry (all : list string) (s : string) (n : Z) :
  (s, n) ∈ count_skills all -> n = Z.of_nat (occurrences s all) /\ s ∈ all.
Proof.
  intros Hin. unfold count_skills in *.
  pose proof (NoDup_keys_scan all [] ltac:(constructor)) as Hnd.
  pose proof (count_of_elem s n _ Hnd Hin) as Hc.
  rewrite count_of_scan in Hc. simpl in Hc.
  destruct (occurrences s all =? 0)%nat eqn:E0; [discriminate Hc|].
  apply Nat.eqb_neq in E0. injection Hc as <-.
  split; [lia | apply occurrences_pos; lia].
Qed.

Lemma take_10_fst {A B} (l : list (A * B)) (x : A) :
  x ∈ map fst (take 10 l) -> exists y, (x, y) ∈ l.
Proof.
  intros H. apply list_elem_of_fmap in H as ([a b] & -> & Hin).
  exists b. eapply elem_of_sublist; [exact Hin | apply sublist_take].
Qed.

(** X21: the top skills of a batch are at most ten, none is repeated and
    each is a matched skill; they are in order of non-increasing number of
    occurrences among all matched skills; a matched skill is left out only
    when ten skills are listed, and then it occurs no more often than any
    skill that is listed. *)
Theorem top_skills_of_shape (all_matched_skills : list string) :
  let top := top_skills_of all_matched_skills in
  (length top <= 10)%nat /\
  NoDup top /\
  (forall s, s ∈ top -> s ∈ all_matched_skills) /\
  (forall i j a b, (i < j)%nat -> top !! i = Some a -> top !! j = Some b ->
     (occurrences b all_matched_skills <= occurrences a all_matched_skills)%nat) /\
  (forall s, s ∈ all_matched_skills -> s ∉ top -> length top = 10%nat) /\
  (forall s a, s ∈ all_matched_skills -> s ∉ top -> a ∈ top ->
     (occurrences s all_matched_skills <= occurrences a all_matched_skills)%nat).
Proof.
  intros top. subst top. unfold top_skills_of.
  set (key := fun item : string * Z => inject_Z (snd item)).
  set (counts := count_skills all_matched_skills).
  set (sorted := Py.sort_desc key counts).
  pose proof (sort_desc_perm key counts) as Hperm. fold sorted in Hperm.
  pose proof (sort_desc_sorted key counts) as Hsorted. fold sorted in Hsorted.
  assert (Hnd : NoDup (map fst sorted)).
  { rewrite Hperm. apply (NoDup_keys_scan all_matched_skills []). constructor. }
  assert (Hentry : forall s n, (s, n) ∈ sorted ->
            n = Z.of_nat (occurrences s all_matched_skills)
            /\ s ∈ all_matched_skills).
  { intros s n H. rewrite Hperm in H. apply count_skills_entry, H. }
  assert (Horder : forall i j a b n m, (i < j)%nat ->
            sorted !! i = Some (a, n) -> sorted !! j = Some (b, m) ->
            (occurrences b all_matched_skills
             <= occurrences a all_matched_skills)%nat).
  { intros i j a b n m Hlt Hi Hj.
    pose proof (StronglySorted_lookup _ _ i j _ _ Hsorted Hlt Hi Hj) as Hd.
    unfold desc, key in Hd. simpl in Hd. rewrite <- Zle_Qle in Hd.
    destruct (Hentry a n) as [-> _]; [eapply list_elem_of_lookup_2; exact Hi|].
    destruct (Hentry b m) as [-> _]; [eapply list_elem_of_lookup_2; exact Hj|].
    lia. }
  assert (Htop : forall i a, map fst (take 10 sorted) !! i = Some a ->
            (i < 10)%nat /\ exists n, sorted !! i = Some (a, n)).
  { intros i a H. change (map fst (take 10 sorted)) with (fst <$> take 10 sorted) in H.
    rewrite list_lookup_fmap in H.
    destruct (take 10 sorted !! i) as [[a' n]|] eqn:E; [|discriminate H].
    injection H as <-. apply lookup_take_Some in E as [E Hi]. eauto. }
  assert (Hout : forall s, s ∈ all_matched_skills ->
            s ∉ map fst (take 10 sorted) ->
            exists k n, (10 <= k)%nat /\ sorted !! k = Some (s, n)).
  { intros s Hs Hnot.
    assert (Hkey : s ∈ map fst sorted).
    { rewrite Hperm. apply (keys_scan all_matched_skills []). auto. }
    apply list_elem_of_fmap in Hkey as ([s' n] & Es & Hin). simpl in Es. subst s'.
    apply list_elem_of_lookup in Hin as [k Hk].
    exists k, n. split; [|exact Hk].
    destruct (le_lt_dec 10 k) as [H|H]; [exact H|]. exfalso. apply Hnot.
    apply list_elem_of_fmap. exists (s, n). split; [reflexivity|].
    apply list_elem_of_lookup. exists k. apply lookup_take_Some. auto. }
  split; [|split; [|split; [|split; [|split]]]].
  - rewrite length_map, length_take. lia.
  - change (map fst (take 10 sorted)) with (fst <$> take 10 sorted).
    rewrite fmap_take. eapply sublist_NoDup; [exact Hnd | apply sublist_take].
  - intros s Hs. apply take_10_fst in Hs as [n Hn]. apply (Hentry s n Hn).
  - intros i j a b Hlt Ha Hb.
    apply Htop in Ha as (_ & n & Ha). apply Htop in Hb as (_ & m & Hb).
    apply (Horder i j a b n m Hlt Ha Hb).
  - intros s Hs Hnot. destruct (Hout s Hs Hnot) as (k & n & Hk10 & Hk).
    rewrite length_map, length_take.
    apply lookup_lt_Some in Hk. lia.
  - intros s a Hs Hnot Ha. destruct (Hout s Hs Hnot) as (k & n & Hk10 & Hk).
    apply list_elem_of_lookup in Ha as [i Hi].
    apply Htop in Hi as (Hi10 & m & Hi).
    apply (Horder i k a s m n ltac:(lia) Hi Hk).
Qed.

(** ** The routes *)

Lemma match_batch_Ok_shape (cos_sim : string -> string -> float)
    (float_str : float -> string) (settings : gmap string float)
    (candidates : list CandidateSchema.t) (job : JobSchema.t)
    (log : list event) (ranked : list RankedMatchResult.t) (average : float)
    (top : list string) :
  match_batch cos_sim float_str settings candidates job
    = (log, Ok (ranked, average, top)) ->
  in_unit average = true /\ length ranked = length candidates.
Proof.
  intros H. apply match_batch_Ok_full in H
    as (singles & Hsingles & Hval & Hranked & -> & _).
  assert (Hs : Forall validated
                 (Py.sort_desc SingleMatchResponse.compatibility_score singles))
    by (rewrite sort_desc_perm; exact Hval).
  split.
  - apply in_unit_true.
    destruct ranked as [|x xs] eqn:E; cbn [Py.nonempty]; [lra|].
    apply mean_unit_range; [discriminate|].
    rewrite (ranked_scores _ _ Hranked).
    clear -Hs. induction Hs as [|m ms [Hm _] _ IH]; simpl; constructor; assumption.
  - rewrite <- (Forall2_length _ _ _ Hranked).
    rewrite (Permutation_length (sort_desc_perm _ _)).
    symmetry. eapply Forall2_length. exact Hsingles.
Qed.

(** X22: the batch route answers 400 without calling the model for more
    than 100 candidates; otherwise it answers with the ranking, the average
    and the top skills of [match_batch] and a candidate count equal to the
    number of ranked results, or with 500 when [match_batch] raises. *)
Theorem match_batch_candidates_outcomes (cos_sim : string -> string -> float)
    (float_str : float -> string) (error_str : error -> string)
    (settings : gmap string float) (request : BatchMatchRequest.t) :
  let candidates := BatchMatchRequest.candidates request in
  let job := BatchMatchRequest.job request in
  ((100 < length candidates)%nat ->
   match_batch_candidates cos_sim float_str error_str settings request
   = ([], HTTPException 400 "Maximum 100 candidates per batch request")) /\
  ((length candidates <= 100)%nat ->
   forall log ranked average top,
     match_batch cos_sim float_str settings candidates job
       = (log, Ok (ranked, average, top)) ->
     match_batch_candidates cos_sim float_str error_str settings request
     = (log, Response
               {| BatchMatchResponse.job_id := JobSchema.id job;
                  BatchMatchResponse.job_title := JobSchema.title job;
                  BatchMatchResponse.total_candidates := length candidates;
                  BatchMatchResponse.matches := ranked;
                  BatchMatchResponse.average_score := average;
                  BatchMatchResponse.top_skills_matched := top |})
     /\ length ranked = length candidates) /\
  ((length candidates <= 100)%nat ->
   forall log e,
     match_batch cos_sim float_str settings candidates job = (log, Raise e) ->
     match_batch_candidates cos_sim float_str error_str settings request
     = (log, HTTPException 500
               ("Error processing batch match: " +:+ error_str e))).
Proof.
  intros candidates job. unfold match_batch_candidates.
  fold candidates job. split; [|split].
  - intros H. apply Nat.ltb_lt in H. rewrite H. reflexivity.
  - intros H log ranked average top Hrun.
    apply Nat.ltb_ge in H. rewrite H, Hrun.
    apply match_batch_Ok_shape in Hrun as [Havg Hlen].
    unfold BatchMatchResponse.new. rewrite Havg. split; [reflexivity | exact Hlen].
  - intros H log e Hrun. apply Nat.ltb_ge in H. rewrite H, Hrun. reflexivity.
Qed.

Lemma match_batch_candidates_outcomes_witness :
  exists log response,
    match_batch_candidates sample_similarity sample_float_str
      (fun _ => "") sample_settings
      {| BatchMatchRequest.candidates := tied_batch;
         BatchMatchRequest.job := python_job |}
    = (log, Response response)
    /\ length (BatchMatchResponse.matches response) = length tied_batch.
Proof.
  destruct (match_batch_returns sample_similarity sample_float_str
              sample_settings tied_batch python_job)
    as (log & ranked & average & top & H).
  - exact sample_settings_usable.
  - repeat constructor; vm_compute; discriminate.
  - vm_compute. exact I.
  - destruct (match_batch_candidates_outcomes sample_similarity sample_float_str
                (fun _ => "") sample_settings
                {| BatchMatchRequest.candidates := tied_batch;
                   BatchMatchRequest.job := python_job |}) as (_ & Hok & _).
    cbn [BatchMatchRequest.candidates BatchMatchRequest.job] in Hok.
    destruct (Hok ltac:(vm_compute; lia) _ _ _ _ H) as [Hroute Hlen].
    eexists log, _. split; [exact Hroute | exact Hlen].
Defined.

Ltac literal_member H :=
  repeat (apply elem_of_cons in H as [H|H];
          [try (cbn in H; discriminate H)|]);
  try (apply elem_of_nil in H; contradiction).

Lemma explain_strengths_nonempty (m : SingleMatchResponse.t) :
  explain_strengths m <> [].
Proof.
  unfold explain_strengths. cbv zeta.
  match goal with |- (if Py.nonempty ?l then _ else _) <> _ =>
    destruct l eqn:E end; cbn [Py.nonempty]; discriminate.
Qed.

Lemma explain_weaknesses_nonempty (m : SingleMatchResponse.t) :
  explain_weaknesses m <> [].
Proof.
  unfold explain_weaknesses. cbv zeta.
  match goal with |- (if Py.nonempty ?l then _ else _) <> _ =>
    destruct l eqn:E end; cbn [Py.nonempty]; discriminate.
Qed.

Lemma explain_strengths_length (m : SingleMatchResponse.t) :
  (length (explain_strengths m) <= 4)%nat.
Proof.
  unfold explain_strengths. cbv zeta.
  repeat match goal with
  | |- context [if ?c then [_] else []] => destruct c
  end; simpl; lia.
Qed.

Lemma explain_weaknesses_length (m : SingleMatchResponse.t) :
  (length (explain_weaknesses m) <= 4)%nat.
Proof.
  unfold explain_weaknesses. cbv zeta.
  repeat match goal with
  | |- context [if ?c then [_] else []] => destruct c
  end; simpl; lia.
Qed.

Lemma explain_strengths_skills (m : SingleMatchResponse.t) :
  "Excelente match de habilidades técnicas" ∈ explain_strengths m ->
  (7 # 10 <= MatchBreakdown.skills_match (SingleMatchResponse.breakdown m))%Q.
Proof.
  unfold explain_strengths. cbv zeta.
  destruct (Py.leb (7 # 10) _) eqn:E1; [intros _; apply leb_true; exact E1|].
  repeat match goal with
  | |- context [if ?c then [_] else []] => destruct c
  end; cbn [app Py.nonempty]; intros H; literal_member H.
Qed.

Lemma explain_strengths_experience (m : SingleMatchResponse.t) :
  "Experiencia superior a los requisitos" ∈ explain_strengths m ->
  (8 # 10 <= MatchBreakdown.experience_match (SingleMatchResponse.breakdown m))%Q.
Proof.
  unfold explain_strengths. cbv zeta.
  destruct (Py.leb (8 # 10) _) eqn:E1; [intros _; apply leb_true; exact E1|].
  repeat match goal with
  | |- context [if ?c then [_] else []] => destruct c
  end; cbn [app Py.nonempty]; intros H; literal_member H.
Qed.

Lemma explain_weaknesses_skills (m : SingleMatchResponse.t) :
  "Falta de habilidades técnicas clave" ∈ explain_weaknesses m ->
  (MatchBreakdown.skills_match (SingleMatchResponse.breakdown m) < 5 # 10)%Q.
Proof.
  unfold explain_weaknesses. cbv zeta.
  destruct (Py.ltb (MatchBreakdown.skills_match (SingleMatchResponse.breakdown m)) (5 # 10)) eqn:E1; [intros _; apply ltb_true; exact E1|].
  repeat match goal with
  | |- context [if ?c then [_] else []] => destruct c
  end; cbn [app Py.nonempty]; intros H; literal_member H.
Qed.

Lemma explain_weaknesses_experience (m : SingleMatchResponse.t) :
  "Experiencia por debajo de los requisitos" ∈ explain_weaknesses m ->
  (MatchBreakdown.experience_match (SingleMatchResponse.breakdown m) < 6 # 10)%Q.
Proof.
  unfold explain_weaknesses. cbv zeta.
  destruct (Py.ltb _ (6 # 10)) eqn:E1; [intros _; apply ltb_true; exact E1|].
  repeat match goal with
  | |- context [if ?c then [_] else []] => destruct c
  end; cbn [app Py.nonempty]; intros H; literal_member H.
Qed.

Lemma match_single_Ok_quality (cos_sim : string -> string -> float)
    (float_str : float -> string) (settings : gmap string float)
    (candidate : CandidateSchema.t) (job : JobSchema.t)
    (log : list event) (r : SingleMatchResponse.t) :
  match_single cos_sim float_str settings candidate job = (log, Ok r) ->
  determine_match_quality settings (SingleMatchResponse.compatibility_score r)
    = Ok (SingleMatchResponse.match_quality r) /\
  SingleMatchResponse.recommendations r <> [].
Proof.
  unfold match_single. intros H.
  eng_inv H. destruct a as [[skills_score matched] missing]. eng_inv H.
  apply lift_Ok in Hstep5 as [Hq _].
  apply lift_Ok in H as [Hr _].
  apply SingleMatchResponse_new_Ok in Hr as (-> & _).
  cbn [SingleMatchResponse.compatibility_score SingleMatchResponse.match_quality
       SingleMatchResponse.recommendations].
  split; [exact Hq | apply generate_recommendations_nonempty].
Qed.

Lemma explain_decision_excellent (settings : gmap string float)
    (e score : float) (quality : string) :
  settings !! "EXCELLENT_MATCH_THRESHOLD" = Some e ->
  determine_match_quality settings score = Ok quality ->
  ((e <= score)%Q <->
   explain_decision quality
   = "RECOMENDADO FUERTEMENTE - Agendar entrevista con prioridad alta").
Proof.
  intros He. unfold determine_match_quality, getattr. rewrite He.
  cbn [mbind res_bind]. 
  destruct (Py.leb e score) eqn:E.
  - intros [= <-]. apply leb_true in E. split; [reflexivity | intros _; exact E].
  - apply leb_false in E. intros H. split; [intros Hle; lra|].
    intros Hd. exfalso.
    destruct (settings !! "GOOD_MATCH_THRESHOLD") as [g|]; [|discriminate H].
    cbn in H. destruct (Py.leb g score); [injection H as <-; discriminate Hd|].
    destruct (settings !! "MIN_MATCH_THRESHOLD") as [mn|]; [|discriminate H].
    cbn in H. destruct (Py.leb mn score); injection H as <-; discriminate Hd.
Qed.

(** X23: when [match_single] returns, the explain route answers with its
    score and breakdown and with between one and four strengths and
    between one and four weaknesses.  The strength "Excelente match de
    habilidades técnicas" and the weakness "Falta de habilidades técnicas
    clave" are never given together, and neither are the strength
    "Experiencia superior a los requisitos" and the weakness "Experiencia
    por debajo de los requisitos"; other lines about skills, such as the
    strength "Domina n habilidades relevantes", are not excluded by this.
    The suggestions are empty unless requested and otherwise the match's
    non-empty recommendations; and the decision is the strongest one
    exactly from the excellent threshold on.  When [match_single] raises,
    the route answers 500. *)
Theorem explain_match_outcomes (cos_sim : string -> string -> float)
    (float_str : float -> string) (error_str : error -> string)
    (fixed0_str : float -> string) (settings : gmap string float)
    (request : ExplainMatchRequest.t) :
  let candidate := ExplainMatchRequest.candidate request in
  let job := ExplainMatchRequest.job request in
  (forall log m,
     match_single cos_sim float_str settings candidate job = (log, Ok m) ->
     exists response,
       explain_match cos_sim float_str error_str fixed0_str settings request
       = (log, Response response) /\
       ExplainMatchResponse.compatibility_score response
       = SingleMatchResponse.compatibility_score m /\
       ExplainMatchResponse.breakdown response = SingleMatchResponse.breakdown m /\
       (1 <= length (ExplainMatchResponse.strengths response) <= 4)%nat /\
       (1 <= length (ExplainMatchResponse.weaknesses response) <= 4)%nat /\
       ~ ("Excelente match de habilidades técnicas"
            ∈ ExplainMatchResponse.strengths response /\
          "Falta de habilidades técnicas clave"
            ∈ ExplainMatchResponse.weaknesses response) /\
       ~ ("Experiencia superior a los requisitos"
            ∈ ExplainMatchResponse.strengths response /\
          "Experiencia por debajo de los requisitos"
            ∈ ExplainMatchResponse.weaknesses response) /\
       (ExplainMatchRequest.include_suggestions request = false ->
        ExplainMatchResponse.suggestions response = []) /\
       (ExplainMatchRequest.include_suggestions request = true ->
        ExplainMatchResponse.suggestions response
        = SingleMatchResponse.recommendations m /\
        ExplainMatchResponse.suggestions response <> []) /\
       (forall e, settings !! "EXCELLENT_MATCH_THRESHOLD" = Some e ->
          ((e <= SingleMatchResponse.compatibility_score m)%Q <->
           ExplainMatchResponse.decision_recommendation response
           = "RECOMENDADO FUERTEMENTE - Agendar entrevista con prioridad alta"))) /\
  (forall log e,
     match_single cos_sim float_str settings candidate job = (log, Raise e) ->
     explain_match cos_sim float_str error_str fixed0_str settings request
     = (log, HTTPException 500
               ("Error generating explanation: " +:+ error_str e))).
Proof.
  intros candidate job. unfold explain_match. fold candidate job. split.
  - intros log m Hrun. rewrite Hrun.
    apply match_single_Ok_quality in Hrun as [Hq Hrec].
    eexists. split; [reflexivity|].
    cbn [ExplainMatchResponse.compatibility_score ExplainMatchResponse.breakdown
         ExplainMatchResponse.strengths ExplainMatchResponse.weaknesses
         ExplainMatchResponse.suggestions
         ExplainMatchResponse.decision_recommendation].
    split; [reflexivity|]. split; [reflexivity|].
    split.
    { pose proof (explain_strengths_length m).
      pose proof (explain_strengths_nonempty m).
      destruct (explain_strengths m); [congruence | simpl in *; lia]. }
    split.
    { pose proof (explain_weaknesses_length m).
      pose proof (explain_weaknesses_nonempty m).
      destruct (explain_weaknesses m); [congruence | simpl in *; lia]. }
    split.
    { intros [Hs Hw]. apply explain_strengths_skills in Hs.
      apply explain_weaknesses_skills in Hw. lra. }
    split.
    { intros [Hs Hw]. apply explain_strengths_experience in Hs.
      apply explain_weaknesses_experience in Hw. lra. }
    split; [intros ->; reflexivity|].
    split; [intros ->; split; [reflexivity | exact Hrec]|].
    intros e He. exact (explain_decision_excellent settings e _ _ He Hq).
  - intros log e Hrun. rewrite Hrun. reflexivity.
Qed.

Lemma explain_match_outcomes_witness :
  exists log response,
    explain_match sample_similarity sample_float_str (fun _ => "")
      (fun _ => "") sample_settings
      {| ExplainMatchRequest.candidate := web_developer;
         ExplainMatchRequest.job := web_job;
         ExplainMatchRequest.include_suggestions := true |}
    = (log, Response response)
    /\ ExplainMatchResponse.suggestions response <> [].
Proof.
  destruct (match_single_returns sample_similarity sample_float_str
              sample_settings web_developer web_job)
    as (log & r & H);
    [exact sample_settings_usable | vm_compute; discriminate
     | vm_compute; discriminate |].
  destruct (explain_match_outcomes sample_similarity sample_float_str
              (fun _ => "") (fun _ => "") sample_settings
              {| ExplainMatchRequest.candidate := web_developer;
                 ExplainMatchRequest.job := web_job;
                 ExplainMatchRequest.include_suggestions := true |})
    as [Hok _].
  destruct (Hok log r H)
    as (response & Hroute & _ & _ & _ & _ & _ & _ & _ & Hsug & _).
  exists log, response. split; [exact Hroute|].
  apply Hsug. reflexivity.
Defined.
